(** * pretty_maps_decor: the image geometry pipeline of [main.py]

    A shallow embedding of [add_margin] and [polycut] together with the parts
    of Pillow, NumPy and the [os] and [logging] modules that they call.
    [load_locations] is embedded over the values that [json.load] builds; of
    [save_images] only the path that it writes is used, the drawing being
    the work of matplotlib and prettymaps.

    Conventions of the model
    - Python [int] is [Z]; Python [float] and [np.float64] are IEEE binary64,
      taken from [SpecFloat] with [prec = 53] and [emax = 1024].
    - A Pillow image is a mutable object: images live in a store ([images])
      and the program manipulates handles ([loc]).  [Image.new], [crop],
      [convert], [open] and [fromarray] allocate; [paste] and
      [ImageDraw.polygon] update an object in place.
    - The file system is a finite map from path strings to nodes; the records
      sent to [logging] are collected in a list.
    - Exceptions are values of [Exn]; a computation is a state transformer
      that returns [Ok v] or [Raise e] together with the new world.
    - What the run depends on beyond the program text is gathered in
      [Platform]: the libm behind [np.cos] and [np.sin], the pixels that
      Pillow's polygon rasteriser draws, and the bytes that [np.empty]
      leaves uninitialised.
    - A finite float stands for the real number [float_value]; that the
      operations of [SpecFloat] round to nearest is proved from their
      definitions (section 19a), and what is stated of the floats of a run
      in real terms is stated with explicit error bounds.
    - Pillow is modelled for the modes ["L"], ["RGB"] and ["RGBA"].
      [Image.crop] rounds a float box with Python's [round] (ties to even),
      as [Image._crop] does.  Resource limits (memory, the decompression-bomb
      guard, the C [int] range of image sizes) are not modelled. *)

From Stdlib Require Import ZArith Lia Reals Lra Ascii String.
From Stdlib Require Import Floats.SpecFloat.
From stdpp Require Import gmap strings list.

Local Open Scope Z_scope.

(* ===================================================================== *)
(** * 1. Data model                                                       *)
(* ===================================================================== *)

(** The Python exceptions that the modelled calls can raise.
    [InvalidHandle] is an artefact of the store: a handle that names no
    image, which Python's object references rule out. *)
Inductive Exn :=
| ValueError | TypeError | OverflowError | ZeroDivisionError | IndexError
| OSError | SystemError | InvalidHandle.

Inductive Res (A : Type) :=
| Ok (a : A)
| Raise (e : Exn).
Arguments Ok {A} a.
Arguments Raise {A} e.

(** Pillow modes used by the program: ["L"] (one band), ["RGB"], ["RGBA"]. *)
Inductive Mode := L | RGB | RGBA.

#[global] Instance Mode_eq_dec : EqDecision Mode.
Proof. solve_decision. Defined.

Definition bands (m : Mode) : nat :=
  match m with L => 1%nat | RGB => 3%nat | RGBA => 4%nat end.

(** A pixel is the list of its band values, each a byte. *)
Abbreviation Pixel := (list Z) (only parsing).

(** An image: mode, size and the rows of pixels (row [y], column [x]). *)
Record Image := {
  im_mode : Mode;
  im_width : Z;
  im_height : Z;
  im_data : list (list Pixel)
}.

Definition size (im : Image) : Z * Z := (im_width im, im_height im).

(** The [color] argument of [add_margin]:
    [Union[int, Tuple[int, int, int]]]. *)
Inductive Color :=
| ColorInt (c : Z)
| ColorRGB (r g b : Z).

(** What a file holds: an encoded image (kept decoded) or something else. *)
Inductive Content :=
| ImageData (im : Image)
| OtherData.

Inductive Node :=
| Dir
| File (c : Content).

(** Records handed to [logging]; the f-string of each call site is kept
    as a constructor with the interpolated values. *)
Inductive LogMsg :=
| AddingMargin (top right bottom left : Z) (color : Color)
| ProcessingImage (name directory : string)
| ImageNotFound (name directory : string)
| CreatedDirectory (d : string)
| SavedHexagonalImage (path : string).

Inductive Level := INFO | ERROR.

Record LogRecord := { level : Level; msg : LogMsg }.

(** Handles of image objects: positions in the store. *)
Abbreviation loc := nat (only parsing).

Record World := {
  images : list Image;
  files : gmap string Node;
  logs : list LogRecord
}.

(* ===================================================================== *)
(** * 2. The state-and-exception monad                                    *)
(* ===================================================================== *)

Definition M (A : Type) : Type := World → Res A * World.

#[global] Instance M_ret : MRet M := λ A a σ, (Ok a, σ).

#[global] Instance M_bind : MBind M := λ A B f m σ,
  match m σ with
  | (Ok a, σ') => f a σ'
  | (Raise e, σ') => (Raise e, σ')
  end.

Definition raise {A} (e : Exn) : M A := λ σ, (Raise e, σ).

Definition lift {A} (r : Res A) : M A := λ σ, (r, σ).

Definition get_world : M World := λ σ, (Ok σ, σ).

Definition set_images (f : list Image → list Image) : M unit := λ σ,
  (Ok tt, {| images := f (images σ); files := files σ; logs := logs σ |}).

Definition set_files (f : gmap string Node → gmap string Node) : M unit := λ σ,
  (Ok tt, {| images := images σ; files := f (files σ); logs := logs σ |}).

Definition emit (r : LogRecord) : M unit := λ σ,
  (Ok tt, {| images := images σ; files := files σ; logs := logs σ ++ [r] |}).

(** [logging.info] and [logging.error]; the root logger is configured at
    level INFO (line 11), so both are recorded. *)
Definition logging_info (m : LogMsg) : M unit := emit {| level := INFO; msg := m |}.
Definition logging_error (m : LogMsg) : M unit := emit {| level := ERROR; msg := m |}.

(** Store access. *)
Definition deref (l : loc) : M Image := λ σ,
  match images σ !! l with
  | Some im => (Ok im, σ)
  | None => (Raise InvalidHandle, σ)
  end.

Definition alloc (im : Image) : M loc := λ σ,
  (Ok (length (images σ)),
   {| images := images σ ++ [im]; files := files σ; logs := logs σ |}).

Definition store (l : loc) (im : Image) : M unit := set_images (λ h, <[l := im]> h).

(* ===================================================================== *)
(** * 3. Pillow: images                                                   *)
(* ===================================================================== *)

(** [CLIP8] of Pillow's C core. *)
Definition clip8 (v : Z) : Z := Z.max 0 (Z.min 255 v).

(** [getink]: the pixel that a colour denotes in a mode.  A single-band
    image takes an int; a multi-band image takes an int (read as packed
    ABGR) or a tuple, whose missing alpha is 255.  The [OverflowError] of
    an int beyond the C range is not modelled. *)
Definition getink (m : Mode) (c : Color) : Res Pixel :=
  match m, c with
  | L, ColorInt v => Ok [clip8 v]
  | L, ColorRGB _ _ _ => Raise TypeError
  | RGB, ColorInt v =>
      Ok [Z.land v 255; Z.land (Z.shiftr v 8) 255; Z.land (Z.shiftr v 16) 255]
  | RGBA, ColorInt v =>
      Ok [Z.land v 255; Z.land (Z.shiftr v 8) 255; Z.land (Z.shiftr v 16) 255;
          Z.land (Z.shiftr v 24) 255]
  | RGB, ColorRGB r g b => Ok [clip8 r; clip8 g; clip8 b]
  | RGBA, ColorRGB r g b => Ok [clip8 r; clip8 g; clip8 b; 255]
  end.

(** Entry [x] of row [y] of a grid. *)
Definition at2 {A} (grid : list (list A)) (x y : nat) : option A :=
  grid !! y ≫= (.!! x).

(** Pixel access by coordinates; [None] outside the image. *)
Definition getpixel (im : Image) (x y : Z) : option Pixel :=
  if bool_decide (0 ≤ x < im_width im ∧ 0 ≤ y < im_height im)
  then at2 (im_data im) (Z.to_nat x) (Z.to_nat y)
  else None.

(** [Image.new(mode, size, color)]: [_check_size] rejects a negative width
    or height (zero is allowed), then the image is filled with the ink. *)
Definition Image_new (m : Mode) (sz : Z * Z) (c : Color) : M loc :=
  let '(w, h) := sz in
  if bool_decide (w < 0 ∨ h < 0) then raise ValueError
  else
    ink ← lift (getink m c);
    alloc {| im_mode := m; im_width := w; im_height := h;
             im_data := replicate (Z.to_nat h) (replicate (Z.to_nat w) ink) |}.

(** The pixels of [dst] after pasting [src] with its upper left corner at
    [(left, top)]: the source rectangle is clipped to [dst], pixels under it
    are replaced, the others are kept. *)
Definition paste_data (dst src : Image) (left top : Z) : list (list Pixel) :=
  imap (λ y row,
    imap (λ x p,
      match getpixel src (Z.of_nat x - left) (Z.of_nat y - top) with
      | Some q => q
      | None => p
      end) row) (im_data dst).

(** The object [dst] after the paste: mode and size are kept. *)
Definition pasted (dst src : Image) (left top : Z) : Image :=
  {| im_mode := im_mode dst; im_width := im_width dst;
     im_height := im_height dst;
     im_data := paste_data dst src left top |}.

(** [dst.paste(src, (left, top))] for images of one mode, which is the only
    use in this program (line 34 creates [result] in [pil_img.mode]).
    Updates the object [dst] in place. *)
Definition Image_paste (dst src : loc) (box : Z * Z) : M unit :=
  let left := box.1 in
  let top := box.2 in
  d ← deref dst;
  s ← deref src;
  if bool_decide (im_mode d = im_mode s) then
    store dst (pasted d s left top)
  else raise ValueError.

Definition Image_size (l : loc) : M (Z * Z) := im ← deref l; mret (size im).
Definition Image_mode (l : loc) : M Mode := im ← deref l; mret (im_mode im).

(* ===================================================================== *)
(** * 4. [add_margin] (main.py, lines 14-36)                              *)
(* ===================================================================== *)

Definition add_margin (pil_img : loc) (top right bottom left : Z)
    (color : Color) : M loc :=
  _ ← logging_info (AddingMargin top right bottom left color);
  '(width, height) ← Image_size pil_img;
  let new_width := width + right + left in
  let new_height := height + top + bottom in
  mode ← Image_mode pil_img;
  result ← Image_new mode (new_width, new_height) color;
  _ ← Image_paste result pil_img (left, top);
  mret result.

(* ===================================================================== *)
(** * 5. Python numbers: [int], [float] (binary64)                        *)
(* ===================================================================== *)

Definition float := spec_float.

Definition fadd : float → float → float := SFadd 53 1024.
Definition fsub : float → float → float := SFsub 53 1024.
Definition fmul : float → float → float := SFmul 53 1024.
Definition fdiv : float → float → float := SFdiv 53 1024.
Definition fsqrt : float → float := SFsqrt 53 1024.

(** The binary64 nearest to an integer (ties to even); an infinity when the
    integer is out of range. *)
Definition Z2F (z : Z) : float := binary_normalize 53 1024 z 0 false.

Definition is_finite (x : float) : bool :=
  match x with
  | S754_zero _ | S754_finite _ _ _ => true
  | _ => false
  end.

(** The implicit [float(i)] of mixed arithmetic [i * x], [i / x]:
    OverflowError when [i] is too large for a float. *)
Definition float_of_int (i : Z) : Res float :=
  if is_finite (Z2F i) then Ok (Z2F i) else Raise OverflowError.

(** A decimal literal [n/d] with [n] and [d] below [2^53], such as [0.89]:
    the correctly rounded quotient is the float the literal denotes. *)
Definition float_lit (n d : Z) : float := fdiv (Z2F n) (Z2F d).

(** [a / b] on ints (true division): the correctly rounded quotient. *)
Definition int_truediv (a b : Z) : Res float :=
  if b =? 0 then Raise ZeroDivisionError
  else if a =? 0 then Ok (S754_zero false)
  else
    let '(q, e, l) := SFdiv_core_binary 53 1024 (Z.abs a) 0 (Z.abs b) 0 in
    let x := binary_round_aux 53 1024 (xorb (a <? 0) (b <? 0)) q e l in
    if is_finite x then Ok x else Raise OverflowError.

(** [np.floor]. *)
Definition np_floor (x : float) : float :=
  match x with
  | S754_finite s m e =>
      let v := cond_Zopp s (Zpos m) in
      Z2F (if 0 <=? e then v * 2 ^ e else Z.shiftr v (- e))
  | _ => x
  end.

(** [int(x)]: truncation towards zero. *)
Definition py_int (x : float) : Res Z :=
  match x with
  | S754_zero _ => Ok 0
  | S754_finite s m e =>
      Ok (cond_Zopp s (if 0 <=? e then Zpos m * 2 ^ e else Z.shiftr (Zpos m) (- e)))
  | S754_infinity _ => Raise OverflowError
  | S754_nan => Raise ValueError
  end.

(** [round(x)] of a float: the nearest integer, ties to even. *)
Definition round_float (x : float) : Res Z :=
  match x with
  | S754_zero _ => Ok 0
  | S754_finite s m e =>
      if 0 <=? e then Ok (cond_Zopp s (Zpos m * 2 ^ e))
      else
        let q := Z.shiftr (Zpos m) (- e) in
        let rest := Zpos m - q * 2 ^ (- e) in
        let up :=
          match 2 * rest ?= 2 ^ (- e) with
          | Lt => false
          | Eq => Z.odd q
          | Gt => true
          end in
        Ok (cond_Zopp s (if up then q + 1 else q))
  | S754_infinity _ => Raise OverflowError
  | S754_nan => Raise ValueError
  end.

(** A value that is an [int] or a [float], as in the box given to [crop]. *)
Inductive pynum :=
| PInt (i : Z)
| PFloat (x : float).

Definition py_round (n : pynum) : Res Z :=
  match n with
  | PInt i => Ok i
  | PFloat x => round_float x
  end.

(** Exact comparison of a float with an int. *)
Definition float_cmp_int (x : float) (i : Z) : option comparison :=
  match x with
  | S754_nan => None
  | S754_infinity s => Some (if s then Lt else Gt)
  | S754_zero _ => Some (0 ?= i)
  | S754_finite s m e =>
      let v := cond_Zopp s (Zpos m) in
      Some (if 0 <=? e then v * 2 ^ e ?= i else v ?= i * 2 ^ (- e))
  end.

(** [a < b] on Python numbers. *)
Definition pynum_ltb (a b : pynum) : bool :=
  match a, b with
  | PInt i, PInt j => i <? j
  | PFloat x, PFloat y => SFltb x y
  | PFloat x, PInt j =>
      match float_cmp_int x j with Some Lt => true | _ => false end
  | PInt i, PFloat y =>
      match float_cmp_int y i with Some Gt => true | _ => false end
  end.

#[global] Instance Res_ret : MRet Res := λ A a, Ok a.

#[global] Instance Res_bind : MBind Res := λ A B f r,
  match r with
  | Ok a => f a
  | Raise e => Raise e
  end.

(* ===================================================================== *)
(** * 6. Pillow: crop, convert, open, save, fromarray                     *)
(* ===================================================================== *)

(** The core crop on integer coordinates: a new image of size
    [(max 0 (x1-x0), max 0 (y1-y0))], zero where the box leaves the source,
    with the source pasted at [(-x0, -y0)]. *)
Definition crop_core (src : Image) (x0 y0 x1 y1 : Z) : Image :=
  let w := Z.max 0 (x1 - x0) in
  let h := Z.max 0 (y1 - y0) in
  let blank :=
    {| im_mode := im_mode src; im_width := w; im_height := h;
       im_data := replicate (Z.to_nat h)
                    (replicate (Z.to_nat w) (replicate (bands (im_mode src)) 0)) |} in
  pasted blank src (- x0) (- y0).

(** [im.crop(box)]: ValueError when right < left or lower < upper; then
    [_crop] rounds each coordinate with [round] ([map(int, map(round, box))]). *)
Definition Image_crop (im : loc) (box : pynum * pynum * pynum * pynum) : M loc :=
  let '(b0, b1, b2, b3) := box in
  if pynum_ltb b2 b0 then raise ValueError
  else if pynum_ltb b3 b1 then raise ValueError
  else
    src ← deref im;
    x0 ← lift (py_round b0);
    y0 ← lift (py_round b1);
    x1 ← lift (py_round b2);
    y1 ← lift (py_round b3);
    alloc (crop_core src x0 y0 x1 y1).

(** Pixel conversion between the three modes ([ImagingConvert]); a
    grey level is [L = (19595 R + 38470 G + 7471 B + 0x8000) >> 16]. *)
Definition convert_pixel (src dst : Mode) (p : Pixel) : Pixel :=
  let grey r g b := Z.shiftr (r * 19595 + g * 38470 + b * 7471 + 32768) 16 in
  match src, dst, p with
  | L, RGB, [v] => [v; v; v]
  | L, RGBA, [v] => [v; v; v; 255]
  | RGB, L, [r; g; b] => [grey r g b]
  | RGB, RGBA, [r; g; b] => [r; g; b; 255]
  | RGBA, L, [r; g; b; _] => [grey r g b]
  | RGBA, RGB, [r; g; b; _] => [r; g; b]
  | _, _, _ => p
  end.

(** [im.convert(mode)]: always a new image (a copy when the mode is
    already [mode]). *)
Definition Image_convert (im : loc) (m : Mode) : M loc :=
  src ← deref im;
  alloc {| im_mode := m; im_width := im_width src; im_height := im_height src;
           im_data := map (map (convert_pixel (im_mode src) m)) (im_data src) |}.

(** [Image.open(path)]: a missing file, a directory and a file that is no
    image are an [OSError] (FileNotFoundError, IsADirectoryError,
    UnidentifiedImageError).  The decompression-bomb guard, whose error is
    no [OSError], is not modelled. *)
Definition Image_open (path : string) : M loc :=
  σ ← get_world;
  match files σ !! path with
  | Some (File (ImageData im)) => alloc im
  | _ => raise OSError
  end.

(** [im.save(path)] as PNG.  The file is opened for writing first; the
    encoder refuses an image with a zero side, and then a file that this
    call created is removed while one that existed is left truncated. *)
Definition Image_save (im : loc) (path : string) : M unit :=
  img ← deref im;
  σ ← get_world;
  match files σ !! path with
  | Some Dir => raise OSError
  | old =>
      if bool_decide (im_width img = 0 ∨ im_height img = 0) then
        (match old with
         | Some _ => set_files (<[path := File OtherData]>)
         | None => mret tt
         end) ;; raise SystemError
      else set_files (<[path := File (ImageData img)]>)
  end.

(* ===================================================================== *)
(** * 7. NumPy arrays of [uint8]                                          *)
(* ===================================================================== *)

(** A two- or three-dimensional array with its shape; [items] are nested
    lists in index order. *)
Inductive ndarray :=
| Array2 (d0 d1 : Z) (items : list (list Z))
| Array3 (d0 d1 d2 : Z) (items : list (list (list Z))).

(** [a.shape] *)
Definition shape (a : ndarray) : list Z :=
  match a with
  | Array2 d0 d1 _ => [d0; d1]
  | Array3 d0 d1 d2 _ => [d0; d1; d2]
  end.

(** [t[i]] on a tuple, for [0 ≤ i]. *)
Definition tuple_get (t : list Z) (i : nat) : Res Z :=
  match t !! i with
  | Some v => Ok v
  | None => Raise IndexError
  end.

(** [np.asarray(im)] / [np.array(im)]: shape [(height, width)] for mode L
    and [(height, width, bands)] otherwise. *)
Definition np_asarray (im : loc) : M ndarray :=
  img ← deref im;
  match im_mode img with
  | L => mret (Array2 (im_height img) (im_width img)
                 (map (map (λ p : Pixel, default 0 (head p))) (im_data img)))
  | m => mret (Array3 (im_height img) (im_width img) (Z.of_nat (bands m))
                 (im_data img))
  end.

(** [a * k] for a Python int [k] that fits [uint8]: the product wraps
    modulo 256. *)
Definition np_mul (a : ndarray) (k : Z) : ndarray :=
  let f v := (v * k) mod 256 in
  match a with
  | Array2 d0 d1 items => Array2 d0 d1 (map (map f) items)
  | Array3 d0 d1 d2 items => Array3 d0 d1 d2 (map (map (map f)) items)
  end.

(** [a[:, :, :3]] *)
Definition get_bands_to3 (a : ndarray) : Res ndarray :=
  match a with
  | Array3 d0 d1 d2 items =>
      Ok (Array3 d0 d1 (Z.min d2 3) (map (map (take 3)) items))
  | Array2 _ _ _ => Raise IndexError
  end.

(** [a[:, :, :3] = v] for [v] of the shape of the target slice (the only
    case in this program; NumPy would also broadcast). *)
Definition set_bands_to3 (a v : ndarray) : Res ndarray :=
  match a, v with
  | Array3 d0 d1 d2 items, Array3 e0 e1 e2 vitems =>
      if bool_decide (e0 = d0 ∧ e1 = d1 ∧ e2 = Z.min d2 3) then
        Ok (Array3 d0 d1 d2
              (zip_with (zip_with (λ px vpx, vpx ++ drop 3 px)) items vitems))
      else Raise ValueError
  | Array2 _ _ _, _ => Raise IndexError
  | _, _ => Raise ValueError
  end.

(** [a[:, :, 3] = v] for [v] of shape [(d0, d1)]. *)
Definition set_band3 (a v : ndarray) : Res ndarray :=
  match a, v with
  | Array3 d0 d1 d2 items, Array2 e0 e1 vitems =>
      if bool_decide (d2 ≤ 3) then Raise IndexError
      else if bool_decide (e0 = d0 ∧ e1 = d1) then
        Ok (Array3 d0 d1 d2
              (zip_with (zip_with (λ px x, <[3%nat := x]> px)) items vitems))
      else Raise ValueError
  | Array2 _ _ _, _ => Raise IndexError
  | _, _ => Raise ValueError
  end.

(** [Image.fromarray(a, "RGBA")]: an array of shape [(h, w, 4)] becomes an
    image of size [(w, h)]. *)
Definition Image_fromarray (a : ndarray) (m : Mode) : M loc :=
  match a with
  | Array3 d0 d1 d2 items =>
      if bool_decide (d2 = Z.of_nat (bands m) ∧ m ≠ L) then
        alloc {| im_mode := m; im_width := d1; im_height := d0; im_data := items |}
      else raise ValueError
  | Array2 d0 d1 items =>
      if bool_decide (m = L) then
        alloc {| im_mode := L; im_width := d1; im_height := d0;
                 im_data := map (map (λ v, [v])) items |}
      else raise ValueError
  end.

(* ===================================================================== *)
(** * 8. [os.path] and [os]                                               *)
(* ===================================================================== *)

Definition startswith_sep (s : string) : bool :=
  match s with
  | String c _ => bool_decide (c = "/"%char)
  | EmptyString => false
  end.

Fixpoint endswith_sep (s : string) : bool :=
  match s with
  | EmptyString => false
  | String c EmptyString => bool_decide (c = "/"%char)
  | String _ rest => endswith_sep rest
  end.

(** [os.path.join(a, b)] of [posixpath]. *)
Definition os_path_join (a b : string) : string :=
  if startswith_sep b then b
  else if bool_decide (a = "") || endswith_sep a then a +:+ b
  else a +:+ "/" +:+ b.

Definition os_path_isfile (path : string) : M bool :=
  σ ← get_world;
  mret (match files σ !! path with Some (File _) => true | _ => false end).

Definition os_path_exists (path : string) : M bool :=
  σ ← get_world;
  mret (bool_decide (is_Some (files σ !! path))).

(** [os.makedirs(path)]: the directory node is added; an empty or existing
    path is an [OSError].  The map is flat: the ancestors that the call
    creates on the way are not recorded, nor is its failure when an ancestor
    is a regular file.  What is stated of the files after a run that
    creates [directory] is stated of the paths of the map. *)
Definition os_makedirs (path : string) : M unit :=
  σ ← get_world;
  if bool_decide (path = "" ∨ is_Some (files σ !! path)) then raise OSError
  else set_files (<[path := Dir]>).

(* ===================================================================== *)
(** * 9. The hexagon (main.py, lines 79-84)                               *)
(* ===================================================================== *)

(** The arithmetic of the polygon loop.  The loop is written once over this
    interface; [polycut] runs it on binary64 with NumPy's [cos] and [sin],
    and what it returns is compared with the same loop on the real
    numbers. *)
Class Arith (F : Type) := {
  ar_of_int : Z → Res F;      (* the implicit float(i) *)
  ar_lit : Z → Z → F;         (* the literal n/d *)
  ar_add : F → F → F;
  ar_mul : F → F → F;
  ar_div : F → F → F;
  ar_cos : F → F;             (* np.cos *)
  ar_sin : F → F;             (* np.sin *)
  ar_pi : F                   (* np.pi *)
}.

(** [range(n)] *)
Definition range (n : nat) : list Z := Z.of_nat <$> seq 0 n.

(** [theta = i * 2.0 * np.pi / 6.0] *)
Definition theta `{Arith F} (i : F) : F :=
  ar_div (ar_mul (ar_mul i (ar_lit 2 1)) ar_pi) (ar_lit 6 1).

(** One iteration of the loop body: the vertex appended at step [i]. *)
Definition vertex `{Arith F} (r : F) (padded_width padded_height : Z) (i : Z)
    : Res (F * F) :=
  i' ← ar_of_int i;
  let x := ar_mul r (ar_cos (theta i')) in
  let y := ar_mul r (ar_sin (theta i')) in
  w ← ar_of_int padded_width;
  h ← ar_of_int padded_height;
  mret (ar_add x (ar_div w (ar_lit 2 1)),
        ar_add y (ar_div (ar_mul h (ar_lit 89 100)) (ar_lit 2 1))).

(** [polygon = []; for i in range(6): ... polygon.append(...)] *)
Definition hexagon `{Arith F} (r : F) (padded_width padded_height : Z)
    : Res (list (F * F)) :=
  foldl (λ acc i,
           polygon ← acc;
           v ← vertex r padded_width padded_height i;
           mret (polygon ++ [v]))
        (mret []) (range 6).

(** The real numbers as an instance: exact arithmetic. *)
#[global] Instance Arith_R : Arith R := {|
  ar_of_int z := Ok (IZR z);
  ar_lit n d := (IZR n / IZR d)%R;
  ar_add := Rplus;
  ar_mul := Rmult;
  ar_div := Rdiv;
  ar_cos := cos;
  ar_sin := sin;
  ar_pi := PI
|}.

(* ===================================================================== *)
(** * 10. [polycut] (main.py, lines 39-102)                               *)
(* ===================================================================== *)

(** The local variables of a run of [polycut] that reaches its last line. *)
Record Locals := {
  l_file_name : string;
  l_loaded : loc;                  (* im, line 59 *)
  l_dim : Z;                       (* line 61 *)
  l_im : loc;                      (* im after the optional crop *)
  l_width : Z;                     (* line 68 *)
  l_height : Z;                    (* line 69 *)
  l_factor : float;
  l_r : float;
  l_padding_factor : Z;
  l_im_padded : loc;
  l_im_array : ndarray;
  l_polygon : list (float * float);
  l_mask_im : loc;
  l_mask : ndarray;
  l_new_im_array : ndarray;
  l_new_im : loc;
  l_output_path : string
}.

Definition extensions : list string := [".png"; ".jpeg"; ".jpg"].

(** [next((file_path + ext for ext in extensions
            if os.path.isfile(file_path + ext)), None)] (line 53) *)
Fixpoint next_isfile (file_path : string) (exts : list string)
    : M (option string) :=
  match exts with
  | [] => mret None
  | ext :: rest =>
      os_path_isfile (file_path +:+ ext) ≫= λ b : bool,
        if b then mret (Some (file_path +:+ ext))
        else next_isfile file_path rest
  end.

(** Truth value of [file_name] in [if not file_name] (line 55). *)
Definition truthy (file_name : option string) : bool :=
  match file_name with
  | None => false
  | Some s => negb (bool_decide (s = ""))
  end.

(** Lines 60-65: [dim] and the optional crop. *)
Definition square_crop (im : loc) : M (loc * Z) :=
  sz ← Image_size im;
  let width := sz.1 in
  let height := sz.2 in
  let dim := Z.min width height in
  if bool_decide (width > height) then
    min_x ← lift (int_truediv (width - height) 2);
    h ← lift (float_of_int height);
    im' ← Image_crop im (PFloat min_x, PInt 0, PFloat (fadd min_x h), PInt height);
    mret (im', dim)
  else mret (im, dim).

(** Line 70. *)
Definition factor_of (width height : Z) : float :=
  if bool_decide (width > height)
  then fdiv (float_lit 1 1) (fsqrt (float_lit 3 1))
  else fdiv (float_lit 1 1) (float_lit 2 1).

(** Line 71. *)
Definition radius (dim : Z) (factor : float) : Res float :=
  d ← float_of_int dim;
  mret (fmul d factor).

(** Lines 72-74. *)
Definition padding (width : Z) : Res Z :=
  let req_width := float_lit 17 1 in
  let page_width := float_lit 20 1 in
  w ← float_of_int width;
  py_int (np_floor
    (fdiv (fmul w (fsub (fdiv page_width req_width) (float_lit 1 1)))
          (float_lit 2 1))).

(** What the run depends on beyond the program text. *)
Class Platform := {
  (** NumPy's [cos] and [sin] on binary64 (the libm in use). *)
  np_cos : float → float;
  np_sin : float → float;
  (** [polygon_pixels xy x y]: whether Pillow's rasteriser writes pixel
      [(x, y)] when it draws the polygon [xy] filled and outlined. *)
  polygon_pixels : list (float * float) → Z → Z → bool;
  (** The bytes found in the memory that [np.empty] does not initialise. *)
  uninit : nat → nat → nat → Z
}.

Section Polycut.

Context {platform : Platform}.

#[global] Instance Arith_binary64 : Arith float := {|
  ar_of_int := float_of_int;
  ar_lit := float_lit;
  ar_add := fadd;
  ar_mul := fmul;
  ar_div := fdiv;
  ar_cos := np_cos;
  ar_sin := np_sin;
  ar_pi := float_lit 3141592653589793 1000000000000000
|}.

(** [np.empty(shape, dtype='uint8')] *)
Definition np_empty (shp : list Z) : Res ndarray :=
  match shp with
  | [d0; d1] =>
      if bool_decide (d0 < 0 ∨ d1 < 0) then Raise ValueError
      else Ok (Array2 d0 d1
             ((λ i, (λ j, uninit i j 0) <$> seq 0 (Z.to_nat d1))
                <$> seq 0 (Z.to_nat d0)))
  | [d0; d1; d2] =>
      if bool_decide (d0 < 0 ∨ d1 < 0 ∨ d2 < 0) then Raise ValueError
      else Ok (Array3 d0 d1 d2
             ((λ i, (λ j, (λ k, uninit i j k) <$> seq 0 (Z.to_nat d2))
                      <$> seq 0 (Z.to_nat d1))
                <$> seq 0 (Z.to_nat d0)))
  | _ => Raise ValueError
  end.

(** [ImageDraw.Draw(im).polygon(xy, outline=c, fill=c)]: the pixels of the
    polygon receive the ink of [c]; the image object is updated in place. *)
Definition ImageDraw_polygon (im : loc) (xy : list (float * float)) (c : Z)
    : M unit :=
  img ← deref im;
  ink ← lift (getink (im_mode img) (ColorInt c));
  store im {| im_mode := im_mode img; im_width := im_width img;
              im_height := im_height img;
              im_data :=
                imap (λ y row,
                  imap (λ x p,
                    if polygon_pixels xy (Z.of_nat x) (Z.of_nat y)
                    then ink else p) row) (im_data img) |}.

(** Lines 86-94: the mask and the output image. *)
Definition apply_mask (im_array : ndarray) (polygon : list (float * float))
    : M (loc * ndarray * ndarray * loc) :=
  s1 ← lift (tuple_get (shape im_array) 1);
  s0 ← lift (tuple_get (shape im_array) 0);
  mask_im ← Image_new L (s1, s0) (ColorInt 0);
  _ ← ImageDraw_polygon mask_im polygon 1;
  mask ← np_asarray mask_im;
  a0 ← lift (np_empty (shape im_array));
  rgb ← lift (get_bands_to3 im_array);
  a1 ← lift (set_bands_to3 a0 rgb);
  a2 ← lift (set_band3 a1 (np_mul mask 255));
  new_im ← Image_fromarray a2 RGBA;
  mret (mask_im, mask, a2, new_im).

(** Lines 96-102. *)
Definition persist (new_im : loc) (name directory : string) : M string :=
  let output_dir := directory in
  e ← os_path_exists output_dir;
  _ ← (if negb e
       then os_makedirs output_dir ;; logging_info (CreatedDirectory output_dir)
       else mret tt);
  let path := os_path_join output_dir (name +:+ "_hex.png") in
  _ ← Image_save new_im path;
  _ ← logging_info (SavedHexagonalImage path);
  mret path.

(** Lines 59-102: the work on a resolved file. *)
Definition process (name directory file_name : string) : M Locals :=
  opened ← Image_open file_name;
  loaded ← Image_convert opened RGBA;
  '(im, dim) ← square_crop loaded;
  sz ← Image_size im;
  let width := sz.1 in
  let height := sz.2 in
  let factor := factor_of width height in
  r ← lift (radius dim factor);
  padding_factor ← lift (padding width);
  im_padded ← add_margin im padding_factor padding_factor padding_factor
                 padding_factor (ColorRGB 255 255 255);
  im_array ← np_asarray im_padded;
  psz ← Image_size im_padded;
  polygon ← lift (hexagon r psz.1 psz.2);
  '(mask_im, mask, new_im_array, new_im) ← apply_mask im_array polygon;
  path ← persist new_im name directory;
  mret {| l_file_name := file_name; l_loaded := loaded; l_dim := dim;
          l_im := im; l_width := width; l_height := height;
          l_factor := factor; l_r := r; l_padding_factor := padding_factor;
          l_im_padded := im_padded; l_im_array := im_array;
          l_polygon := polygon; l_mask_im := mask_im; l_mask := mask;
          l_new_im_array := new_im_array; l_new_im := new_im;
          l_output_path := path |}.

(** [polycut] with its local variables as the result: [None] is the early
    [return] of line 57. *)
Definition polycut_run (name directory : string) : M (option Locals) :=
  _ ← logging_info (ProcessingImage name directory);
  let file_path := os_path_join directory name in
  file_name ← next_isfile file_path extensions;
  if negb (truthy file_name) then
    _ ← logging_error (ImageNotFound name directory);
    mret None
  else
    ls ← process name directory (default "" file_name);
    mret (Some ls).

(** [polycut(name, directory) -> None] *)
Definition polycut (name directory : string) : M unit :=
  _ ← polycut_run name directory;
  mret tt.

End Polycut.

(* ===================================================================== *)
(** * 11. A sample platform and sample worlds                             *)
(* ===================================================================== *)

(** Concrete values for the parameters of [polycut], used to run the model
    on examples: the values of a libm at the six angles of the loop, a
    rasteriser for convex polygons, and zeroed memory. *)

Definition libm_table : list (float * (float * float)) :=
  [ (S754_zero false,
      (S754_finite false 4503599627370496 (-52), S754_zero false));
    (S754_finite false 4716158501352293 (-52),
      (S754_finite false 4503599627370497 (-53),
       S754_finite false 7800463371553962 (-53)));
    (S754_finite false 4716158501352293 (-51),
      (S754_finite true 9007199254740988 (-54),
       S754_finite false 7800463371553963 (-53)));
    (S754_finite false 7074237752028440 (-51),
      (S754_finite true 4503599627370496 (-52),
       S754_finite false 4967757600021511 (-105)));
    (S754_finite false 4716158501352293 (-50),
      (S754_finite true 4503599627370500 (-53),
       S754_finite true 7800463371553960 (-53)));
    (S754_finite false 5895198126690367 (-50),
      (S754_finite false 4503599627370497 (-53),
       S754_finite true 7800463371553962 (-53))) ].

Fixpoint libm_lookup (t : list (float * (float * float))) (x : float)
    : option (float * float) :=
  match t with
  | [] => None
  | (a, v) :: rest => if SFeqb a x then Some v else libm_lookup rest x
  end.

Definition sample_cos (x : float) : float :=
  match libm_lookup libm_table x with Some v => v.1 | None => S754_nan end.

Definition sample_sin (x : float) : float :=
  match libm_lookup libm_table x with Some v => v.2 | None => S754_nan end.

(** The exponent of a finite float ([0] for the others). *)
Definition exponent (x : float) : Z :=
  match x with
  | S754_finite _ _ e => e
  | _ => 0
  end.

(** [x * 2^k] as an integer, for a finite [x] of exponent at least [-k]. *)
Definition scaled (k : Z) (x : float) : Z :=
  match x with
  | S754_finite s m e => cond_Zopp s (Z.shiftl (Zpos m) (e + k))
  | _ => 0
  end.

(** The sides of the polygon as pairs of consecutive vertices. *)
Definition edges {A} (xy : list A) : list (A * A) :=
  match xy with
  | [] => []
  | v :: rest => zip xy (rest ++ [v])
  end.

(** Pixel [(x, y)] is on one side of every edge, or on an edge; the
    coordinates are compared exactly, as integers scaled by [2^k]. *)
Definition sample_pixels (xy : list (float * float)) (x y : Z) : bool :=
  let k := - foldr Z.min 0 (flat_map (λ v, [exponent v.1; exponent v.2]) xy) in
  let px := Z.shiftl x k in
  let py := Z.shiftl y k in
  let side (e : (float * float) * (float * float)) :=
    let '((x1, y1), (x2, y2)) := e in
    (scaled k x2 - scaled k x1) * (py - scaled k y1)
    - (scaled k y2 - scaled k y1) * (px - scaled k x1) in
  forallb (λ e, 0 <=? side e) (edges xy) || forallb (λ e, side e <=? 0) (edges xy).

Definition sample_uninit (i j k : nat) : Z := 0.

Definition sample_platform : Platform :=
  {| np_cos := sample_cos; np_sin := sample_sin;
     polygon_pixels := sample_pixels; uninit := sample_uninit |}.

(** ** Sample images and worlds *)

(** An RGBA image whose pixel at [(x, y)] is [(x, y, 7, 9)]. *)
Definition gradient (w h : nat) : Image :=
  {| im_mode := RGBA; im_width := Z.of_nat w; im_height := Z.of_nat h;
     im_data := (λ y, (λ x, [Z.of_nat x; Z.of_nat y; 7; 9]) <$> seq 0 w) <$> seq 0 h |}.

(** A 2x2 RGBA image with four different pixels. *)
Definition red_2x2 : Image :=
  {| im_mode := RGBA; im_width := 2; im_height := 2;
     im_data := [[[255;0;0;0]; [254;0;0;0]]; [[253;0;0;0]; [252;0;0;0]]] |}.

(** A store holding [red_2x2] only. *)
Definition world0 : World := {| images := [red_2x2]; files := ∅; logs := [] |}.

(** A store holding one 5x2 image. *)
Definition store_5x2 : World :=
  {| images := [gradient 5 2]; files := ∅; logs := [] |}.

(** A store holding one 2x1 image. *)
Definition store_2x1 : World :=
  {| images := [gradient 2 1]; files := ∅; logs := [] |}.

(** A directory [output] holding [test.png]. *)
Definition disk (im : Image) : World :=
  {| images := [];
     files := <["output" := Dir]> (<["output/test.png" := File (ImageData im)]> ∅);
     logs := [] |}.

(** A directory [output] without any candidate for [test]. *)
Definition empty_disk : World :=
  {| images := []; files := <["output" := Dir]> ∅; logs := [] |}.

(** A directory holding both [test.png] and [test.jpg]. *)
Definition two_candidates : World :=
  {| images := [];
     files := <["output" := Dir]>
                (<["output/test.png" := File (ImageData (gradient 2 2))]>
                   (<["output/test.jpg" := File (ImageData (gradient 3 3))]> ∅));
     logs := [] |}.

(* ===================================================================== *)
(** * 12. Invariants and descriptions of results                            *)
(* ===================================================================== *)

(** The data invariant of an image object: the rows match the size. *)
Definition wf_image (im : Image) : Prop :=
  0 ≤ im_width im ∧ 0 ≤ im_height im ∧
  length (im_data im) = Z.to_nat (im_height im) ∧
  Forall (λ row, length row = Z.to_nat (im_width im)) (im_data im).

(** Every pixel has as many bands as the mode says. *)
Definition wf_bands (im : Image) : Prop :=
  ∀ x y p, at2 (im_data im) x y = Some p → length p = bands (im_mode im).

(** [push σ im]: the world after allocating [im]. *)
Definition push (σ : World) (ims : list Image) : World :=
  {| images := images σ ++ ims; files := files σ; logs := logs σ |}.

(** [logged σ rs]: the world after logging the records [rs]. *)
Definition logged (σ : World) (rs : list LogRecord) : World :=
  {| images := images σ; files := files σ; logs := logs σ ++ rs |}.

(** The image that [add_margin] builds: a canvas of ink with the input
    pasted at [(left, top)]. *)
Definition margin_image (img : Image) (top right bottom left : Z) (ink : Pixel)
    : Image :=
  let w := im_width img + right + left in
  let h := im_height img + top + bottom in
  let canvas :=
    {| im_mode := im_mode img; im_width := w; im_height := h;
       im_data := replicate (Z.to_nat h) (replicate (Z.to_nat w) ink) |} in
  pasted canvas img left top.

(** [im.convert(m)] as a function on images. *)
Definition converted (src : Image) (m : Mode) : Image :=
  {| im_mode := m; im_width := im_width src; im_height := im_height src;
     im_data := map (map (convert_pixel (im_mode src) m)) (im_data src) |}.

(** [os.path.isfile] as a function of the file system. *)
Definition is_file (fs : gmap string Node) (path : string) : bool :=
  match fs !! path with
  | Some (File _) => true
  | _ => false
  end.

(** The first candidate [file_path + ext], in the order of [exts], that is
    an existing file. *)
Fixpoint first_file (fs : gmap string Node) (file_path : string)
    (exts : list string) : option string :=
  match exts with
  | [] => None
  | ext :: rest =>
      if is_file fs (file_path +:+ ext) then Some (file_path +:+ ext)
      else first_file fs file_path rest
  end.

(** The two values of [factor] (line 70), as binary64 numbers. *)
Definition one_over_sqrt3 : float := fdiv (Z2F 1) (fsqrt (Z2F 3)).
Definition one_half : float := fdiv (Z2F 1) (Z2F 2).

(** The centre used by the loop: [(padded_width/2, padded_height*0.89/2)]. *)
Definition centre (pw ph : Z) : R * R :=
  (IZR pw / 2, IZR ph * (89 / 100) / 2)%R.

(** The angle of vertex [i]: [i * 2π / 6]. *)
Definition angle (i : nat) : R := (INR i * 2 * PI / 6)%R.

(** Vertex [i] of the loop over the reals. *)
Definition ideal_vertex (r : R) (pw ph : Z) (i : nat) : R * R :=
  (r * cos (angle i) + (centre pw ph).1, r * sin (angle i) + (centre pw ph).2)%R.

Section Descriptions.

Context {platform : Platform}.

(** The mask image after [polygon(xy, outline=1, fill=1)] on a canvas of
    zeros of the size of [P]. *)
Definition mask_image (P : Image) (xy : list (float * float)) : Image :=
  {| im_mode := L; im_width := im_width P; im_height := im_height P;
     im_data :=
       imap (λ y row,
         imap (λ x p,
           if polygon_pixels xy (Z.of_nat x) (Z.of_nat y) then [1] else p) row)
         (replicate (Z.to_nat (im_height P)) (replicate (Z.to_nat (im_width P)) [0])) |}.

(** [mask], the array of the mask image. *)
Definition mask_grid (P : Image) (xy : list (float * float)) : list (list Z) :=
  map (map (λ p : Pixel, default 0 (head p))) (im_data (mask_image P xy)).

(** [new_im_array] after the two slice assignments. *)
Definition masked_grid (P : Image) (xy : list (float * float)) : list (list Pixel) :=
  zip_with (zip_with (λ (px : Pixel) a, <[3%nat := a]> px))
    (zip_with (zip_with (λ (px vpx : Pixel), vpx ++ drop 3 px))
       ((λ i, (λ j, (λ k, uninit i j k) <$> seq 0 (Z.to_nat 4))
                <$> seq 0 (Z.to_nat (im_width P)))
          <$> seq 0 (Z.to_nat (im_height P)))
       (map (map (take 3)) (im_data P)))
    (map (map (λ v, (v * 255) mod 256)) (mask_grid P xy)).

(** The output image: [Image.fromarray(new_im_array, "RGBA")]. *)
Definition masked_image (P : Image) (xy : list (float * float)) : Image :=
  {| im_mode := RGBA; im_width := im_width P; im_height := im_height P;
     im_data := masked_grid P xy |}.

(** Vertex [i] as the loop computes it in binary64, from the radius and the
    padded width and height converted to floats. *)
Definition float_vertex (r w h : float) (i : nat) : float * float :=
  (fadd (fmul r (np_cos (theta (Z2F (Z.of_nat i))))) (fdiv w (float_lit 2 1)),
   fadd (fmul r (np_sin (theta (Z2F (Z.of_nat i)))))
        (fdiv (fmul h (float_lit 89 100)) (float_lit 2 1))).

End Descriptions.

(* ===================================================================== *)
(** * 12a. Descriptions of whole runs                                    *)
(* ===================================================================== *)

(** [src.crop(box)] as a function of the image: the checks of [Image.crop]
    and the rounding of [Image._crop]. *)
Definition crop_image (src : Image) (box : pynum * pynum * pynum * pynum)
    : Res Image :=
  let '(b0, b1, b2, b3) := box in
  if pynum_ltb b2 b0 then Raise ValueError
  else if pynum_ltb b3 b1 then Raise ValueError
  else
    x0 ← py_round b0;
    y0 ← py_round b1;
    x1 ← py_round b2;
    y1 ← py_round b3;
    mret (crop_core src x0 y0 x1 y1).

(** The image named [im] after lines 60-65, as a function of the loaded
    image. *)
Definition cropped (loaded : Image) : Res Image :=
  let width := im_width loaded in
  let height := im_height loaded in
  if bool_decide (width > height) then
    min_x ← int_truediv (width - height) 2;
    h ← float_of_int height;
    crop_image loaded (PFloat min_x, PInt 0, PFloat (fadd min_x h), PInt height)
  else mret loaded.

(** The path that line 101 writes. *)
Definition output_path (name directory : string) : string :=
  os_path_join directory (name +:+ "_hex.png").

(** The file system after lines 96-101 have saved [out]: the directory node
    is added when the path named nothing. *)
Definition with_directory (fs : gmap string Node) (directory : string)
    : gmap string Node :=
  if bool_decide (is_Some (fs !! directory)) then fs else <[directory := Dir]> fs.

Definition written_files (fs : gmap string Node) (name directory : string)
    (out : Image) : gmap string Node :=
  <[output_path name directory := File (ImageData out)]> (with_directory fs directory).

(** [σ'] has the image objects of [σ], unchanged, and possibly more. *)
Definition extends (σ σ' : World) : Prop :=
  ∃ extra, images σ' = images σ ++ extra.

(** The log of [σ'] continues the log of [σ]. *)
Definition log_grows (σ σ' : World) : Prop :=
  ∃ rs, logs σ' = logs σ ++ rs.

(** The exceptions of the arithmetic. *)
Definition arithmetic_error (e : Exn) : Prop := e = OverflowError ∨ e = ValueError.

(** A float that is not below zero: a NaN and both zeros qualify. *)
Definition not_negative (x : float) : Prop :=
  match x with
  | S754_finite true _ _ | S754_infinity true => False
  | _ => True
  end.

(** The path that [save_images] hands to [plt.savefig] (line 160). *)
Definition save_images_path (name output_dir : string) : string :=
  os_path_join output_dir (name +:+ ".png").

Section RunDescriptions.

Context {platform : Platform}.

(** The image that [polycut] hands to [save], as a function of the image
    held by the source file (lines 59-94). *)
Definition hexagon_image (source : Image) : Res Image :=
  let loaded := converted source RGBA in
  let dim := Z.min (im_width loaded) (im_height loaded) in
  im ← cropped loaded;
  r ← radius dim (factor_of (im_width im) (im_height im));
  padding_factor ← padding (im_width im);
  if bool_decide (im_width im + padding_factor + padding_factor < 0 ∨
                  im_height im + padding_factor + padding_factor < 0)
  then Raise ValueError
  else
    let im_padded :=
      margin_image im padding_factor padding_factor padding_factor padding_factor
        [255; 255; 255; 255] in
    polygon ← hexagon r (im_width im_padded) (im_height im_padded);
    mret (masked_image im_padded polygon).

(** The ways in which a call of [polycut] ends: the result, and the file
    system that it leaves, from the file system that it finds. *)
Inductive polycut_outcome (name directory : string) (fs : gmap string Node)
    : Res (option Locals) → gmap string Node → Prop :=
| NotFound :
    first_file fs (os_path_join directory name) extensions = None →
    polycut_outcome name directory fs (Ok None) fs
| Undecodable p :
    first_file fs (os_path_join directory name) extensions = Some p →
    fs !! p = Some (File OtherData) →
    polycut_outcome name directory fs (Raise OSError) fs
| Unprocessable p source e :
    first_file fs (os_path_join directory name) extensions = Some p →
    fs !! p = Some (File (ImageData source)) →
    hexagon_image source = Raise e →
    polycut_outcome name directory fs (Raise e) fs
| NoDirectory p source out :
    first_file fs (os_path_join directory name) extensions = Some p →
    fs !! p = Some (File (ImageData source)) →
    hexagon_image source = Ok out →
    fs !! directory = None ∧ directory = "" →
    polycut_outcome name directory fs (Raise OSError) fs
| OutputIsDirectory p source out :
    first_file fs (os_path_join directory name) extensions = Some p →
    fs !! p = Some (File (ImageData source)) →
    hexagon_image source = Ok out →
    ¬ (fs !! directory = None ∧ directory = "") →
    with_directory fs directory !! output_path name directory = Some Dir →
    polycut_outcome name directory fs (Raise OSError) (with_directory fs directory)
| EmptyImage p source out :
    first_file fs (os_path_join directory name) extensions = Some p →
    fs !! p = Some (File (ImageData source)) →
    hexagon_image source = Ok out →
    ¬ (fs !! directory = None ∧ directory = "") →
    with_directory fs directory !! output_path name directory ≠ Some Dir →
    im_width out = 0 ∨ im_height out = 0 →
    polycut_outcome name directory fs (Raise SystemError)
      (match with_directory fs directory !! output_path name directory with
       | Some _ => <[output_path name directory := File OtherData]>
                     (with_directory fs directory)
       | None => with_directory fs directory
       end)
| Saved p source out ls :
    first_file fs (os_path_join directory name) extensions = Some p →
    fs !! p = Some (File (ImageData source)) →
    hexagon_image source = Ok out →
    ¬ (fs !! directory = None ∧ directory = "") →
    with_directory fs directory !! output_path name directory ≠ Some Dir →
    im_width out ≠ 0 → im_height out ≠ 0 →
    l_file_name ls = p →
    l_output_path ls = output_path name directory →
    polycut_outcome name directory fs (Ok (Some ls))
      (written_files fs name directory out).

End RunDescriptions.

(** ** The crop by sizes *)

(** An RGBA image of the given size whose pixels are not looked at. *)
Definition blank_image (w h : Z) : Image :=
  {| im_mode := RGBA; im_width := w; im_height := h; im_data := [] |}.

(** The width after the crop of lines 63-65, by the parities of the sides:
    [height], unless [height] and [width - height] are both odd. *)
Definition crop_width (width height : Z) : Z :=
  if Z.odd (width - height) && Z.odd height
  then (if Z.even ((width - height) / 2) then height + 1 else height - 1)
  else height.

(** The sizes [(w, h)] with [0 < h < w <= n]. *)
Definition wide_sizes (n : nat) : list (Z * Z) :=
  w ← range (S n);
  h ← range (Z.to_nat w);
  if bool_decide (0 < h) then [(w, h)] else [].

(** The check that the crop of a [w] by [h] image has the size
    [(crop_width w h, h)]. *)
Definition crop_size_ok (wh : Z * Z) : bool :=
  match cropped (blank_image wh.1 wh.2) with
  | Ok c => (im_width c =? crop_width wh.1 wh.2) && (im_height c =? wh.2)
  | Raise _ => false
  end.

(** ** More sample worlds *)

(** A directory whose [test.png] is not an image, beside a good [test.jpg]. *)
Definition broken_png : World :=
  {| images := [];
     files := <["output" := Dir]>
                (<["output/test.png" := File OtherData]>
                   (<["output/test.jpg" := File (ImageData red_2x2)]> ∅));
     logs := [] |}.

(** [test.png] in the current directory, addressed with an empty
    [directory]. *)
Definition flat_disk : World :=
  {| images := [];
     files := <["test.png" := File (ImageData red_2x2)]> ∅;
     logs := [] |}.

(** A file [maps/a.jpg]; the path [maps] itself is not recorded. *)
Definition shelf (im : Image) : World :=
  {| images := [red_2x2];
     files := <["maps/a.jpg" := File (ImageData im)]> ∅;
     logs := [] |}.

(* ===================================================================== *)
(** * 12b. [load_locations] (main.py, lines 164-182)                     *)
(* ===================================================================== *)

(** Python values: what [json.load] builds, and tuples.  A [dict] keeps
    its entries in insertion order; the keys of a JSON object are
    strings. *)
#[warnings="-register-all"] Inductive pyvalue :=
| VNone
| VBool (b : bool)
| VInt (i : Z)
| VFloat (x : float)
| VStr (s : string)
| VList (items : list pyvalue)
| VTuple (items : list pyvalue)
| VDict (entries : list (string * pyvalue)).

(** What [open(path, 'r')] and [json.load] find at a path: a directory, or
    a file with the value that its text denotes when the text is JSON. *)
Inductive TextNode :=
| TextDir
| TextFile (document : option pyvalue).

(** The exceptions of [load_locations]. *)
Inductive LoadError :=
| FileNotFoundError | IsADirectoryError     (* open *)
| JSONDecodeError                            (* json.load *)
| AttributeError.                            (* data.items() *)

Inductive Loaded :=
| Returned (data : pyvalue)
| Failed (e : LoadError).

(** [data[key] = value]: an existing key keeps its place. *)
Fixpoint dict_set (data : list (string * pyvalue)) (key : string) (value : pyvalue)
    : list (string * pyvalue) :=
  match data with
  | [] => [(key, value)]
  | (k, v) :: rest =>
      if decide (k = key) then (k, value) :: rest
      else (k, v) :: dict_set rest key value
  end.

(** [data[key]] *)
Fixpoint dict_get (data : list (string * pyvalue)) (key : string) : option pyvalue :=
  match data with
  | [] => None
  | (k, v) :: rest => if decide (k = key) then Some v else dict_get rest key
  end.

(** Lines 178-180.  The view [data.items()] is live: the entry at
    position [i] is read from the dict as the assignments so far have left
    it.  An assignment to an existing key does not change the size, so the
    iteration takes [remaining] more steps. *)
Fixpoint items_loop (remaining i : nat) (data : list (string * pyvalue))
    : list (string * pyvalue) :=
  match remaining with
  | O => data
  | S n =>
      match data !! i with
      | Some (key, VList items) => items_loop n (S i) (dict_set data key (VTuple items))
      | Some _ => items_loop n (S i) data
      | None => data
      end
  end.

Definition load_locations (fs : gmap string TextNode) (file_path : string) : Loaded :=
  match fs !! file_path with
  | None => Failed FileNotFoundError
  | Some TextDir => Failed IsADirectoryError
  | Some (TextFile None) => Failed JSONDecodeError
  | Some (TextFile (Some (VDict data))) =>
      Returned (VDict (items_loop (length data) 0 data))
  | Some (TextFile (Some _)) => Failed AttributeError
  end.

(** [tuple(value)] where [value] is a list, and [value] itself otherwise. *)
Definition list_to_tuple (value : pyvalue) : pyvalue :=
  match value with
  | VList items => VTuple items
  | _ => value
  end.

(** An entry after the loop. *)
Definition converted_entry (entry : string * pyvalue) : string * pyvalue :=
  (entry.1, list_to_tuple entry.2).

(** The file written by [test_load_locations]. *)
Definition test_locations : gmap string TextNode :=
  {[ "test_locations.json" :=
       TextFile (Some (VDict [("TestLocation", VStr "123 Test St, Test City");
                              ("TestCoordinates", VList [VFloat (Z2F 10); VFloat (Z2F 20)])])) ]}.

(* ===================================================================== *)
(** * 12c. Floats as real numbers, the crop box, more samples            *)
(* ===================================================================== *)

(** The real number that a float stands for ([0] for an infinity and a
    NaN). *)
Definition float_value (x : float) : R :=
  match x with
  | S754_finite s m e => (IZR (cond_Zopp s (Zpos m)) * powerRZ 2 e)%R
  | _ => 0%R
  end.

(** [x] or [-x] by the sign bit. *)
Definition signed (s : bool) (x : R) : R := if s then (- x)%R else x.

(** What the record of a shifted mantissa says of the real number [y] that
    it stands for: the mantissa is the integer part of [y], the round bit
    tells whether the rest reaches one half, the sticky bit whether [y] is
    neither the mantissa nor the mantissa and a half. *)
Definition located (mrs : shr_record) (y : R) : Prop :=
  0 ≤ shr_m mrs ∧
  (IZR (shr_m mrs) <= y < IZR (shr_m mrs) + 1)%R ∧
  (if shr_r mrs then (IZR (shr_m mrs) + 1 / 2 <= y)%R
   else (y < IZR (shr_m mrs) + 1 / 2)%R) ∧
  (if shr_s mrs
   then (y ≠ IZR (shr_m mrs) ∧ y ≠ IZR (shr_m mrs) + 1 / 2)%R
   else (y = IZR (shr_m mrs) ∨ y = IZR (shr_m mrs) + 1 / 2)%R).

(** A number [M * 2^E] with [M] below [2^53] and [E] at least [-1074] is
    a binary64 number. *)
Definition representable (x : R) : Prop :=
  ∃ M E, x = (IZR M * powerRZ 2 E)%R ∧ 0 ≤ M < 2 ^ 53 ∧ -1074 ≤ E.

Section Accuracy.

Context {platform : Platform}.

(** NumPy's [cos] and [sin] are accurate at the six angles of the loop:
    what they return at the float [i * 2.0 * np.pi / 6.0] is a finite
    float within [2^-50] of the cosine and the sine of [i * 2π / 6]. *)
Definition accurate_trig : Prop :=
  ∀ i, (i < 6)%nat →
    is_finite (np_cos (theta (Z2F (Z.of_nat i)))) = true ∧
    is_finite (np_sin (theta (Z2F (Z.of_nat i)))) = true ∧
    (Rabs (float_value (np_cos (theta (Z2F (Z.of_nat i)))) - cos (angle i))
     <= powerRZ 2 (-50))%R ∧
    (Rabs (float_value (np_sin (theta (Z2F (Z.of_nat i)))) - sin (angle i))
     <= powerRZ 2 (-50))%R.

End Accuracy.

(** The box that [Image._crop] works on: the checks of [Image.crop], then
    each coordinate rounded. *)
Definition rounded_box (box : pynum * pynum * pynum * pynum)
    : Res (Z * Z * Z * Z) :=
  let '(b0, b1, b2, b3) := box in
  if pynum_ltb b2 b0 then Raise ValueError
  else if pynum_ltb b3 b1 then Raise ValueError
  else
    x0 ← py_round b0;
    y0 ← py_round b1;
    x1 ← py_round b2;
    y1 ← py_round b3;
    mret (x0, y0, x1, y1).

(** The rounded box of lines 64-65 for an image of the given size. *)
Definition crop_box (width height : Z) : Res (Z * Z * Z * Z) :=
  min_x ← int_truediv (width - height) 2;
  h ← float_of_int height;
  rounded_box (PFloat min_x, PInt 0, PFloat (fadd min_x h), PInt height).

(** The check that, where [width - height] is even, the rounded box is the
    centred band of width [height]. *)
Definition band_ok (wh : Z * Z) : bool :=
  match crop_box wh.1 wh.2 with
  | Ok (x0, y0, x1, y1) =>
      Z.odd (wh.1 - wh.2) ||
      ((x0 =? (wh.1 - wh.2) / 2) && (y0 =? 0) && (x1 =? x0 + wh.2) && (y1 =? wh.2))
  | Raise _ => false
  end.

(** A store holding one 4x3 image. *)
Definition store_4x3 : World :=
  {| images := [gradient 4 3]; files := ∅; logs := [] |}.

(** An ["L"] image in the store. *)
Definition grey_world : World :=
  {| images := [{| im_mode := L; im_width := 1; im_height := 1;
                   im_data := [[[7]]] |}];
     files := ∅; logs := [] |}.

(** The image of the repository's tests: 100x100, RGBA, every pixel
    (255, 0, 0, 0). *)
Definition test_image : Image :=
  {| im_mode := RGBA; im_width := 100; im_height := 100;
     im_data := replicate 100 (replicate 100 [255; 0; 0; 0]) |}.

(* ===================================================================== *)
(** * 13. Running the monad                                               *)
(* ===================================================================== *)

Lemma run_bind_ok {A B} (m : M A) (f : A → M B) σ a σ' :
  m σ = (Ok a, σ') → (m ≫= f) σ = f a σ'.
Proof. intros E. unfold mbind, M_bind. by rewrite E. Qed.

Lemma run_bind_raise {A B} (m : M A) (f : A → M B) σ e σ' :
  m σ = (Raise e, σ') → (m ≫= f) σ = (Raise e, σ').
Proof. intros E. unfold mbind, M_bind. by rewrite E. Qed.

(** A bind that ends in [Ok] went through an [Ok] of its first part. *)
Lemma run_bind_inv {A B} (m : M A) (f : A → M B) σ b σ2 :
  (m ≫= f) σ = (Ok b, σ2) →
  ∃ a σ1, m σ = (Ok a, σ1) ∧ f a σ1 = (Ok b, σ2).
Proof.
  unfold mbind, M_bind. destruct (m σ) as [[a|e] σ1]; [eauto | discriminate].
Qed.

Lemma lift_inv {A} (r : Res A) σ a σ' :
  lift r σ = (Ok a, σ') → r = Ok a ∧ σ' = σ.
Proof. unfold lift. by intros [= -> ->]. Qed.

Lemma deref_inv l σ im σ' :
  deref l σ = (Ok im, σ') → images σ !! l = Some im ∧ σ' = σ.
Proof.
  unfold deref. destruct (images σ !! l); [by intros [= -> ->] | discriminate].
Qed.

Lemma deref_ok l σ im : images σ !! l = Some im → deref l σ = (Ok im, σ).
Proof. unfold deref. by intros ->. Qed.

(* ===================================================================== *)
(** * 14. Pixels of new and pasted images                                 *)
(* ===================================================================== *)

Lemma getpixel_wf im x y :
  wf_image im → 0 ≤ x < im_width im → 0 ≤ y < im_height im →
  is_Some (getpixel im x y).
Proof.
  intros (Hw & Hh & Hlen & Hrows) Hx Hy. unfold getpixel, at2.
  rewrite bool_decide_true by done.
  destruct (lookup_lt_is_Some_2 (im_data im) (Z.to_nat y)) as [row Hrow]; [lia|].
  rewrite Hrow. simpl.
  apply lookup_lt_is_Some_2.
  rewrite Forall_lookup in Hrows. rewrite (Hrows _ _ Hrow). lia.
Qed.

Lemma getpixel_inside im x y p :
  getpixel im x y = Some p → 0 ≤ x < im_width im ∧ 0 ≤ y < im_height im.
Proof. unfold getpixel. case_bool_decide; [done | discriminate]. Qed.

Lemma getpixel_blank m w h ink x y :
  0 ≤ x < w → 0 ≤ y < h →
  getpixel {| im_mode := m; im_width := w; im_height := h;
              im_data := replicate (Z.to_nat h) (replicate (Z.to_nat w) ink) |} x y
  = Some ink.
Proof.
  intros Hx Hy. unfold getpixel, at2. simpl.
  rewrite bool_decide_true by done.
  rewrite lookup_replicate_2 by lia. simpl.
  apply lookup_replicate_2. lia.
Qed.

(** A pasted pixel is the source pixel where the shifted source covers it
    and the old pixel elsewhere. *)
Lemma getpixel_paste d s left top x y :
  getpixel (pasted d s left top) x y
  = p ← getpixel d x y;
    Some (match getpixel s (x - left) (y - top) with Some q => q | None => p end).
Proof.
  unfold getpixel at 1 3. simpl.
  case_bool_decide as Hin; [|done].
  unfold paste_data, at2. rewrite list_lookup_imap.
  destruct (im_data d !! Z.to_nat y) as [row|]; [|done]. simpl.
  rewrite list_lookup_imap.
  destruct (row !! Z.to_nat x) as [p|]; [|done]. simpl.
  by rewrite !Z2Nat.id by lia.
Qed.

Lemma wf_blank m w h ink :
  0 ≤ w → 0 ≤ h →
  wf_image {| im_mode := m; im_width := w; im_height := h;
              im_data := replicate (Z.to_nat h) (replicate (Z.to_nat w) ink) |}.
Proof.
  intros Hw Hh. repeat split; simpl; try done.
  - by rewrite length_replicate.
  - apply Forall_replicate. by rewrite length_replicate.
Qed.

Lemma wf_paste d s left top :
  wf_image d → wf_image (pasted d s left top).
Proof.
  intros (Hw & Hh & Hlen & Hrows). repeat split; simpl; try done.
  - unfold paste_data. by rewrite length_imap.
  - unfold paste_data. apply Forall_lookup. intros i row.
    rewrite list_lookup_imap. intros Hrow.
    destruct (im_data d !! i) as [row0|] eqn:E; [|done].
    simpl in Hrow. injection Hrow as <-. rewrite length_imap.
    rewrite Forall_lookup in Hrows. by apply (Hrows i).
Qed.

(* ===================================================================== *)
(** * 15. [add_margin]                                                    *)
(* ===================================================================== *)

(** The run of [add_margin] when the new size is not negative: one record
    is logged, one image is allocated, nothing else changes. *)
Lemma add_margin_run σ pil_img img top right bottom left color ink :
  images σ !! pil_img = Some img →
  getink (im_mode img) color = Ok ink →
  0 ≤ im_width img + right + left →
  0 ≤ im_height img + top + bottom →
  add_margin pil_img top right bottom left color σ =
    (Ok (length (images σ)),
     {| images := images σ ++ [margin_image img top right bottom left ink];
        files := files σ;
        logs := logs σ ++ [{| level := INFO;
                              msg := AddingMargin top right bottom left color |}] |}).
Proof.
  intros Himg Hink Hw Hh. unfold add_margin.
  unfold logging_info, emit, Image_size, Image_mode, Image_new, Image_paste.
  unfold mbind, M_bind, mret, M_ret, deref, alloc, store, set_images, lift, size.
  simpl. repeat (rewrite Himg; simpl).
  rewrite bool_decide_false by lia.
  rewrite Hink. simpl.
  rewrite lookup_app_r by done. rewrite Nat.sub_diag. simpl.
  rewrite lookup_app_l by (by eapply lookup_lt_Some).
  rewrite Himg. simpl.
  rewrite bool_decide_true by done. simpl.
  rewrite insert_app_r_alt by done. rewrite Nat.sub_diag. simpl.
  reflexivity.
Qed.

(** The run of [add_margin] when a margin makes the new width or height
    negative: [Image.new] raises before anything is allocated. *)
Lemma add_margin_raise σ pil_img img top right bottom left color :
  images σ !! pil_img = Some img →
  im_width img + right + left < 0 ∨ im_height img + top + bottom < 0 →
  add_margin pil_img top right bottom left color σ =
    (Raise ValueError,
     {| images := images σ; files := files σ;
        logs := logs σ ++ [{| level := INFO;
                              msg := AddingMargin top right bottom left color |}] |}).
Proof.
  intros Himg Hneg. unfold add_margin.
  unfold logging_info, emit, Image_size, Image_mode, Image_new, Image_paste.
  unfold mbind, M_bind, mret, M_ret, deref, alloc, store, set_images, lift, size.
  simpl. repeat (rewrite Himg; simpl).
  rewrite bool_decide_true by lia. reflexivity.
Qed.

Lemma wf_margin_image img top right bottom left ink :
  0 ≤ im_width img + right + left →
  0 ≤ im_height img + top + bottom →
  wf_image (margin_image img top right bottom left ink).
Proof.
  intros Hw Hh. unfold margin_image.
  apply wf_paste. by apply wf_blank.
Qed.

(** Every pixel of the result: the input pixel that the paste puts there,
    and the ink where the (clipped) input does not reach. *)
Lemma getpixel_margin_image img top right bottom left ink x y :
  0 ≤ x < im_width img + right + left →
  0 ≤ y < im_height img + top + bottom →
  getpixel (margin_image img top right bottom left ink) x y =
    Some (match getpixel img (x - left) (y - top) with
          | Some q => q
          | None => ink
          end).
Proof.
  intros Hx Hy. unfold margin_image.
  rewrite getpixel_paste. by rewrite getpixel_blank.
Qed.

Lemma wf_red_2x2 : wf_image red_2x2.
Proof. repeat split; simpl; try lia. repeat constructor. Qed.

Example add_margin_small :
  let '(r, σ) := add_margin 0%nat 1 0 0 1 (ColorRGB 255 255 255) world0 in
  r = Ok 1%nat ∧
  images σ !! 1%nat =
    Some {| im_mode := RGBA; im_width := 3; im_height := 3;
            im_data := [[[255;255;255;255]; [255;255;255;255]; [255;255;255;255]];
                        [[255;255;255;255]; [255;0;0;0]; [254;0;0;0]];
                        [[255;255;255;255]; [253;0;0;0]; [252;0;0;0]]] |}.
Proof. vm_compute. split; reflexivity. Qed.

(** The test of the repository: a 100x100 image with margins of 10 becomes
    120x120 (test_functions.py, [test_add_margin]). *)
Example test_add_margin :
  let σ := {| images := [gradient 100 100]; files := ∅; logs := [] |} in
  let '(r, σ') := add_margin 0%nat 10 10 10 10 (ColorRGB 255 255 255) σ in
  r = Ok 1%nat ∧ size <$> images σ' !! 1%nat = Some (120, 120).
Proof. vm_compute. split; reflexivity. Qed.

(** C1.  For an image object of size (w, h), non-negative margins and a
    fill colour of the image's mode, [add_margin] returns a new image object
    of size (w + left + right, h + top + bottom); the rectangle of size
    (w, h) at offset (left, top) has the pixels of the input, every pixel
    outside it is the fill colour, and no image that existed before the call,
    the input among them, is changed. *)
Theorem add_margin_correct σ pil_img img top right bottom left color ink :
  images σ !! pil_img = Some img →
  wf_image img →
  0 ≤ top → 0 ≤ right → 0 ≤ bottom → 0 ≤ left →
  getink (im_mode img) color = Ok ink →
  ∃ result out σ',
    add_margin pil_img top right bottom left color σ = (Ok result, σ') ∧
    images σ !! result = None ∧
    images σ' !! result = Some out ∧
    wf_image out ∧
    im_mode out = im_mode img ∧
    size out = (im_width img + left + right, im_height img + top + bottom) ∧
    (∀ x y, 0 ≤ x < im_width img → 0 ≤ y < im_height img →
       is_Some (getpixel img x y) ∧
       getpixel out (x + left) (y + top) = getpixel img x y) ∧
    (∀ x y, 0 ≤ x < im_width img + left + right →
            0 ≤ y < im_height img + top + bottom →
       ¬ (left ≤ x < left + im_width img ∧ top ≤ y < top + im_height img) →
       getpixel out x y = Some ink) ∧
    (∀ l im, images σ !! l = Some im → images σ' !! l = Some im) ∧
    images σ' !! pil_img = Some img ∧
    files σ' = files σ.
Proof.
  intros Himg Hwf Ht Hr Hb Hl Hink.
  pose proof Hwf as (Hw & Hh & _).
  eexists _, _, _. split.
  { apply (add_margin_run _ _ img _ _ _ _ _ ink); [done | done | lia | lia]. }
  simpl. split_and!.
  - apply lookup_ge_None_2. lia.
  - rewrite lookup_app_r by done. by rewrite Nat.sub_diag.
  - apply wf_margin_image; lia.
  - done.
  - unfold size. simpl. f_equal; lia.
  - intros x y Hx Hy.
    destruct (getpixel_wf img x y Hwf Hx Hy) as [p Hp].
    split; [by rewrite Hp|].
    rewrite getpixel_margin_image by lia.
    replace (x + left - left) with x by lia.
    replace (y + top - top) with y by lia.
    by rewrite Hp.
  - intros x y Hx Hy Hout.
    rewrite getpixel_margin_image by lia.
    destruct (getpixel img (x - left) (y - top)) as [q|] eqn:E; [|done].
    apply getpixel_inside in E. lia.
  - intros l im Hl'. rewrite lookup_app_l; [done | by eapply lookup_lt_Some].
  - rewrite lookup_app_l; [done | by eapply lookup_lt_Some].
  - done.
Qed.

Lemma add_margin_correct_witness :
  ∃ result out σ',
    add_margin 0%nat 1 2 3 4 (ColorRGB 255 255 255) world0 = (Ok result, σ') ∧
    images σ' !! result = Some out ∧
    size out = (8, 6) ∧
    getpixel out 4 1 = Some [255; 0; 0; 0] ∧
    getpixel out 3 1 = Some [255; 255; 255; 255] ∧
    images σ' !! 0%nat = Some red_2x2.
Proof.
  destruct (add_margin_correct world0 0%nat red_2x2 1 2 3 4
              (ColorRGB 255 255 255) [255; 255; 255; 255])
    as (result & out & σ' & Hrun & _ & Hout & _ & _ & Hsize & Hin & Hfill & _ & Hsame & _);
    [reflexivity | exact wf_red_2x2 | lia | lia | lia | lia | reflexivity |].
  exists result, out, σ'. split_and!; try done.
  - destruct (Hin 0 0) as [_ E]; [simpl; lia | simpl; lia |]. exact E.
  - apply Hfill; simpl; lia.
Defined.

(** Not what C9 says: a negative [top] is accepted.  The call returns,
    without any exception, a well-formed 2x1 image that holds the lower row
    of the 2x2 input. *)
Lemma add_margin_negative_top_returns :
  add_margin 0%nat (-1) 0 0 0 (ColorRGB 255 255 255) world0 =
    (Ok 1%nat,
     {| images := [red_2x2;
                   {| im_mode := RGBA; im_width := 2; im_height := 1;
                      im_data := [[[253;0;0;0]; [252;0;0;0]]] |}];
        files := ∅;
        logs := [{| level := INFO;
                    msg := AddingMargin (-1) 0 0 0 (ColorRGB 255 255 255) |}] |}).
Proof. vm_compute. reflexivity. Qed.

(** C9, amended.  [add_margin] does not check the sign of its margins.  It
    fails (the ValueError of [Image.new], before anything is allocated)
    exactly when the margins make the new width or the new height negative.
    Otherwise, also with a negative margin, it returns a well-formed image of
    size (w + left + right, h + top + bottom): the input pasted at
    (left, top) and clipped to the new bounds, on a canvas of the fill
    colour. *)
Theorem add_margin_unchecked_margins σ pil_img img top right bottom left color ink :
  images σ !! pil_img = Some img →
  getink (im_mode img) color = Ok ink →
  (im_width img + left + right < 0 ∨ im_height img + top + bottom < 0 →
   ∃ σ', add_margin pil_img top right bottom left color σ = (Raise ValueError, σ') ∧
         images σ' = images σ ∧ files σ' = files σ) ∧
  (0 ≤ im_width img + left + right → 0 ≤ im_height img + top + bottom →
   ∃ result out σ',
     add_margin pil_img top right bottom left color σ = (Ok result, σ') ∧
     images σ' !! result = Some out ∧
     wf_image out ∧
     size out = (im_width img + left + right, im_height img + top + bottom) ∧
     ∀ x y, 0 ≤ x < im_width img + left + right →
            0 ≤ y < im_height img + top + bottom →
       getpixel out x y =
         Some (match getpixel img (x - left) (y - top) with
               | Some q => q
               | None => ink
               end)).
Proof.
  intros Himg Hink. split.
  - intros Hneg. eexists. split.
    + apply (add_margin_raise _ _ img); [done | lia].
    + done.
  - intros Hw Hh. eexists _, _, _. split.
    { apply (add_margin_run _ _ img _ _ _ _ _ ink); [done | done | lia | lia]. }
    simpl. split_and!.
    + rewrite lookup_app_r by done. by rewrite Nat.sub_diag.
    + apply wf_margin_image; lia.
    + unfold size. simpl. f_equal; lia.
    + intros x y Hx Hy. apply getpixel_margin_image; lia.
Qed.

Lemma add_margin_unchecked_margins_witness :
  (∃ σ', add_margin 0%nat 0 0 0 (-3) (ColorRGB 255 255 255) world0
           = (Raise ValueError, σ')) ∧
  (∃ result out σ',
     add_margin 0%nat 0 0 0 (-1) (ColorRGB 255 255 255) world0 = (Ok result, σ') ∧
     images σ' !! result = Some out ∧ size out = (1, 2)).
Proof.
  split.
  - destruct (add_margin_unchecked_margins world0 0%nat red_2x2 0 0 0 (-3)
                (ColorRGB 255 255 255) [255; 255; 255; 255] eq_refl eq_refl)
      as [Hfail _].
    destruct Hfail as (σ' & Hrun & _); [simpl; lia |]. by exists σ'.
  - destruct (add_margin_unchecked_margins world0 0%nat red_2x2 0 0 0 (-1)
                (ColorRGB 255 255 255) [255; 255; 255; 255] eq_refl eq_refl)
      as [_ Hok].
    destruct Hok as (result & out & σ' & Hrun & Hout & _ & Hsize & _);
      [simpl; lia | simpl; lia |].
    by exists result, out, σ'.
Defined.

(* ===================================================================== *)
(** * 16. Resolving the input file                                        *)
(* ===================================================================== *)

Lemma next_isfile_run file_path exts σ :
  next_isfile file_path exts σ = (Ok (first_file (files σ) file_path exts), σ).
Proof.
  induction exts as [|ext rest IH]; [done|].
  simpl. unfold mbind, M_bind, os_path_isfile, get_world, mret, M_ret. simpl.
  fold (is_file (files σ) (file_path +:+ ext)).
  destruct (is_file (files σ) (file_path +:+ ext)); [done | apply IH].
Qed.

Lemma first_file_None fs file_path exts :
  first_file fs file_path exts = None ↔
  ∀ ext, ext ∈ exts → is_file fs (file_path +:+ ext) = false.
Proof.
  induction exts as [|e rest IH]; simpl.
  - split; [|done]. intros _ ext Hin. by apply elem_of_nil in Hin.
  - destruct (is_file fs (file_path +:+ e)) eqn:E.
    + split; [done|]. intros H. rewrite (H e) in E; [done | by left].
    + rewrite IH. split.
      * intros H ext [-> | Hin]%elem_of_cons; [done | by apply H].
      * intros H ext Hin. apply H. by right.
Qed.

Lemma first_file_Some fs file_path exts p :
  first_file fs file_path exts = Some p ↔
  ∃ i ext, exts !! i = Some ext ∧ p = file_path +:+ ext ∧
           is_file fs p = true ∧
           ∀ j ext', (j < i)%nat → exts !! j = Some ext' →
                     is_file fs (file_path +:+ ext') = false.
Proof.
  revert p. induction exts as [|e rest IH]; intros p; simpl.
  - split; [done|]. by intros (i & ext & ? & _).
  - destruct (is_file fs (file_path +:+ e)) eqn:E.
    + split.
      * intros [= <-]. exists 0%nat, e. split_and!; try done. lia.
      * intros (i & ext & Hi & -> & Hf & Hbefore).
        destruct i as [|i]; [by injection Hi as -> |].
        rewrite (Hbefore 0%nat e) in E; [done | lia | done].
    + rewrite IH. split.
      * intros (i & ext & Hi & -> & Hf & Hbefore).
        exists (S i), ext. split_and!; try done.
        intros [|j] ext' Hj Hl; [by injection Hl as <- |].
        apply (Hbefore j); [lia | done].
      * intros (i & ext & Hi & -> & Hf & Hbefore).
        destruct i as [|i]; [injection Hi as ->; congruence|].
        exists i, ext. split_and!; try done.
        intros j ext' Hj Hl. apply (Hbefore (S j)); [lia | done].
Qed.

Lemma append_nonempty (a b : string) : b ≠ "" → a +:+ b ≠ "".
Proof. destruct a; [done | discriminate]. Qed.

Lemma first_file_truthy fs file_path p :
  first_file fs file_path extensions = Some p → truthy (Some p) = true.
Proof.
  intros (i & ext & Hi & -> & _)%first_file_Some. simpl.
  rewrite bool_decide_false; [done|].
  apply append_nonempty.
  apply list_elem_of_lookup_2, list_elem_of_In in Hi.
  simpl in Hi. intuition (subst; discriminate).
Qed.

Lemma logging_info_run m σ :
  logging_info m σ = (Ok tt, logged σ [{| level := INFO; msg := m |}]).
Proof. done. Qed.

Lemma logging_error_run m σ :
  logging_error m σ = (Ok tt, logged σ [{| level := ERROR; msg := m |}]).
Proof. done. Qed.

Lemma mret_run {A} (a : A) σ : (mret a : M A) σ = (Ok a, σ).
Proof. done. Qed.

Lemma logged_logged σ rs rs' : logged (logged σ rs) rs' = logged σ (rs ++ rs').
Proof. unfold logged. simpl. by rewrite <- app_assoc. Qed.

(* ===================================================================== *)
(** * 17. Band counts, conversion and crop                                *)
(* ===================================================================== *)

Lemma at2_fmap {A B} (f : A → B) (grid : list (list A)) x y :
  at2 (map (map f) grid) x y = f <$> at2 grid x y.
Proof.
  unfold at2. rewrite list_lookup_fmap.
  destruct (grid !! y) as [row|]; [|done]. simpl. apply list_lookup_fmap.
Qed.

Lemma at2_imap {A B} (f : nat → nat → A → B) (grid : list (list A)) x y :
  at2 (imap (λ y row, imap (λ x p, f x y p) row) grid) x y = f x y <$> at2 grid x y.
Proof.
  unfold at2. rewrite list_lookup_imap.
  destruct (grid !! y) as [row|]; [|done]. simpl. by rewrite list_lookup_imap.
Qed.

Lemma at2_zip_with {A B C} (f : A → B → C) (g1 : list (list A)) (g2 : list (list B)) x y :
  at2 (zip_with (zip_with f) g1 g2) x y =
    a ← at2 g1 x y; b ← at2 g2 x y; Some (f a b).
Proof.
  unfold at2. rewrite lookup_zip_with.
  destruct (g1 !! y) as [r1|]; [|done]. simpl.
  destruct (g2 !! y) as [r2|]; simpl.
  - apply lookup_zip_with.
  - by destruct (r1 !! x).
Qed.

Lemma at2_replicate {A} (w h : nat) (v : A) x y :
  (x < w)%nat → (y < h)%nat → at2 (replicate h (replicate w v)) x y = Some v.
Proof.
  intros Hx Hy. unfold at2. rewrite lookup_replicate_2 by done. simpl.
  by apply lookup_replicate_2.
Qed.

Lemma at2_tabulate {A} (f : nat → nat → A) (w h : nat) x y :
  (x < w)%nat → (y < h)%nat →
  at2 ((λ i, (λ j, f i j) <$> seq 0 w) <$> seq 0 h) x y = Some (f y x).
Proof.
  intros Hx Hy. unfold at2. rewrite list_lookup_fmap, lookup_seq_lt by done.
  simpl. by rewrite list_lookup_fmap, lookup_seq_lt.
Qed.

Lemma at2_paste d s left top x y :
  at2 (paste_data d s left top) x y =
    p ← at2 (im_data d) x y;
    Some (match getpixel s (Z.of_nat x - left) (Z.of_nat y - top) with
          | Some q => q
          | None => p
          end).
Proof. unfold paste_data. rewrite at2_imap. by destruct (at2 _ _ _). Qed.

Lemma wf_bands_getpixel im x y p :
  wf_bands im → getpixel im x y = Some p → length p = bands (im_mode im).
Proof. unfold getpixel. case_bool_decide; [eauto | done]. Qed.

Lemma wf_bands_pasted d s left top :
  im_mode s = im_mode d → wf_bands d → wf_bands s → wf_bands (pasted d s left top).
Proof.
  intros Hmode Hd Hs x y p. simpl. rewrite at2_paste.
  destruct (at2 (im_data d) x y) as [p0|] eqn:E; [|done]. simpl.
  intros [= <-].
  destruct (getpixel s _ _) as [q|] eqn:Eq.
  - rewrite <- Hmode. by eapply wf_bands_getpixel.
  - by eapply Hd.
Qed.

Lemma at2_replicate_inv {A} (w h : nat) (v p : A) x y :
  at2 (replicate h (replicate w v)) x y = Some p → p = v.
Proof.
  unfold at2. destruct (replicate h _ !! y) as [row|] eqn:E; [|done].
  apply lookup_replicate in E as [-> _]. simpl.
  by intros [-> _]%lookup_replicate.
Qed.

Lemma wf_crop_core src x0 y0 x1 y1 : wf_image (crop_core src x0 y0 x1 y1).
Proof. unfold crop_core. apply wf_paste, wf_blank; lia. Qed.

Lemma wf_bands_crop_core src x0 y0 x1 y1 :
  wf_bands src → wf_bands (crop_core src x0 y0 x1 y1).
Proof.
  intros Hs. unfold crop_core. apply wf_bands_pasted; [done | | done].
  intros x y p Hp. simpl in Hp. apply at2_replicate_inv in Hp as ->.
  simpl. by rewrite length_replicate.
Qed.

Lemma wf_converted src m :
  wf_image src → wf_image (converted src m).
Proof.
  intros (Hw & Hh & Hlen & Hrows). repeat split; simpl; try done.
  - by rewrite length_map.
  - apply Forall_fmap. eapply Forall_impl; [exact Hrows|].
    intros row Hrow. simpl. by rewrite length_map.
Qed.

Lemma wf_bands_converted_RGBA src :
  wf_bands src → wf_bands (converted src RGBA).
Proof.
  intros Hs x y p. simpl. rewrite at2_fmap.
  destruct (at2 (im_data src) x y) as [q|] eqn:E; [|done].
  intros [= <-]. apply Hs in E.
  destruct (im_mode src); simpl in *;
    repeat (destruct q as [|? q]; try discriminate); done.
Qed.

Lemma wf_bands_margin_image img top right bottom left ink :
  length ink = bands (im_mode img) → wf_bands img →
  wf_bands (margin_image img top right bottom left ink).
Proof.
  intros Hink Himg. unfold margin_image. apply wf_bands_pasted; [done | | done].
  intros x y p Hp. simpl in Hp. by apply at2_replicate_inv in Hp as ->.
Qed.

(* ===================================================================== *)
(** * 18. Runs of the Pillow calls                                        *)
(* ===================================================================== *)

Lemma Image_open_inv path σ l σ' :
  Image_open path σ = (Ok l, σ') →
  ∃ im, files σ !! path = Some (File (ImageData im)) ∧
        l = length (images σ) ∧ σ' = push σ [im].
Proof.
  unfold Image_open. unfold mbind, M_bind, get_world. simpl.
  destruct (files σ !! path) as [[|[im|]]|]; try discriminate.
  unfold alloc. intros [= <- <-]. by exists im.
Qed.

Lemma Image_convert_run l m σ src :
  images σ !! l = Some src →
  Image_convert l m σ = (Ok (length (images σ)), push σ [converted src m]).
Proof.
  intros Hl. unfold Image_convert.
  erewrite run_bind_ok by (by apply deref_ok). done.
Qed.

Lemma Image_size_run l σ im :
  images σ !! l = Some im → Image_size l σ = (Ok (size im), σ).
Proof.
  intros Hl. unfold Image_size.
  erewrite run_bind_ok by (by apply deref_ok). done.
Qed.

Lemma lookup_push_old σ ims l im :
  images σ !! l = Some im → images (push σ ims) !! l = Some im.
Proof. intros H. simpl. rewrite lookup_app_l; [done | by eapply lookup_lt_Some]. Qed.

Lemma lookup_push_new σ im ims :
  images (push σ (im :: ims)) !! length (images σ) = Some im.
Proof. simpl. rewrite lookup_app_r by done. by rewrite Nat.sub_diag. Qed.

Lemma push_push σ a b : push (push σ a) b = push σ (a ++ b).
Proof. unfold push. simpl. by rewrite <- app_assoc. Qed.

(** What a successful [im.crop(box)] did. *)
Lemma Image_crop_inv im b0 b1 b2 b3 σ l σ' :
  Image_crop im (b0, b1, b2, b3) σ = (Ok l, σ') →
  ∃ src x0 y0 x1 y1,
    images σ !! im = Some src ∧
    py_round b0 = Ok x0 ∧ py_round b1 = Ok y0 ∧
    py_round b2 = Ok x1 ∧ py_round b3 = Ok y1 ∧
    l = length (images σ) ∧ σ' = push σ [crop_core src x0 y0 x1 y1].
Proof.
  unfold Image_crop.
  destruct (pynum_ltb b2 b0); [discriminate|].
  destruct (pynum_ltb b3 b1); [discriminate|].
  intros H.
  apply run_bind_inv in H as (src & σ1 & [Hsrc ->]%deref_inv & H).
  apply run_bind_inv in H as (x0 & σ1 & [Hx0 ->]%lift_inv & H).
  apply run_bind_inv in H as (y0 & σ1 & [Hy0 ->]%lift_inv & H).
  apply run_bind_inv in H as (x1 & σ1 & [Hx1 ->]%lift_inv & H).
  apply run_bind_inv in H as (y1 & σ1 & [Hy1 ->]%lift_inv & H).
  unfold alloc in H. injection H as <- <-.
  by exists src, x0, y0, x1, y1.
Qed.

(* ===================================================================== *)
(** * 19. The hexagon over the real numbers                               *)
(* ===================================================================== *)

Lemma theta_R (i : nat) : theta (IZR (Z.of_nat i)) = angle i.
Proof. unfold theta, angle. cbn. rewrite INR_IZR_INZ. field. Qed.

Lemma vertex_R (r : R) (pw ph : Z) (i : nat) :
  vertex r pw ph (Z.of_nat i) = Ok (ideal_vertex r pw ph i).
Proof.
  unfold vertex. cbn [ar_of_int Arith_R mbind Res_bind mret Res_ret].
  rewrite theta_R. unfold ideal_vertex, centre. cbn.
  do 2 f_equal; field.
Qed.

(** On the reals the loop yields the six ideal vertices. *)
Lemma hexagon_R (r : R) (pw ph : Z) :
  hexagon r pw ph = Ok (ideal_vertex r pw ph <$> seq 0 6).
Proof.
  unfold hexagon.
  change (range 6) with (Z.of_nat <$> [0; 1; 2; 3; 4; 5]%nat).
  cbn [fmap list_fmap foldl]. rewrite !vertex_R. reflexivity.
Qed.

Lemma ideal_vertex_distance r pw ph i :
  sqrt (((ideal_vertex r pw ph i).1 - (centre pw ph).1)² +
        ((ideal_vertex r pw ph i).2 - (centre pw ph).2)²) = Rabs r.
Proof.
  unfold ideal_vertex, centre. cbn.
  rewrite <- sqrt_Rsqr_abs. f_equal. unfold Rsqr.
  pose proof (sin2_cos2 (angle i)) as H. unfold Rsqr in H. nra.
Qed.

Lemma angle_S i : angle (S i) = (angle i + PI / 3)%R.
Proof. unfold angle. rewrite S_INR. field. Qed.

Lemma ideal_vertex_wrap r pw ph : ideal_vertex r pw ph 6 = ideal_vertex r pw ph 0.
Proof.
  unfold ideal_vertex.
  replace (angle 6) with (2 * PI)%R by (unfold angle; simpl; field).
  replace (angle 0) with 0%R by (unfold angle; simpl; field).
  by rewrite cos_2PI, sin_2PI, cos_0, sin_0.
Qed.

(** The next vertex is the current one turned by 60 degrees about the
    centre. *)
Lemma ideal_vertex_rotation r pw ph i :
  ((ideal_vertex r pw ph (S i)).1 - (centre pw ph).1 =
     cos (PI / 3) * ((ideal_vertex r pw ph i).1 - (centre pw ph).1)
     - sin (PI / 3) * ((ideal_vertex r pw ph i).2 - (centre pw ph).2) ∧
   (ideal_vertex r pw ph (S i)).2 - (centre pw ph).2 =
     sin (PI / 3) * ((ideal_vertex r pw ph i).1 - (centre pw ph).1)
     + cos (PI / 3) * ((ideal_vertex r pw ph i).2 - (centre pw ph).2))%R.
Proof.
  unfold ideal_vertex, centre. cbn. rewrite angle_S, cos_plus, sin_plus.
  split; ring.
Qed.

Lemma ideal_vertex_next r pw ph i :
  (i < 6)%nat →
  (ideal_vertex r pw ph <$> seq 0 6) !! (S i mod 6)%nat
  = Some (ideal_vertex r pw ph (S i)).
Proof.
  intros Hi. destruct (decide (i = 5%nat)) as [-> | Hne].
  - by rewrite ideal_vertex_wrap.
  - rewrite Nat.mod_small by lia.
    rewrite list_lookup_fmap, lookup_seq_lt by lia. done.
Qed.

(* ===================================================================== *)
(** * 19a. Rounding in binary64                                          *)
(* ===================================================================== *)

(** The operations of [SpecFloat] round to nearest: what they return is
    within half a unit in the last place of the exact result, and is the
    exact result when that is a binary64 number. *)

Lemma bpow_pos (e : Z) : (0 < powerRZ 2 e)%R.
Proof. apply powerRZ_lt. lra. Qed.

Lemma bpow_add (a b : Z) : powerRZ 2 (a + b) = (powerRZ 2 a * powerRZ 2 b)%R.
Proof. apply powerRZ_add. lra. Qed.

Lemma bpow_IZR (n : Z) : 0 ≤ n → powerRZ 2 n = IZR (2 ^ n).
Proof.
  intros Hn. rewrite <- (Z2Nat.id n) at 1 by done.
  rewrite <- pow_powerRZ. rewrite <- (Z2Nat.id n) at 2 by done.
  by rewrite pow_IZR.
Qed.

Lemma bpow_le (a b : Z) : a ≤ b → (powerRZ 2 a <= powerRZ 2 b)%R.
Proof.
  intros H. replace b with (a + (b - a)) by lia. rewrite bpow_add.
  pose proof (bpow_pos a).
  assert (1 <= powerRZ 2 (b - a))%R.
  { rewrite bpow_IZR by lia. apply IZR_le.
    pose proof (Z.pow_pos_nonneg 2 (b - a)). lia. }
  nra.
Qed.

Lemma bpow_opp (e : Z) : powerRZ 2 (- e) = (/ powerRZ 2 e)%R.
Proof.
  pose proof (bpow_add e (- e)) as H. rewrite Z.add_opp_diag_r in H.
  simpl in H. pose proof (bpow_pos e). field_simplify_eq; [lra | lra].
Qed.

Lemma bpow_succ (e : Z) : powerRZ 2 (e + 1) = (2 * powerRZ 2 e)%R.
Proof. rewrite bpow_add. simpl. lra. Qed.

Lemma IZR_xO (p : positive) : IZR (Zpos p~0) = (2 * IZR (Zpos p))%R.
Proof. by rewrite Pos2Z.inj_xO, mult_IZR. Qed.

Lemma IZR_xI (p : positive) : IZR (Zpos p~1) = (2 * IZR (Zpos p) + 1)%R.
Proof. by rewrite Pos2Z.inj_xI, plus_IZR, mult_IZR. Qed.

(** One shift to the right halves the number. *)
Lemma located_shr_1 mrs y :
  located mrs y → located (shr_1 mrs) (y / 2).
Proof.
  destruct mrs as [m r s]. unfold located. cbn [shr_m shr_r shr_s].
  intros (Hm & Hy & Hr & Hs).
  destruct m as [|p|p]; [|destruct p as [p|p|]|lia].
  - cbn [shr_1 shr_m shr_r shr_s]. split; [done|].
    destruct r, s; cbn [orb]; lra.
  - cbn [shr_1 shr_m shr_r shr_s]. rewrite IZR_xI in *. split; [lia|].
    destruct r, s; cbn [orb]; lra.
  - cbn [shr_1 shr_m shr_r shr_s]. rewrite IZR_xO in *. split; [lia|].
    destruct r, s; cbn [orb]; lra.
  - cbn [shr_1 shr_m shr_r shr_s]. split; [lia|].
    destruct r, s; cbn [orb]; lra.
Qed.

Lemma shr_1_m mrs : 0 ≤ shr_m mrs → shr_m (shr_1 mrs) = shr_m mrs / 2.
Proof.
  destruct mrs as [m r s]. cbn [shr_m]. intros Hm.
  destruct m as [|p|p]; [done| |lia].
  destruct p as [p|p|]; cbn [shr_1 shr_m].
  - rewrite Pos2Z.inj_xI. apply Z.div_unique with 1; lia.
  - rewrite Pos2Z.inj_xO. apply Z.div_unique with 0; lia.
  - done.
Qed.

Lemma located_iter p : ∀ mrs y,
  located mrs y →
  located (SpecFloat.iter_pos shr_1 p mrs) (y * powerRZ 2 (- Zpos p)) ∧
  shr_m (SpecFloat.iter_pos shr_1 p mrs) = shr_m mrs / 2 ^ Zpos p.
Proof.
  induction p as [p IH|p IH|]; intros mrs y H; cbn [SpecFloat.iter_pos].
  - pose proof (located_shr_1 _ _ H) as H1.
    destruct (IH _ _ H1) as [H2 E2]. destruct (IH _ _ H2) as [H3 E3].
    split.
    + replace (y * powerRZ 2 (- Z.pos p~1))%R
        with (y / 2 * powerRZ 2 (- Z.pos p) * powerRZ 2 (- Z.pos p))%R; [done|].
      replace (- Z.pos p~1) with (- Z.pos p + - Z.pos p + -1) by lia.
      rewrite !bpow_add. simpl. lra.
    + rewrite E3, E2, shr_1_m by apply H.
      pose proof (Z.pow_pos_nonneg 2 (Z.pos p) ltac:(lia) ltac:(lia)).
      rewrite !Z.div_div by lia. f_equal.
      replace (Z.pos p~1) with (1 + Z.pos p + Z.pos p) by lia.
      rewrite !Z.pow_add_r, Z.pow_1_r by lia. lia.
  - destruct (IH _ _ H) as [H2 E2]. destruct (IH _ _ H2) as [H3 E3].
    split.
    + replace (y * powerRZ 2 (- Z.pos p~0))%R
        with (y * powerRZ 2 (- Z.pos p) * powerRZ 2 (- Z.pos p))%R; [done|].
      replace (- Z.pos p~0) with (- Z.pos p + - Z.pos p) by lia.
      rewrite !bpow_add. lra.
    + rewrite E3, E2.
      pose proof (Z.pow_pos_nonneg 2 (Z.pos p) ltac:(lia) ltac:(lia)).
      rewrite !Z.div_div by lia. f_equal.
      replace (Z.pos p~0) with (Z.pos p + Z.pos p) by lia.
      rewrite !Z.pow_add_r by lia. lia.
  - split.
    + replace (y * powerRZ 2 (Z.opp 1))%R with (y / 2)%R by (simpl; lra).
      by apply located_shr_1.
    + rewrite shr_1_m by apply H. done.
Qed.

(** The shift by [n] places. *)
Lemma located_shr mrs e n y :
  located mrs y →
  located (shr mrs e n).1 (y * powerRZ 2 (- Z.max 0 n)) ∧
  shr_m (shr mrs e n).1 = shr_m mrs / 2 ^ Z.max 0 n ∧
  (shr mrs e n).2 = e + Z.max 0 n.
Proof.
  intros H. destruct n as [|p|p]; cbn [shr fst snd].
  - rewrite Z.max_id. simpl. rewrite Rmult_1_r, Z.div_1_r, Z.add_0_r. done.
  - rewrite Z.max_r by lia. destruct (located_iter p _ _ H). done.
  - rewrite Z.max_l by lia. simpl. rewrite Rmult_1_r, Z.div_1_r, Z.add_0_r. done.
Qed.

(** Rounding to nearest, ties to even, moves by at most one half. *)
Lemma located_round mrs y :
  located mrs y →
  let m := round_nearest_even (shr_m mrs) (loc_of_shr_record mrs) in
  shr_m mrs ≤ m ≤ shr_m mrs + 1 ∧ (Rabs (IZR m - y) <= 1 / 2)%R.
Proof.
  destruct mrs as [m r s]. unfold located. cbn [shr_m shr_r shr_s].
  intros (Hm & Hy & Hr & Hs).
  destruct r, s; cbn [loc_of_shr_record round_nearest_even].
  - split; [lia|]. rewrite plus_IZR. apply Rabs_le. lra.
  - destruct (Z.even m); (split; [lia|]); rewrite ?plus_IZR; apply Rabs_le; lra.
  - split; [lia|]. apply Rabs_le. lra.
  - split; [lia|]. apply Rabs_le. lra.
Qed.

(** The number of binary digits. *)
Lemma digits2_pos_spec (p : positive) :
  2 ^ (Zpos (digits2_pos p) - 1) ≤ Zpos p < 2 ^ Zpos (digits2_pos p).
Proof.
  induction p as [p IH|p IH|]; cbn [digits2_pos].
  - rewrite Pos2Z.inj_succ.
    replace (Z.succ (Zpos (digits2_pos p)) - 1) with (Z.succ (Zpos (digits2_pos p) - 1)) by lia.
    rewrite !Z.pow_succ_r by lia. lia.
  - rewrite Pos2Z.inj_succ.
    replace (Z.succ (Zpos (digits2_pos p)) - 1) with (Z.succ (Zpos (digits2_pos p) - 1)) by lia.
    rewrite !Z.pow_succ_r by lia. lia.
  - change (1 ≤ 1 < 2). lia.
Qed.

Lemma Zdigits2_spec (m : Z) :
  0 < m → 2 ^ (Zdigits2 m - 1) ≤ m < 2 ^ Zdigits2 m.
Proof. destruct m; [lia| |lia]. intros _. apply digits2_pos_spec. Qed.

Lemma Zdigits2_nonneg (m : Z) : 0 ≤ Zdigits2 m.
Proof. destruct m; simpl; lia. Qed.

Lemma Zdigits2_pos (m : Z) : 0 < m → 0 < Zdigits2 m.
Proof. destruct m; simpl; lia. Qed.

Lemma Zdigits2_le (m : Z) (d : Z) : 0 ≤ d → 0 ≤ m < 2 ^ d → Zdigits2 m ≤ d.
Proof.
  intros Hd [Hm Hlt]. destruct (decide (m = 0)) as [->|Hne]; [done|].
  pose proof (Zdigits2_spec m ltac:(lia)) as [Hlo _].
  destruct (decide (Zdigits2 m ≤ d)) as [|Hgt]; [done|].
  assert (2 ^ d ≤ 2 ^ (Zdigits2 m - 1)) by (apply Z.pow_le_mono_r; lia). lia.
Qed.

Lemma Zdigits2_ge (m : Z) (d : Z) : 2 ^ (d - 1) ≤ m → 0 < m → d ≤ Zdigits2 m.
Proof.
  intros Hlo Hm. pose proof (Zdigits2_spec m Hm) as [_ Hhi].
  destruct (decide (d ≤ Zdigits2 m)) as [|Hgt]; [done|].
  assert (2 ^ Zdigits2 m ≤ 2 ^ (d - 1)).
  { apply Z.pow_le_mono_r; [lia|]. lia. }
  lia.
Qed.

Lemma Rabs_le_between (x y : R) : (Rabs x <= y)%R → (- y <= x <= y)%R.
Proof. unfold Rabs. destruct (Rcase_abs x); lra. Qed.

Lemma bpow_lt_inv (a b : Z) : (powerRZ 2 a < powerRZ 2 b)%R → a < b.
Proof.
  intros H. destruct (decide (a < b)) as [|Hge]; [done|].
  pose proof (bpow_le b a ltac:(lia)). lra.
Qed.

Lemma fexp_binary64 (e : Z) : fexp 53 1024 e = Z.max (e - 53) (-1074).
Proof. reflexivity. Qed.

Lemma binary_round_aux_unfold s mx ex lx :
  binary_round_aux 53 1024 s mx ex lx =
    let r1 := shr_fexp 53 1024 mx ex lx in
    let r2 := shr_fexp 53 1024
                (round_nearest_even (shr_m r1.1) (loc_of_shr_record r1.1))
                r1.2 loc_Exact in
    match shr_m r2.1 with
    | Z0 => S754_zero s
    | Zpos m => if r2.2 <=? 1024 - 53 then S754_finite s m r2.2 else S754_infinity s
    | Zneg _ => S754_nan
    end.
Proof.
  unfold binary_round_aux.
  destruct (shr_fexp 53 1024 mx ex lx) as [mrs' e'].
  cbn [fst snd].
  destruct (shr_fexp 53 1024 _ e' loc_Exact) as [mrs'' e'']. done.
Qed.

(** The second shift of [binary_round_aux] loses nothing: it moves a
    mantissa that rounding has carried to [2^53], and no other. *)
Lemma shr_fexp_exact (m e : Z) :
  0 ≤ m →
  fexp 53 1024 (Zdigits2 m + e) ≤ e ∨ (m = 2 ^ 53 ∧ -1074 ≤ e) →
  let r := shr_fexp 53 1024 m e loc_Exact in
  0 ≤ shr_m r.1 ∧ e ≤ r.2 ≤ e + 1 ∧
  (IZR (shr_m r.1) * powerRZ 2 r.2 = IZR m * powerRZ 2 e)%R.
Proof.
  intros Hm [Hle|[-> He]]; cbn zeta.
  - unfold shr_fexp, shr.
    destruct (fexp 53 1024 (Zdigits2 m + e) - e) as [|p|p] eqn:E; [|lia|];
      cbn [fst snd shr_record_of_loc shr_m]; (split; [done|split; [lia|done]]).
  - unfold shr_fexp.
    replace (fexp 53 1024 (Zdigits2 (2 ^ 53) + e) - e) with 1.
    2:{ change (Zdigits2 (2 ^ 53)) with 54. rewrite fexp_binary64. lia. }
    cbn [shr fst snd shr_record_of_loc SpecFloat.iter_pos].
    change (shr_m (shr_1 {| shr_m := 2 ^ 53; shr_r := false; shr_s := false |}))
      with 4503599627370496.
    change (2 ^ 53) with 9007199254740992.
    split; [lia|]. split; [lia|]. rewrite bpow_succ. lra.
Qed.

(** [binary_round_aux] on a mantissa, an exponent and a location that
    stand for [x = y * 2^ex]: the result is [m2 * 2^e'] where [m2] is
    [x / 2^e'] rounded to an integer, and [e'] is the exponent that the
    format gives to [x]. *)
Lemma binary_round_aux_core s mx ex lx y :
  located (shr_record_of_loc mx lx) y →
  lx = loc_Exact ∨ ex ≤ fexp 53 1024 (Zdigits2 mx + ex) →
  (y * powerRZ 2 ex < powerRZ 2 900)%R →
  ∃ m2 e',
    0 ≤ m2 ≤ 2 ^ 53 ∧ -1074 ≤ e' ∧ ex ≤ e' ∧
    (Rabs (IZR m2 - y * powerRZ 2 (ex - e')) <= 1 / 2)%R ∧
    (e' = -1074 ∨ (powerRZ 2 (e' + 52) <= y * powerRZ 2 ex)%R ∨
     (IZR m2 = y ∧ e' = ex)) ∧
    is_finite (binary_round_aux 53 1024 s mx ex lx) = true ∧
    float_value (binary_round_aux 53 1024 s mx ex lx)
    = signed s (IZR m2 * powerRZ 2 e').
Proof.
  intros Hloc Hn Hx.
  assert (Hmx : 0 ≤ mx).
  { destruct Hloc as [H _]. by destruct lx as [|[]]. }
  assert (Hmy : (IZR mx <= y)%R).
  { destruct Hloc as (_ & [H _] & _). by destruct lx as [|[]]. }
  assert (Hy0 : (0 <= y)%R) by (apply IZR_le in Hmx; lra).
  assert (Hbig : ∀ a, (powerRZ 2 a <= y * powerRZ 2 ex)%R → a < 900).
  { intros a Ha. apply bpow_lt_inv. eapply Rle_lt_trans; eassumption. }
  clear Hx.
  set (d := Zdigits2 mx) in *.
  set (e1 := fexp 53 1024 (d + ex)) in *.
  assert (He1 : e1 = Z.max (d + ex - 53) (-1074)) by apply fexp_binary64.
  assert (Hd : 0 ≤ d) by apply Zdigits2_nonneg.
  assert (Hd0 : mx = 0 → d = 0) by (by intros ->).
  assert (Hdpos : 0 < mx → 0 < d ∧ 2 ^ (d - 1) ≤ mx < 2 ^ d).
  { intros Hpos. split; [by apply Zdigits2_pos|by apply Zdigits2_spec]. }
  rewrite binary_round_aux_unfold. cbn zeta.
  unfold shr_fexp. fold d. fold e1.
  destruct (located_shr _ ex (e1 - ex) _ Hloc) as (Hloc1 & Hm1 & He').
  set (r1 := shr (shr_record_of_loc mx lx) ex (e1 - ex)) in *.
  assert (Hm1' : shr_m r1.1 = mx / 2 ^ Z.max 0 (e1 - ex)).
  { rewrite Hm1. by destruct lx as [|[]]. }
  clear Hm1.
  destruct (located_round _ _ Hloc1) as [Hm2 Herr]. cbn zeta in Hm2, Herr.
  set (m2 := round_nearest_even (shr_m r1.1) (loc_of_shr_record r1.1)) in *.
  set (e' := r1.2) in *.
  assert (Hm1nn : 0 ≤ shr_m r1.1) by apply Hloc1.
  clearbody m2 e' r1 e1 d.
  replace (- Z.max 0 (e1 - ex)) with (ex - e') in Herr by lia.
  (* the case of an exact mantissa that needs no shift *)
  assert (Hexact : e1 ≤ ex → lx = loc_Exact → m2 = mx ∧ y = IZR mx).
  { intros Hle ->. rewrite Z.max_l in Hm1' by lia.
    replace (ex - e') with 0 in Herr by lia.
    rewrite Z.pow_0_r, Z.div_1_r in Hm1'.
    destruct Hloc as (_ & Hy & Hr & Hs). cbn in Hy, Hr, Hs.
    assert (y = IZR mx) as Hyv by lra. split; [|done].
    change (powerRZ 2 0) with 1%R in Herr. rewrite Rmult_1_r, Hyv in Herr.
    apply Rabs_le_between in Herr.
    destruct (decide (m2 = mx)) as [|Hne]; [done|].
    assert (m2 = mx + 1) as -> by lia. rewrite plus_IZR in Herr. lra. }
  assert (Hcase : (e1 ≤ ex ∧ lx = loc_Exact) ∨ ex ≤ e1).
  { destruct Hn as [->|]; [|by right].
    destruct (decide (e1 ≤ ex)); [by left|right; lia]. }
  (* the rounded mantissa has at most 53 digits, or is [2^53] *)
  assert (Hm253 : m2 ≤ 2 ^ 53).
  { destruct Hcase as [[Hle Hex]|Hge].
    - destruct (Hexact Hle Hex) as [-> _].
      destruct (decide (mx = 0)) as [->|Hnz]; [done|].
      destruct (Hdpos ltac:(lia)) as [_ [_ Hhi]].
      assert (2 ^ d ≤ 2 ^ 53) by (apply Z.pow_le_mono_r; lia). lia.
    - assert (shr_m r1.1 < 2 ^ 53); [|lia].
      rewrite Hm1'. rewrite Z.max_r by lia.
      destruct (decide (mx = 0)) as [->|Hne].
      + rewrite Z.div_0_l; [done|]. apply Z.pow_nonzero; lia.
      + apply Z.div_lt_upper_bound; [apply Z.pow_pos_nonneg; lia|].
        rewrite <- Z.pow_add_r by lia.
        destruct (Hdpos ltac:(lia)) as [_ [_ Hhi]].
        eapply Z.lt_le_trans; [exact Hhi|].
        apply Z.pow_le_mono_r; lia. }
  assert (Hfit : fexp 53 1024 (Zdigits2 m2 + e') ≤ e' ∨ (m2 = 2 ^ 53 ∧ -1074 ≤ e')).
  { destruct (decide (m2 = 2 ^ 53)) as [->|Hne2]; [right; lia|left].
    rewrite fexp_binary64.
    pose proof (Zdigits2_le m2 53 ltac:(lia) ltac:(lia)). lia. }
  destruct (shr_fexp_exact m2 e' ltac:(lia) Hfit) as (Hm3 & He'' & Hval).
  cbn zeta in Hm3, He'', Hval.
  unfold shr_fexp in Hm3, He'', Hval.
  set (r2 := shr (shr_record_of_loc m2 loc_Exact) e' (fexp 53 1024 (Zdigits2 m2 + e') - e')) in *.
  clearbody r2.
  (* the exponent of the result *)
  assert (Hexp : e' = -1074 ∨ (powerRZ 2 (e' + 52) <= y * powerRZ 2 ex)%R ∨
                 (IZR m2 = y ∧ e' = ex)).
  { destruct Hcase as [[Hle Hex]|Hge].
    - destruct (Hexact Hle Hex) as [-> ->]. right; right. split; [done|lia].
    - destruct (decide (d + ex - 53 ≤ -1074)) as [Hsub|Hnorm]; [left; lia|].
      right; left.
      assert (0 < mx) as Hpos.
      { destruct (decide (mx = 0)) as [E|]; [|lia].
        specialize (Hd0 E). lia. }
      destruct (Hdpos Hpos) as [? [Hlo _]].
      apply IZR_le in Hlo. rewrite <- bpow_IZR in Hlo by lia.
      replace (e' + 52) with ((d - 1) + ex) by lia.
      rewrite bpow_add. pose proof (bpow_pos ex). nra. }
  (* the result *)
  assert (Hfin : shr_m r2.1 = 0 ∨ r2.2 ≤ 971).
  { destruct (decide (mx = 0)) as [Hz|Hnz].
    - destruct (decide (shr_m r2.1 = 0)) as [|Hne]; [by left|right].
      destruct Hn as [->|Hge].
      + exfalso. destruct Hloc as (_ & Hyy & Hr & Hs). cbn in Hyy, Hr, Hs.
        assert (y = 0%R) as Hyz by (subst mx; lra).
        rewrite Hyz, Rmult_0_l in Herr. apply Rabs_le_between in Herr.
        assert (shr_m r1.1 = 0) as Hz1.
        { rewrite Hm1', Hz. apply Z.div_0_l. apply Z.pow_nonzero; lia. }
        assert (m2 = 0) as Hm20.
        { destruct (decide (m2 = 0)) as [|Hne2]; [done|].
          assert (m2 = 1) as E by lia. rewrite E in Herr. lra. }
        rewrite Hm20, Rmult_0_l in Hval.
        pose proof (bpow_pos r2.2) as Hr2.
        assert (IZR (shr_m r2.1) = 0%R) as Hz3 by nra.
        apply eq_IZR in Hz3. done.
      + specialize (Hd0 Hz). lia.
    - right.
      destruct (Hdpos ltac:(lia)) as [? [Hlo _]].
      apply IZR_le in Hlo. rewrite <- bpow_IZR in Hlo by lia.
      pose proof (bpow_pos ex).
      assert (powerRZ 2 (d - 1 + ex) <= y * powerRZ 2 ex)%R as Hb.
      { rewrite bpow_add. nra. }
      apply Hbig in Hb. lia. }
  exists m2, e'.
  split; [lia|]. split; [lia|]. split; [lia|]. split; [exact Herr|].
  split; [exact Hexp|].
  destruct (shr_m r2.1) as [|m3|m3] eqn:Em3; [| |lia].
  - split; [reflexivity|]. cbn [float_value].
    rewrite Rmult_0_l in Hval. rewrite <- Hval. by destruct s; cbn [signed]; ring.
  - destruct Hfin as [|Hfin]; [discriminate|].
    replace (r2.2 <=? 1024 - 53) with true by (symmetry; apply Z.leb_le; lia).
    split; [reflexivity|]. cbn [float_value].
    rewrite <- Hval. destruct s; cbn [signed cond_Zopp]; rewrite ?opp_IZR; ring.
Qed.

Lemma Rabs_signed s a : Rabs (signed s a) = Rabs a.
Proof. destruct s; cbn [signed]; [apply Rabs_Ropp|done]. Qed.

Lemma bpow_half (e : Z) : powerRZ 2 (e - 1) = (1 / 2 * powerRZ 2 e)%R.
Proof.
  replace (powerRZ 2 e) with (powerRZ 2 ((e - 1) + 1)) by (f_equal; lia).
  rewrite bpow_succ. lra.
Qed.

(** The result is within half a unit in the last place of [x], and finite
    when [x] is below [2^900]. *)
Lemma binary_round_aux_error s mx ex lx y :
  located (shr_record_of_loc mx lx) y →
  lx = loc_Exact ∨ ex ≤ fexp 53 1024 (Zdigits2 mx + ex) →
  (y * powerRZ 2 ex < powerRZ 2 900)%R →
  is_finite (binary_round_aux 53 1024 s mx ex lx) = true ∧
  (Rabs (float_value (binary_round_aux 53 1024 s mx ex lx)
         - signed s (y * powerRZ 2 ex))
   <= y * powerRZ 2 ex * powerRZ 2 (-53) + powerRZ 2 (-1075))%R.
Proof.
  intros Hloc Hn Hx.
  assert (Hx0 : (0 <= y * powerRZ 2 ex)%R).
  { destruct Hloc as (Hm & [Hy _] & _). pose proof (bpow_pos ex).
    assert (0 <= IZR (shr_m (shr_record_of_loc mx lx)))%R by (apply IZR_le; lia).
    nra. }
  destruct (binary_round_aux_core s mx ex lx y Hloc Hn Hx)
    as (m2 & e' & Hm2 & He' & Hle & Herr & Hexp & Hfin & Hval).
  split; [exact Hfin|]. rewrite Hval. clear Hval Hfin Hx.
  set (x := (y * powerRZ 2 ex)%R) in *.
  replace (signed s (IZR m2 * powerRZ 2 e') - signed s x)%R
    with (signed s (IZR m2 * powerRZ 2 e' - x)) by (destruct s; cbn [signed]; ring).
  rewrite Rabs_signed.
  assert (Hhalf : (Rabs (IZR m2 * powerRZ 2 e' - x) <= powerRZ 2 (e' - 1))%R).
  { replace (IZR m2 * powerRZ 2 e' - x)%R
      with ((IZR m2 - y * powerRZ 2 (ex - e')) * powerRZ 2 e')%R.
    2:{ unfold x. replace (powerRZ 2 ex) with (powerRZ 2 ((ex - e') + e'))
          by (f_equal; lia).
        rewrite bpow_add. ring. }
    rewrite Rabs_mult, (Rabs_pos_eq (powerRZ 2 e')) by (apply Rlt_le, bpow_pos).
    rewrite bpow_half. pose proof (bpow_pos e').
    apply Rmult_le_compat_r; [lra|exact Herr]. }
  set (u := powerRZ 2 (-53)). set (η := powerRZ 2 (-1075)).
  assert (Hu : (0 < u)%R) by apply bpow_pos.
  assert (Hη : (0 < η)%R) by apply bpow_pos.
  destruct Hexp as [->|[Hbig|[Hy ->]]].
  - change (-1074 - 1) with (-1075) in Hhalf. fold η in Hhalf.
    clearbody u η x. nra.
  - replace (e' - 1) with ((e' + 52) + -53) in Hhalf by lia.
    rewrite bpow_add in Hhalf. fold u in Hhalf.
    clearbody u η x. pose proof (bpow_pos (e' + 52)). nra.
  - replace (IZR m2 * powerRZ 2 ex - x)%R with 0%R by (unfold x; rewrite Hy; ring).
    rewrite Rabs_R0. clearbody u η x. nra.
Qed.

(** A binary64 number is rounded to itself. *)
Lemma binary_round_aux_exact s mx ex lx y :
  located (shr_record_of_loc mx lx) y →
  lx = loc_Exact ∨ ex ≤ fexp 53 1024 (Zdigits2 mx + ex) →
  (y * powerRZ 2 ex < powerRZ 2 900)%R →
  representable (y * powerRZ 2 ex) →
  float_value (binary_round_aux 53 1024 s mx ex lx) = signed s (y * powerRZ 2 ex).
Proof.
  intros Hloc Hn Hx (M & E & HME & HM & HE).
  destruct (binary_round_aux_core s mx ex lx y Hloc Hn Hx)
    as (m2 & e' & Hm2 & He' & Hle & Herr & Hexp & Hfin & Hval).
  rewrite Hval. f_equal. clear Hval Hfin Hx.
  assert (Hcase : e' ≤ E ∨ (IZR m2 = y ∧ e' = ex)).
  { destruct Hexp as [->|[Hbig|Hex]]; [left; lia| |by right]. left.
    rewrite HME in Hbig.
    assert (powerRZ 2 (e' + 52) < powerRZ 2 (53 + E))%R as Hlt.
    { eapply Rle_lt_trans; [exact Hbig|].
      rewrite (bpow_add 53 E), (bpow_IZR 53) by lia.
      pose proof (bpow_pos E). apply Rmult_lt_compat_r; [done|].
      apply IZR_lt. lia. }
    apply bpow_lt_inv in Hlt. lia. }
  destruct Hcase as [HeE|[Hy ->]]; [|by rewrite Hy].
  assert (Hint : (y * powerRZ 2 (ex - e') = IZR (M * 2 ^ (E - e')))%R).
  { rewrite mult_IZR, <- bpow_IZR by lia.
    replace (powerRZ 2 (E - e')) with (powerRZ 2 E * powerRZ 2 (- e'))%R
      by (rewrite <- bpow_add; f_equal; lia).
    rewrite <- Rmult_assoc, <- HME.
    replace (powerRZ 2 (ex - e')) with (powerRZ 2 ex * powerRZ 2 (- e'))%R
      by (rewrite <- bpow_add; f_equal; lia).
    ring. }
  rewrite Hint in Herr. rewrite <- minus_IZR in Herr.
  apply Rabs_le_between in Herr.
  assert (m2 = M * 2 ^ (E - e')) as ->.
  { destruct (decide (m2 = M * 2 ^ (E - e'))) as [|Hne]; [done|]. exfalso.
    destruct (decide (m2 < M * 2 ^ (E - e'))) as [Hlt|Hge].
    - assert (m2 - M * 2 ^ (E - e') ≤ -1) as H1 by lia.
      apply IZR_le in H1. lra.
    - assert (1 ≤ m2 - M * 2 ^ (E - e')) as H1 by lia.
      apply IZR_le in H1. lra. }
  rewrite <- Hint.
  replace (powerRZ 2 ex) with (powerRZ 2 ((ex - e') + e')) by (f_equal; lia).
  rewrite bpow_add. ring.
Qed.

(** What [binary_round_aux] returns is a binary64 number. *)
Lemma binary_round_aux_representable s mx ex lx y :
  located (shr_record_of_loc mx lx) y →
  lx = loc_Exact ∨ ex ≤ fexp 53 1024 (Zdigits2 mx + ex) →
  (y * powerRZ 2 ex < powerRZ 2 900)%R →
  representable (Rabs (float_value (binary_round_aux 53 1024 s mx ex lx))).
Proof.
  intros Hloc Hn Hx.
  destruct (binary_round_aux_core s mx ex lx y Hloc Hn Hx)
    as (m2 & e' & Hm2 & He' & Hle & Herr & Hexp & Hfin & Hval).
  rewrite Hval, Rabs_signed.
  assert (0 <= IZR m2)%R by (apply IZR_le; lia).
  pose proof (bpow_pos e').
  rewrite Rabs_pos_eq by nra.
  destruct (decide (m2 = 2 ^ 53)) as [->|Hne].
  - exists (2 ^ 52), (e' + 1). split; [|lia].
    rewrite bpow_succ. change (2 ^ 53) with (2 * 2 ^ 52). rewrite mult_IZR. ring.
  - exists m2, e'. split; [done|lia].
Qed.

Lemma located_exact (m : Z) :
  0 ≤ m → located (shr_record_of_loc m loc_Exact) (IZR m).
Proof. intros Hm. unfold located. cbn. split; [done|]. split; [lra|]. split; [lra|by left]. Qed.

Lemma float_value_finite s m e :
  float_value (S754_finite s m e) = signed s (IZR (Zpos m) * powerRZ 2 e).
Proof. destruct s; cbn [float_value signed cond_Zopp]; [|done]. rewrite opp_IZR. ring. Qed.

Lemma signed_xorb s1 s2 a b :
  signed (xorb s1 s2) (a * b) = (signed s1 a * signed s2 b)%R.
Proof. destruct s1, s2; cbn [signed xorb]; ring. Qed.

Lemma error_bound_nonneg (a : R) :
  (0 <= Rabs a * powerRZ 2 (-53) + powerRZ 2 (-1075))%R.
Proof.
  pose proof (Rabs_pos a). pose proof (bpow_pos (-53)). pose proof (bpow_pos (-1075)).
  nra.
Qed.

(** The product: correctly rounded. *)
Lemma fmul_error (x y : float) :
  is_finite x = true → is_finite y = true →
  (Rabs (float_value x * float_value y) < powerRZ 2 900)%R →
  is_finite (fmul x y) = true ∧
  (Rabs (float_value (fmul x y) - float_value x * float_value y)
   <= Rabs (float_value x * float_value y) * powerRZ 2 (-53) + powerRZ 2 (-1075))%R.
Proof.
  intros Hx Hy Hb.
  destruct x as [sx|sx| |sx mx ex]; try discriminate;
    destruct y as [sy|sy| |sy my ey]; try discriminate.
  1-3: split; [reflexivity|]; cbn [fmul SFmul float_value];
       rewrite ?Rmult_0_l, ?Rmult_0_r, Rminus_diag, Rabs_R0;
       pose proof (bpow_pos (-1075)); lra.
  unfold fmul. cbn [SFmul]. rewrite !float_value_finite in *.
  rewrite <- signed_xorb in *. rewrite Rabs_signed in *.
  set (p := (IZR (Z.pos mx) * powerRZ 2 ex * (IZR (Z.pos my) * powerRZ 2 ey))%R) in *.
  assert (Hp : p = (IZR (Z.pos (mx * my)) * powerRZ 2 (ex + ey))%R).
  { unfold p. rewrite Pos2Z.inj_mul, mult_IZR, bpow_add. ring. }
  assert (Hp0 : (0 <= p)%R).
  { rewrite Hp. pose proof (bpow_pos (ex + ey)).
    assert (0 < IZR (Z.pos (mx * my)))%R by (apply IZR_lt; lia). nra. }
  rewrite (Rabs_pos_eq p) in * by done.
  rewrite Hp in *.
  apply binary_round_aux_error; [apply located_exact; lia|by left|done].
Qed.

Lemma pos_iter_xO (m d : positive) :
  Zpos (Pos.iter xO m d) = Zpos m * 2 ^ Zpos d.
Proof.
  induction d as [|d IH] using Pos.peano_ind.
  - cbn [Pos.iter]. lia.
  - rewrite Pos.iter_succ, Pos2Z.inj_succ, Z.pow_succ_r by lia. lia.
Qed.

Lemma shl_align_value (mx : positive) (ex e : Z) :
  (IZR (Zpos (shl_align mx ex e).1) * powerRZ 2 (shl_align mx ex e).2
   = IZR (Zpos mx) * powerRZ 2 ex)%R.
Proof.
  unfold shl_align. destruct (e - ex) as [|d|d] eqn:E; cbn [fst snd]; [done|done|].
  rewrite pos_iter_xO, mult_IZR, <- bpow_IZR by lia.
  replace (powerRZ 2 ex) with (powerRZ 2 (Zpos d + e)) by (f_equal; lia).
  rewrite bpow_add. ring.
Qed.

Lemma shl_align_exponent (mx : positive) (ex e : Z) :
  e ≤ ex → (shl_align mx ex e).2 = e.
Proof.
  intros H. unfold shl_align. destruct (e - ex) as [|d|d] eqn:E; cbn [fst snd]; lia.
Qed.

(** [binary_normalize] on an integer [z] and an exponent [e]: the float
    nearest to [z * 2^e]. *)
Lemma binary_normalize_error (z e : Z) (s : bool) :
  (Rabs (IZR z * powerRZ 2 e) < powerRZ 2 900)%R →
  is_finite (binary_normalize 53 1024 z e s) = true ∧
  (Rabs (float_value (binary_normalize 53 1024 z e s) - IZR z * powerRZ 2 e)
   <= Rabs (IZR z * powerRZ 2 e) * powerRZ 2 (-53) + powerRZ 2 (-1075))%R.
Proof.
  intros Hb.
  assert (Hround : ∀ sx m,
    (IZR (Zpos m) * powerRZ 2 e < powerRZ 2 900)%R →
    is_finite (binary_round 53 1024 sx m e) = true ∧
    (Rabs (float_value (binary_round 53 1024 sx m e)
           - signed sx (IZR (Zpos m) * powerRZ 2 e))
     <= IZR (Zpos m) * powerRZ 2 e * powerRZ 2 (-53) + powerRZ 2 (-1075))%R).
  { intros sx m Hm. unfold binary_round.
    pose proof (shl_align_value m e (fexp 53 1024 (Z.pos (digits2_pos m) + e))) as Hv.
    destruct (shl_align m e (fexp 53 1024 (Z.pos (digits2_pos m) + e))) as [mz ez].
    cbn [fst snd] in Hv. rewrite <- Hv in *.
    apply binary_round_aux_error; [apply located_exact; lia|by left|done]. }
  pose proof (bpow_pos e).
  destruct z as [|m|m]; cbn [binary_normalize].
  - split; [reflexivity|]. cbn [float_value].
    rewrite Rmult_0_l, Rminus_diag, Rabs_R0. pose proof (bpow_pos (-1075)). lra.
  - assert (0 < IZR (Zpos m))%R by (apply IZR_lt; lia).
    rewrite (Rabs_pos_eq (IZR (Zpos m) * powerRZ 2 e)) in * by nra.
    apply (Hround false m Hb).
  - assert (0 < IZR (Zpos m))%R by (apply IZR_lt; lia).
    assert (IZR (Zneg m) = (- IZR (Zpos m))%R) as E.
    { rewrite <- opp_IZR. done. }
    rewrite E in *.
    replace (- IZR (Zpos m) * powerRZ 2 e)%R
      with (- (IZR (Zpos m) * powerRZ 2 e))%R in * by ring.
    rewrite Rabs_Ropp in *.
    rewrite (Rabs_pos_eq (IZR (Zpos m) * powerRZ 2 e)) in * by nra.
    apply (Hround true m Hb).
Qed.

(** The conversion of an [int]. *)
Lemma Z2F_error (z : Z) :
  (Rabs (IZR z) < powerRZ 2 900)%R →
  is_finite (Z2F z) = true ∧
  (Rabs (float_value (Z2F z) - IZR z) <= Rabs (IZR z) * powerRZ 2 (-53) + powerRZ 2 (-1075))%R.
Proof.
  intros Hb. pose proof (binary_normalize_error z 0 false) as H.
  change (powerRZ 2 0) with 1%R in H. rewrite !Rmult_1_r in H. exact (H Hb).
Qed.

(** The sum: correctly rounded. *)
Lemma fadd_error (x y : float) :
  is_finite x = true → is_finite y = true →
  (Rabs (float_value x + float_value y) < powerRZ 2 900)%R →
  is_finite (fadd x y) = true ∧
  (Rabs (float_value (fadd x y) - (float_value x + float_value y))
   <= Rabs (float_value x + float_value y) * powerRZ 2 (-53) + powerRZ 2 (-1075))%R.
Proof.
  intros Hx Hy Hb.
  destruct x as [sx|sx| |sx mx ex]; try discriminate;
    destruct y as [sy|sy| |sy my ey]; try discriminate.
  - split; [by destruct sx, sy|].
    replace (float_value (fadd (S754_zero sx) (S754_zero sy))) with 0%R
      by (by destruct sx, sy).
    cbn [float_value]. rewrite Rplus_0_r, Rminus_diag, Rabs_R0.
    pose proof (bpow_pos (-1075)). lra.
  - split; [reflexivity|]. cbn [fadd SFadd]. cbn [float_value].
    rewrite Rplus_0_l, Rminus_diag. rewrite Rabs_R0. apply error_bound_nonneg.
  - split; [reflexivity|]. cbn [fadd SFadd]. cbn [float_value].
    rewrite Rplus_0_r, Rminus_diag. rewrite Rabs_R0. apply error_bound_nonneg.
  - unfold fadd. cbn [SFadd]. cbn zeta.
    set (ez := Z.min ex ey) in *.
    pose proof (shl_align_value mx ex ez) as Hvx.
    pose proof (shl_align_value my ey ez) as Hvy.
    rewrite shl_align_exponent in Hvx, Hvy by lia.
    set (z := cond_Zopp sx (Z.pos (shl_align mx ex ez).1)
              + cond_Zopp sy (Z.pos (shl_align my ey ez).1)).
    assert (Hz : (IZR z * powerRZ 2 ez
                  = float_value (S754_finite sx mx ex) + float_value (S754_finite sy my ey))%R).
    { unfold z. rewrite plus_IZR, !float_value_finite, <- Hvx, <- Hvy.
      destruct sx, sy; cbn [cond_Zopp signed]; rewrite ?opp_IZR; ring. }
    rewrite <- Hz in *. by apply binary_normalize_error.
Qed.

(** The location that the division computes from the remainder. *)
Lemma located_new_location (q r nb : Z) :
  0 ≤ q → 0 ≤ r < nb →
  located (shr_record_of_loc q (new_location nb r)) (IZR q + IZR r / IZR nb).
Proof.
  intros Hq [Hr Hnb].
  assert (Hn : (0 < IZR nb)%R) by (apply IZR_lt; lia).
  set (t := (IZR r / IZR nb)%R).
  assert (Ht : (t * IZR nb = IZR r)%R) by (unfold t; field; lra).
  assert (Ht0 : (0 <= t)%R).
  { apply IZR_le in Hr. apply Rmult_le_reg_r with (IZR nb); [done|]. lra. }
  assert (Ht1 : (t < 1)%R).
  { apply IZR_lt in Hnb. apply Rmult_lt_reg_r with (IZR nb); [done|]. lra. }
  assert (Hlt : 2 * r < nb → (t < 1 / 2)%R).
  { intros H. apply IZR_lt in H. rewrite mult_IZR in H.
    apply Rmult_lt_reg_r with (IZR nb); [done|]. lra. }
  assert (Hgt : nb < 2 * r → (1 / 2 < t)%R).
  { intros H. apply IZR_lt in H. rewrite mult_IZR in H.
    apply Rmult_lt_reg_r with (IZR nb); [done|]. lra. }
  assert (Heq : 2 * r = nb → (t = 1 / 2)%R).
  { intros H. apply (f_equal IZR) in H. rewrite mult_IZR in H.
    apply Rmult_eq_reg_r with (IZR nb); [|lra]. lra. }
  assert (Hz : r ≠ 0 → (0 < t)%R).
  { intros H. assert (0 < r) as H' by lia. apply IZR_lt in H'.
    apply Rmult_lt_reg_r with (IZR nb); [done|]. lra. }
  clearbody t.
  unfold new_location, new_location_even, new_location_odd, located.
  destruct (Z.even nb) eqn:Ev.
  - destruct (Z.eqb_spec r 0) as [->|Hne].
    + cbn. assert (t = 0%R) as -> by (rewrite Rmult_comm in Ht; nra).
      split; [done|]. split; [lra|]. split; [lra|left; lra].
    + specialize (Hz Hne).
      destruct (Z.compare_spec (2 * r) nb) as [E|E|E]; cbn; (split; [done|]).
      * specialize (Heq E). subst t. split; [lra|]. split; [lra|right; lra].
      * specialize (Hlt E). split; [lra|]. split; [lra|]. split; lra.
      * specialize (Hgt E). split; [lra|]. split; [lra|]. split; lra.
  - assert (2 * r ≠ nb) as Hodd.
    { intros E. rewrite <- E, Z.even_mul in Ev. done. }
    destruct (Z.eqb_spec r 0) as [->|Hne].
    + cbn. assert (t = 0%R) as -> by (rewrite Rmult_comm in Ht; nra).
      split; [done|]. split; [lra|]. split; [lra|left; lra].
    + specialize (Hz Hne).
      destruct (Z.compare_spec (2 * r + 1) nb) as [E|E|E]; cbn; (split; [done|]).
      * specialize (Hlt ltac:(lia)). split; [lra|]. split; [lra|]. split; lra.
      * specialize (Hlt ltac:(lia)). split; [lra|]. split; [lra|]. split; lra.
      * specialize (Hgt ltac:(lia)). split; [lra|]. split; [lra|]. split; lra.
Qed.

Lemma bpow_sub (a b : Z) : powerRZ 2 (a - b) = (powerRZ 2 a / powerRZ 2 b)%R.
Proof.
  replace (a - b) with (a + - b) by lia. rewrite bpow_add, bpow_opp. done.
Qed.

(** The quotient that [SFdiv_core_binary] hands to the rounding: its
    location and its number of digits. *)
Lemma SFdiv_core_binary_spec (m1 m2 : positive) (e1 e2 : Z) :
  ∃ y,
    located (shr_record_of_loc (SFdiv_core_binary 53 1024 (Zpos m1) e1 (Zpos m2) e2).1.1
                               (SFdiv_core_binary 53 1024 (Zpos m1) e1 (Zpos m2) e2).2) y ∧
    (y * powerRZ 2 (SFdiv_core_binary 53 1024 (Zpos m1) e1 (Zpos m2) e2).1.2
     = IZR (Zpos m1) * powerRZ 2 e1 / (IZR (Zpos m2) * powerRZ 2 e2))%R ∧
    (SFdiv_core_binary 53 1024 (Zpos m1) e1 (Zpos m2) e2).1.2
      ≤ fexp 53 1024 (Zdigits2 (SFdiv_core_binary 53 1024 (Zpos m1) e1 (Zpos m2) e2).1.1
                      + (SFdiv_core_binary 53 1024 (Zpos m1) e1 (Zpos m2) e2).1.2).
Proof.
  unfold SFdiv_core_binary.
  set (d1 := Zdigits2 (Zpos m1)). set (d2 := Zdigits2 (Zpos m2)).
  pose proof (Zdigits2_spec (Zpos m1) ltac:(lia)) as Hd1. fold d1 in Hd1.
  pose proof (Zdigits2_spec (Zpos m2) ltac:(lia)) as Hd2. fold d2 in Hd2.
  assert (0 < d1) as Hd1p by (apply Zdigits2_pos; lia).
  assert (0 < d2) as Hd2p by (apply Zdigits2_pos; lia).
  clearbody d1 d2.
  set (D := fexp 53 1024 (d1 + e1 - (d2 + e2))).
  assert (HD : D = Z.max (d1 + e1 - (d2 + e2) - 53) (-1074)) by apply fexp_binary64.
  clearbody D.
  set (e' := Z.min D (e1 - e2)).
  assert (He' : e' = Z.min D (e1 - e2)) by done. clearbody e'.
  set (s := e1 - e2 - e'). assert (Hs : s = e1 - e2 - e') by done. clearbody s.
  set (m' := match s with Z.pos _ => Z.shiftl (Z.pos m1) s | 0 => Z.pos m1 | Z.neg _ => 0 end).
  assert (Hm' : m' = Zpos m1 * 2 ^ s).
  { unfold m'. destruct s as [|p|p] eqn:E; [lia| |lia].
    rewrite Z.shiftl_mul_pow2 by lia. done. }
  clearbody m'.
  pose proof (Z.pow_pos_nonneg 2 s ltac:(lia) ltac:(lia)) as Hpow.
  pose proof (Z_div_mod m' (Zpos m2) ltac:(lia)) as Hdm.
  destruct (Z.div_eucl m' (Z.pos m2)) as [q r]. destruct Hdm as [Hdm Hr].
  cbn [fst snd].
  assert (Hq : 0 ≤ q) by nia.
  exists (IZR q + IZR r / IZR (Zpos m2))%R.
  split; [by apply located_new_location|]. split.
  - assert (0 < IZR (Zpos m2))%R by (apply IZR_lt; lia).
    pose proof (bpow_pos e2). pose proof (bpow_pos e').
    replace (IZR q + IZR r / IZR (Z.pos m2))%R with (IZR m' / IZR (Zpos m2))%R.
    2:{ rewrite Hdm, plus_IZR, mult_IZR. field. lra. }
    rewrite Hm', mult_IZR, <- bpow_IZR by lia.
    replace (powerRZ 2 e1) with (powerRZ 2 (s + e' + e2)) by (f_equal; lia).
    rewrite !bpow_add. field. split; lra.
  - rewrite fexp_binary64.
    destruct (decide (e' ≤ -1074)) as [|Hn]; [lia|].
    assert (e' ≤ d1 + e1 - (d2 + e2) - 53) as Hle by lia.
    set (k := d1 + s - d2). assert (53 ≤ k) by lia.
    assert (2 ^ (k - 1) ≤ q) as Hqk.
    { assert (2 ^ (k - 1) * 2 ^ d2 ≤ m') as Hlow.
      { rewrite <- Z.pow_add_r by lia. rewrite Hm'.
        replace (k - 1 + d2) with ((d1 - 1) + s) by lia.
        rewrite Z.pow_add_r by lia. nia. }
      pose proof (Z.pow_pos_nonneg 2 (k - 1) ltac:(lia) ltac:(lia)).
      nia. }
    pose proof (Z.pow_pos_nonneg 2 (k - 1) ltac:(lia) ltac:(lia)).
    pose proof (Zdigits2_ge q k Hqk ltac:(lia)). lia.
Qed.

Lemma signed_div s1 s2 a b :
  b ≠ 0%R → (signed s1 a / signed s2 b)%R = signed (xorb s1 s2) (a / b).
Proof. intros Hb. destruct s1, s2; cbn [signed xorb]; field; done. Qed.

(** The quotient by a float that is not zero: correctly rounded. *)
Lemma fdiv_error (x : float) sy my ey :
  is_finite x = true →
  (Rabs (float_value x / float_value (S754_finite sy my ey)) < powerRZ 2 900)%R →
  is_finite (fdiv x (S754_finite sy my ey)) = true ∧
  (Rabs (float_value (fdiv x (S754_finite sy my ey))
         - float_value x / float_value (S754_finite sy my ey))
   <= Rabs (float_value x / float_value (S754_finite sy my ey)) * powerRZ 2 (-53)
      + powerRZ 2 (-1075))%R.
Proof.
  intros Hx Hb.
  assert (Hy : (0 < IZR (Zpos my) * powerRZ 2 ey)%R).
  { pose proof (bpow_pos ey). assert (0 < IZR (Zpos my))%R by (apply IZR_lt; lia). nra. }
  destruct x as [sx|sx| |sx mx ex]; try discriminate.
  - split; [reflexivity|]. cbn [fdiv SFdiv]. rewrite float_value_finite.
    cbn [float_value]. unfold Rdiv. rewrite Rmult_0_l, Rminus_diag, Rabs_R0.
    pose proof (bpow_pos (-1075)). lra.
  - unfold fdiv. cbn [SFdiv]. rewrite !float_value_finite in *.
    rewrite signed_div in * by lra. rewrite Rabs_signed in Hb |- *.
    destruct (SFdiv_core_binary_spec mx my ex ey) as (y & Hloc & Hv & Hn).
    destruct (SFdiv_core_binary 53 1024 (Z.pos mx) ex (Z.pos my) ey) as [[mz ez] lz].
    cbn [fst snd] in Hloc, Hv, Hn.
    assert (Hpos : (0 <= IZR (Z.pos mx) * powerRZ 2 ex / (IZR (Z.pos my) * powerRZ 2 ey))%R).
    { pose proof (bpow_pos ex). assert (0 < IZR (Zpos mx))%R by (apply IZR_lt; lia).
      apply Rlt_le, Rdiv_lt_0_compat; [nra|done]. }
    rewrite (Rabs_pos_eq _ Hpos) in Hb |- *. rewrite <- Hv in Hb |- *.
    apply binary_round_aux_error; [done|by right|done].
Qed.

(** The unit roundoff of binary64 and a bound of the underflow term, as
    numbers. *)
Lemma unit_roundoff : powerRZ 2 (-53) = (/ 9007199254740992)%R.
Proof.
  change (-53) with (- (53)). rewrite bpow_opp, bpow_IZR by lia. done.
Qed.

Lemma underflow_small : (powerRZ 2 (-1075) <= / 1267650600228229401496703205376)%R.
Proof.
  eapply Rle_trans; [apply (bpow_le (-1075) (-100)); lia|].
  change (-100) with (- (100)). rewrite bpow_opp, bpow_IZR by lia.
  apply Req_le. done.
Qed.

Lemma below_overflow (x : R) : (x <= 18446744073709551616)%R → (x < powerRZ 2 900)%R.
Proof.
  intros H. eapply Rle_lt_trans; [exact H|].
  eapply Rlt_le_trans; [|apply (bpow_le 65 900); lia].
  rewrite bpow_IZR by lia. apply IZR_lt. done.
Qed.

Lemma fmul_within (x y : float) (M : R) :
  is_finite x = true → is_finite y = true →
  (Rabs (float_value x * float_value y) <= M)%R → (M <= 18446744073709551616)%R →
  is_finite (fmul x y) = true ∧
  (Rabs (float_value (fmul x y) - float_value x * float_value y)
   <= M * / 9007199254740992 + / 1267650600228229401496703205376)%R.
Proof.
  intros Hx Hy HM HB.
  destruct (fmul_error x y Hx Hy) as [Hf He].
  { apply below_overflow. lra. }
  split; [exact Hf|]. rewrite unit_roundoff in He.
  pose proof underflow_small. lra.
Qed.

Lemma fadd_within (x y : float) (M : R) :
  is_finite x = true → is_finite y = true →
  (Rabs (float_value x + float_value y) <= M)%R → (M <= 18446744073709551616)%R →
  is_finite (fadd x y) = true ∧
  (Rabs (float_value (fadd x y) - (float_value x + float_value y))
   <= M * / 9007199254740992 + / 1267650600228229401496703205376)%R.
Proof.
  intros Hx Hy HM HB.
  destruct (fadd_error x y Hx Hy) as [Hf He].
  { apply below_overflow. lra. }
  split; [exact Hf|]. rewrite unit_roundoff in He.
  pose proof underflow_small. lra.
Qed.

Lemma float_lit_2 : float_lit 2 1 = S754_finite false 4503599627370496 (-51).
Proof. reflexivity. Qed.

Lemma float_lit_2_value :
  float_value (S754_finite false 4503599627370496 (-51)) = 2%R.
Proof.
  cbn [float_value cond_Zopp]. change (-51) with (- (51)).
  rewrite bpow_opp, bpow_IZR by lia.
  change (2 ^ 51) with 2251799813685248. lra.
Qed.

(** [x / 2.0] *)
Lemma halve_within (x : float) (M : R) :
  is_finite x = true →
  (Rabs (float_value x) <= M)%R → (M <= 18446744073709551616)%R →
  is_finite (fdiv x (float_lit 2 1)) = true ∧
  (Rabs (float_value (fdiv x (float_lit 2 1)) - float_value x / 2)
   <= M * / 9007199254740992 + / 1267650600228229401496703205376)%R.
Proof.
  intros Hx HM HB. rewrite float_lit_2.
  pose proof (fdiv_error x false 4503599627370496 (-51) Hx) as H.
  rewrite float_lit_2_value in H.
  assert (Rabs (float_value x / 2) <= M / 2)%R as Hh.
  { unfold Rdiv. rewrite Rabs_mult, (Rabs_pos_eq (/ 2)) by lra. lra. }
  pose proof (Rabs_pos (float_value x)).
  destruct H as [Hf He]; [apply below_overflow; lra|].
  split; [exact Hf|]. rewrite unit_roundoff in He.
  pose proof underflow_small. lra.
Qed.

Lemma Z2F_within (z : Z) :
  Z.abs z ≤ 2 ^ 32 →
  is_finite (Z2F z) = true ∧
  (Rabs (float_value (Z2F z) - IZR z)
   <= Rabs (IZR z) * / 9007199254740992 + / 1267650600228229401496703205376)%R ∧
  (Rabs (IZR z) <= 4294967296)%R.
Proof.
  intros Hz.
  assert (Rabs (IZR z) <= 4294967296)%R as Hb.
  { rewrite <- abs_IZR. apply IZR_le. exact Hz. }
  destruct (Z2F_error z) as [Hf He]; [apply below_overflow; lra|].
  split; [exact Hf|]. split; [|exact Hb]. rewrite unit_roundoff in He.
  pose proof underflow_small. lra.
Qed.

Lemma Rabs_le_between' (x y : R) : (- y <= x <= y)%R → (Rabs x <= y)%R.
Proof. apply Rabs_le. Qed.

Lemma float_lit_89_100 :
  float_lit 89 100 = S754_finite false 8016407336719483 (-53).
Proof. reflexivity. Qed.

Lemma float_lit_89_100_value :
  float_value (S754_finite false 8016407336719483 (-53))
  = (8016407336719483 / 9007199254740992)%R.
Proof. cbn [float_value cond_Zopp]. rewrite unit_roundoff. done. Qed.

(** [padded_width / 2.0] *)
Lemma half_width_close (W : Z) :
  0 ≤ W ≤ 2 ^ 32 →
  is_finite (fdiv (Z2F W) (float_lit 2 1)) = true ∧
  (Rabs (float_value (fdiv (Z2F W) (float_lit 2 1)) - IZR W / 2)
   <= IZR W * / 4503599627370496 + / 316912650057057350374175801344)%R.
Proof.
  intros HW.
  destruct (Z2F_within W ltac:(lia)) as (Hf & He & Hb).
  assert (0 <= IZR W)%R as HW0 by (apply IZR_le; lia).
  rewrite (Rabs_pos_eq (IZR W)) in He, Hb by done.
  apply Rabs_le_between in He.
  destruct (halve_within (Z2F W)
              (IZR W * (1 + / 9007199254740992) + / 1267650600228229401496703205376) Hf)
    as [Hf2 He2].
  { apply Rabs_le. lra. }
  { lra. }
  split; [exact Hf2|]. apply Rabs_le_between in He2. apply Rabs_le. lra.
Qed.

(** [padded_height * 0.89 / 2.0] *)
Lemma half_height_close (H : Z) :
  0 ≤ H ≤ 2 ^ 32 →
  is_finite (fdiv (fmul (Z2F H) (float_lit 89 100)) (float_lit 2 1)) = true ∧
  (Rabs (float_value (fdiv (fmul (Z2F H) (float_lit 89 100)) (float_lit 2 1))
         - IZR H * (89 / 100) / 2)
   <= IZR H * / 4503599627370496 + / 316912650057057350374175801344)%R.
Proof.
  intros HH.
  destruct (Z2F_within H ltac:(lia)) as (Hf & He & Hb).
  assert (0 <= IZR H)%R as HH0 by (apply IZR_le; lia).
  rewrite (Rabs_pos_eq (IZR H)) in He, Hb by done.
  apply Rabs_le_between in He.
  rewrite float_lit_89_100.
  destruct (fmul_within (Z2F H) (S754_finite false 8016407336719483 (-53))
              (IZR H * (1 + / 9007199254740992) + / 1267650600228229401496703205376)
              Hf eq_refl) as [Hf1 He1].
  { rewrite float_lit_89_100_value. apply Rabs_le. lra. }
  { lra. }
  rewrite float_lit_89_100_value in He1. apply Rabs_le_between in He1.
  destruct (halve_within _
              (IZR H * (9 / 10) + 2 * / 1267650600228229401496703205376) Hf1) as [Hf2 He2].
  { apply Rabs_le. lra. }
  { lra. }
  split; [exact Hf2|]. apply Rabs_le_between in He2. apply Rabs_le. lra.
Qed.

(** [r * c + k] where [c] is close to [cs] and [k] to [K]. *)
Lemma coordinate_close (r c k : float) (cs K ek : R) :
  is_finite r = true → is_finite c = true → is_finite k = true →
  (Rabs (float_value r) <= 4294967296)%R →
  (Rabs (float_value c - cs) <= / 1125899906842624)%R →
  (Rabs cs <= 1)%R →
  (Rabs (float_value k - K) <= ek)%R →
  (0 <= K <= 4294967296)%R → (ek <= 1)%R →
  is_finite (fadd (fmul r c) k) = true ∧
  (Rabs (float_value (fadd (fmul r c) k) - (float_value r * cs + K))
   <= Rabs (float_value r) * / 562949953421312 + 2 * ek + K * / 4503599627370496
      + / 316912650057057350374175801344)%R.
Proof.
  intros Hr Hc Hk HR Hcs Hcs1 Hek HK Hek1.
  set (R := float_value r) in *. set (vc := float_value c) in *.
  set (vk := float_value k) in *.
  pose proof (Rabs_pos R) as HR0. pose proof (Rabs_pos (vk - K)) as Hek0.
  assert (Rabs (R * vc - R * cs) <= Rabs R * / 1125899906842624)%R as Hd.
  { rewrite <- Rmult_minus_distr_l, Rabs_mult.
    apply Rmult_le_compat_l; [done|exact Hcs]. }
  assert (Rabs (R * cs) <= Rabs R)%R as Hq.
  { rewrite Rabs_mult. rewrite <- (Rmult_1_r (Rabs R)) at 2.
    apply Rmult_le_compat_l; [done|exact Hcs1]. }
  apply Rabs_le_between in Hd, Hq, Hek.
  destruct (fmul_within r c (Rabs R * (1 + / 1125899906842624)) Hr Hc) as [Hf1 He1].
  { fold R vc. apply Rabs_le. lra. }
  { lra. }
  fold R vc in He1. apply Rabs_le_between in He1.
  destruct (fadd_within (fmul r c) k
              (Rabs R * (1 + / 562949953421312) + K + ek
               + / 1267650600228229401496703205376) Hf1 Hk) as [Hf2 He2].
  { fold vk. apply Rabs_le. lra. }
  { lra. }
  fold vk in He2. apply Rabs_le_between in He2.
  split; [exact Hf2|]. apply Rabs_le. lra.
Qed.

Section AccuracyProofs.

Context {platform : Platform}.

Lemma trig_accuracy : powerRZ 2 (-50) = (/ 1125899906842624)%R.
Proof.
  change (-50) with (- (50)). rewrite bpow_opp, bpow_IZR by lia. done.
Qed.

(** Each coordinate of a vertex that the loop computes is close to the
    coordinate of the point on the circle. *)
Lemma float_vertex_close (r : float) (W H : Z) (i : nat) :
  accurate_trig → (i < 6)%nat →
  is_finite r = true → (Rabs (float_value r) <= 4294967296)%R →
  0 ≤ W ≤ 2 ^ 32 → 0 ≤ H ≤ 2 ^ 32 →
  is_finite (float_vertex r (Z2F W) (Z2F H) i).1 = true ∧
  is_finite (float_vertex r (Z2F W) (Z2F H) i).2 = true ∧
  (Rabs (float_value (float_vertex r (Z2F W) (Z2F H) i).1
         - (ideal_vertex (float_value r) W H i).1)
   <= (Rabs (float_value r) + IZR W) * / 562949953421312
      + / 79228162514264337593543950336)%R ∧
  (Rabs (float_value (float_vertex r (Z2F W) (Z2F H) i).2
         - (ideal_vertex (float_value r) W H i).2)
   <= (Rabs (float_value r) + IZR H) * / 562949953421312
      + / 79228162514264337593543950336)%R.
Proof.
  intros Hacc Hi Hr HR HW HH.
  destruct (Hacc i Hi) as (Hfc & Hfs & Hc & Hs).
  rewrite trig_accuracy in Hc, Hs.
  destruct (half_width_close W HW) as [Hfw Hw].
  destruct (half_height_close H HH) as [Hfh Hh].
  assert (0 <= IZR W <= 4294967296)%R as HW'.
  { split; [apply IZR_le; lia|]. apply (IZR_le W (2 ^ 32)). lia. }
  assert (0 <= IZR H <= 4294967296)%R as HH'.
  { split; [apply IZR_le; lia|]. apply (IZR_le H (2 ^ 32)). lia. }
  pose proof (Rabs_pos (float_value r)) as HR0.
  unfold float_vertex, ideal_vertex, centre. cbn [fst snd].
  assert (Rabs (cos (angle i)) <= 1)%R as Hcb.
  { apply Rabs_le. pose proof (COS_bound (angle i)). lra. }
  assert (Rabs (sin (angle i)) <= 1)%R as Hsb.
  { apply Rabs_le. pose proof (SIN_bound (angle i)). lra. }
  destruct (coordinate_close r _ _ _ _ _ Hr Hfc Hfw HR Hc Hcb Hw)
    as [Hfx Hx]; [lra|lra|].
  destruct (coordinate_close r _ _ _ _ _ Hr Hfs Hfh HR Hs Hsb Hh)
    as [Hfy Hy]; [lra|lra|].
  split; [exact Hfx|]. split; [exact Hfy|].
  split; (eapply Rle_trans; [eassumption|lra]).
Qed.

End AccuracyProofs.

(** The triangle inequality of the Euclidean norm of the plane. *)
Lemma norm_triangle (a b c d : R) :
  (sqrt ((a + c)² + (b + d)²) <= sqrt (a² + b²) + sqrt (c² + d²))%R.
Proof.
  unfold Rsqr.
  set (s1 := sqrt (a * a + b * b)). set (s2 := sqrt (c * c + d * d)).
  assert (H1 : (0 <= s1)%R) by apply sqrt_pos.
  assert (H2 : (0 <= s2)%R) by apply sqrt_pos.
  assert (E1 : (s1 * s1 = a * a + b * b)%R) by (apply sqrt_sqrt; nra).
  assert (E2 : (s2 * s2 = c * c + d * d)%R) by (apply sqrt_sqrt; nra).
  clearbody s1 s2.
  rewrite <- (sqrt_square (s1 + s2)) by lra.
  apply sqrt_le_1_alt.
  assert (Hcs : (a * c + b * d <= s1 * s2)%R).
  { destruct (Rle_lt_dec (a * c + b * d) (s1 * s2)) as [|Hgt]; [done|].
    exfalso.
    assert (0 <= s1 * s2)%R by (apply Rmult_le_pos; lra).
    assert (Hsq : ∀ X Y : R, (0 <= Y)%R → (Y < X)%R → (Y * Y < X * X)%R)
      by (intros X Y HY HXY;
          assert (0 < (X - Y) * (X + Y))%R by (apply Rmult_lt_0_compat; lra);
          lra).
    pose proof (Hsq _ _ H Hgt).
    assert ((s1 * s2) * (s1 * s2) = (a * a + b * b) * (c * c + d * d))%R.
    { rewrite <- E1, <- E2. ring. }
    pose proof (Rle_0_sqr (a * d - b * c)) as Hsq0. unfold Rsqr in Hsq0.
    lra. }
  lra.
Qed.

Lemma norm_small (e f t : R) :
  (Rabs e <= t)%R → (Rabs f <= t)%R → (sqrt (e² + f²) <= 2 * t)%R.
Proof.
  intros He Hf. apply Rabs_le_between in He, Hf.
  assert (0 <= t)%R by lra.
  rewrite <- (sqrt_square (2 * t)) by lra.
  apply sqrt_le_1_alt. unfold Rsqr. nra.
Qed.

(** A point within [t] of a point at distance [A] from [c], coordinate by
    coordinate, is at a distance from [c] within [2 * t] of [A]. *)
Lemma distance_close (x y px py cx cy t : R) :
  (Rabs (x - px) <= t)%R → (Rabs (y - py) <= t)%R →
  (Rabs (sqrt ((x - cx)² + (y - cy)²) - sqrt ((px - cx)² + (py - cy)²)) <= 2 * t)%R.
Proof.
  intros Hx Hy.
  pose proof (norm_small _ _ _ Hx Hy) as Hn.
  pose proof (norm_triangle (px - cx) (py - cy) (x - px) (y - py)) as T1.
  pose proof (norm_triangle (x - cx) (y - cy) (px - x) (py - y)) as T2.
  replace (px - cx + (x - px))%R with (x - cx)%R in T1 by ring.
  replace (py - cy + (y - py))%R with (y - cy)%R in T1 by ring.
  replace (x - cx + (px - x))%R with (px - cx)%R in T2 by ring.
  replace (y - cy + (py - y))%R with (py - cy)%R in T2 by ring.
  replace ((px - x)² + (py - y)²)%R with ((x - px)² + (y - py)²)%R in T2
    by (unfold Rsqr; ring).
  apply Rabs_le. lra.
Qed.

Lemma sqrt3_bounds : (17 / 10 <= sqrt 3 <= 18 / 10)%R.
Proof.
  split.
  - rewrite <- (sqrt_square (17 / 10)) by lra. apply sqrt_le_1_alt. lra.
  - rewrite <- (sqrt_square (18 / 10)) by lra. apply sqrt_le_1_alt. lra.
Qed.

(** When [p] and [p'] are a point and its image by the rotation of 60
    degrees about [c], points within [t] of them are in that relation up
    to [3 * t]. *)
Lemma rotation_close (x y x' y' px py px' py' cx cy t : R) :
  (Rabs (x - px) <= t)%R → (Rabs (y - py) <= t)%R →
  (Rabs (x' - px') <= t)%R → (Rabs (y' - py') <= t)%R →
  (px' - cx = cos (PI / 3) * (px - cx) - sin (PI / 3) * (py - cy))%R →
  (py' - cy = sin (PI / 3) * (px - cx) + cos (PI / 3) * (py - cy))%R →
  (Rabs (x' - cx - (cos (PI / 3) * (x - cx) - sin (PI / 3) * (y - cy))) <= 3 * t)%R ∧
  (Rabs (y' - cy - (sin (PI / 3) * (x - cx) + cos (PI / 3) * (y - cy))) <= 3 * t)%R.
Proof.
  intros Hx Hy Hx' Hy' Ex Ey.
  rewrite cos_PI3, sin_PI3 in *.
  pose proof sqrt3_bounds as Hs.
  set (S := (sqrt 3 / 2)%R) in *. assert (0 <= S <= 1)%R as HS by (unfold S; lra).
  clearbody S.
  apply Rabs_le_between in Hx, Hy, Hx', Hy'.
  assert (0 <= t)%R by lra.
  assert (- t <= S * (x - px) <= t)%R by nra.
  assert (- t <= S * (y - py) <= t)%R by nra.
  split; apply Rabs_le.
  - replace (x' - cx - (1 / 2 * (x - cx) - S * (y - cy)))%R
      with ((x' - px') + (px' - cx) - 1 / 2 * (x - px) - 1 / 2 * (px - cx)
            + S * (y - py) + S * (py - cy))%R by ring.
    rewrite Ex. lra.
  - replace (y' - cy - (S * (x - cx) + 1 / 2 * (y - cy)))%R
      with ((y' - py') + (py' - cy) - S * (x - px) - S * (px - cx)
            - 1 / 2 * (y - py) - 1 / 2 * (py - cy))%R by ring.
    rewrite Ey. lra.
Qed.

Lemma binary_round_aux_nonneg mx ex lx :
  (0 <= float_value (binary_round_aux 53 1024 false mx ex lx))%R.
Proof.
  rewrite binary_round_aux_unfold. cbn zeta.
  destruct (shr_m _) as [|m|m]; cbn [float_value]; [lra| |lra].
  destruct (_ <=? _); cbn [float_value cond_Zopp]; [|lra].
  pose proof (bpow_pos (shr_fexp 53 1024
    (round_nearest_even (shr_m (shr_fexp 53 1024 mx ex lx).1)
       (loc_of_shr_record (shr_fexp 53 1024 mx ex lx).1))
    (shr_fexp 53 1024 mx ex lx).2 loc_Exact).2).
  assert (0 < IZR (Zpos m))%R by (apply IZR_lt; lia). nra.
Qed.

Lemma Z2F_nonneg (z : Z) : 0 ≤ z → (0 <= float_value (Z2F z))%R.
Proof.
  intros Hz. unfold Z2F. destruct z as [|m|m]; [cbn; lra| |lia].
  cbn [binary_normalize]. unfold binary_round.
  destruct (shl_align _ _ _) as [mz ez]. apply binary_round_aux_nonneg.
Qed.

Lemma fmul_nonneg (x y : float) :
  (0 <= float_value x)%R → (0 <= float_value y)%R → (0 <= float_value (fmul x y))%R.
Proof.
  intros Hx Hy.
  destruct x as [sx|sx| |sx mx ex], y as [sy|sy| |sy my ey];
    try (cbn [fmul SFmul float_value]; lra).
  assert (Hs : ∀ s m e, (0 <= float_value (S754_finite s m e))%R → s = false).
  { intros [] m e H; [|done]. exfalso. rewrite float_value_finite in H.
    cbn [signed] in H. pose proof (bpow_pos e).
    assert (0 < IZR (Zpos m))%R by (apply IZR_lt; lia). nra. }
  rewrite (Hs _ _ _ Hx), (Hs _ _ _ Hy). unfold fmul. cbn [SFmul xorb].
  apply binary_round_aux_nonneg.
Qed.

Lemma one_half_eq : one_half = S754_finite false 4503599627370496 (-53).
Proof. reflexivity. Qed.

Lemma one_over_sqrt3_eq : one_over_sqrt3 = S754_finite false 5200308914369309 (-53).
Proof. reflexivity. Qed.

(** The radius of line 71 is a finite float, not negative, below [2^32]. *)
Lemma radius_bounds (dim : Z) (factor r : float) :
  radius dim factor = Ok r →
  factor = one_half ∨ factor = one_over_sqrt3 →
  0 ≤ dim ≤ 2 ^ 31 →
  is_finite r = true ∧ (0 <= float_value r <= 4294967296)%R.
Proof.
  intros Hrad Hfac Hdim. unfold radius, float_of_int in Hrad.
  destruct (Z2F_within dim ltac:(lia)) as (Hf & He & _).
  rewrite Hf in Hrad. cbn in Hrad. injection Hrad as <-.
  assert (0 <= IZR dim <= 2147483648)%R as Hd.
  { split; [apply IZR_le; lia|]. apply (IZR_le dim (2 ^ 31)). lia. }
  rewrite (Rabs_pos_eq (IZR dim)) in He by lra. apply Rabs_le_between in He.
  assert (is_finite factor = true ∧ (0 <= float_value factor <= 1)%R) as [Hff Hfv].
  { destruct Hfac as [-> | ->].
    - rewrite one_half_eq. split; [done|].
      cbn [float_value cond_Zopp]. rewrite unit_roundoff. lra.
    - rewrite one_over_sqrt3_eq. split; [done|].
      cbn [float_value cond_Zopp]. rewrite unit_roundoff. lra. }
  destruct (fmul_within (Z2F dim) factor 2147483649 Hf Hff) as [Hfr Her].
  { apply Rabs_le. nra. }
  { lra. }
  split; [exact Hfr|]. split.
  - apply fmul_nonneg; [apply Z2F_nonneg; lia|lra].
  - apply Rabs_le_between in Her. nra.
Qed.

(** The cosine and the sine of the six angles. *)
Lemma trig_values :
  cos (angle 0) = 1%R ∧ sin (angle 0) = 0%R ∧
  cos (angle 1) = (1 / 2)%R ∧ sin (angle 1) = (sqrt 3 / 2)%R ∧
  cos (angle 2) = (- 1 / 2)%R ∧ sin (angle 2) = (sqrt 3 / 2)%R ∧
  cos (angle 3) = (- 1)%R ∧ sin (angle 3) = 0%R ∧
  cos (angle 4) = (- 1 / 2)%R ∧ sin (angle 4) = (- (sqrt 3 / 2))%R ∧
  cos (angle 5) = (1 / 2)%R ∧ sin (angle 5) = (- (sqrt 3 / 2))%R.
Proof.
  replace (angle 0) with 0%R by (unfold angle; simpl; field).
  replace (angle 1) with (PI / 3)%R by (unfold angle; simpl; field).
  replace (angle 2) with (2 * (PI / 3))%R by (unfold angle; simpl; field).
  replace (angle 3) with PI by (unfold angle; simpl; field).
  replace (angle 4) with (PI / 3 + PI)%R by (unfold angle; simpl; field).
  replace (angle 5) with (2 * (PI / 3) + PI)%R by (unfold angle; simpl; field).
  rewrite !neg_cos, !neg_sin, cos_0, sin_0, cos_PI, sin_PI, cos_PI3, sin_PI3,
    cos_2PI3, sin_2PI3.
  split_and!; lra.
Qed.

Lemma sqrt3_enclosure :
  (17320508075688772935 / 10000000000000000000 <= sqrt 3
   <= 17320508075688772936 / 10000000000000000000)%R.
Proof.
  split.
  - rewrite <- (sqrt_square (17320508075688772935 / 10000000000000000000)) by lra.
    apply sqrt_le_1_alt. lra.
  - rewrite <- (sqrt_square (17320508075688772936 / 10000000000000000000)) by lra.
    apply sqrt_le_1_alt. lra.
Qed.

Lemma bpow_m52 : powerRZ 2 (-52) = (/ 4503599627370496)%R.
Proof. change (-52) with (- (52)). rewrite bpow_opp, bpow_IZR by lia. done. Qed.

Lemma bpow_m54 : powerRZ 2 (-54) = (/ 18014398509481984)%R.
Proof. change (-54) with (- (54)). rewrite bpow_opp, bpow_IZR by lia. done. Qed.

Lemma bpow_m105 : powerRZ 2 (-105) = (/ 40564819207303340847894502572032)%R.
Proof. change (-105) with (- (105)). rewrite bpow_opp, bpow_IZR by lia. done. Qed.

Lemma sample_accurate : accurate_trig (platform := sample_platform).
Proof.
  intros i Hi.
  destruct trig_values as (C0 & S0 & C1 & S1 & C2 & S2 & C3 & S3 & C4 & S4 & C5 & S5).
  pose proof sqrt3_enclosure as Hs.
  rewrite trig_accuracy.
  destruct i as [|[|[|[|[|[|]]]]]]; [..|lia];
    set (c := np_cos _); set (s := np_sin _);
    vm_compute in c; vm_compute in s; subst c s;
    (split; [reflexivity|]); (split; [reflexivity|]);
    cbn [float_value cond_Zopp];
    rewrite ?C0, ?S0, ?C1, ?S1, ?C2, ?S2, ?C3, ?S3, ?C4, ?S4, ?C5, ?S5,
            ?unit_roundoff, ?bpow_m52, ?bpow_m54, ?bpow_m105, ?opp_IZR;
    split; apply Rabs_le; lra.
Qed.

Lemma representable_0 : representable 0.
Proof. exists 0, 0. split; [simpl; lra|lia]. Qed.

(** [binary_normalize] returns a binary64 number unchanged. *)
Lemma binary_normalize_exact (z e : Z) (s : bool) :
  (Rabs (IZR z * powerRZ 2 e) < powerRZ 2 900)%R →
  representable (Rabs (IZR z * powerRZ 2 e)) →
  float_value (binary_normalize 53 1024 z e s) = (IZR z * powerRZ 2 e)%R.
Proof.
  intros Hb Hrep.
  assert (Hround : ∀ sx m,
    (IZR (Zpos m) * powerRZ 2 e < powerRZ 2 900)%R →
    representable (IZR (Zpos m) * powerRZ 2 e) →
    float_value (binary_round 53 1024 sx m e)
    = signed sx (IZR (Zpos m) * powerRZ 2 e)).
  { intros sx m Hm Hr. unfold binary_round.
    pose proof (shl_align_value m e (fexp 53 1024 (Z.pos (digits2_pos m) + e))) as Hv.
    destruct (shl_align m e (fexp 53 1024 (Z.pos (digits2_pos m) + e))) as [mz ez].
    cbn [fst snd] in Hv. rewrite <- Hv in *.
    apply binary_round_aux_exact; [apply located_exact; lia|by left|done|done]. }
  pose proof (bpow_pos e).
  destruct z as [|m|m]; cbn [binary_normalize].
  - cbn [float_value]. lra.
  - assert (0 < IZR (Zpos m))%R by (apply IZR_lt; lia).
    rewrite (Rabs_pos_eq (IZR (Zpos m) * powerRZ 2 e)) in * by nra.
    apply (Hround false m Hb Hrep).
  - assert (0 < IZR (Zpos m))%R by (apply IZR_lt; lia).
    assert (IZR (Zneg m) = (- IZR (Zpos m))%R) as E.
    { rewrite <- opp_IZR. done. }
    rewrite E in *.
    replace (- IZR (Zpos m) * powerRZ 2 e)%R
      with (- (IZR (Zpos m) * powerRZ 2 e))%R in * by ring.
    rewrite Rabs_Ropp in *.
    rewrite (Rabs_pos_eq (IZR (Zpos m) * powerRZ 2 e)) in * by nra.
    apply (Hround true m Hb Hrep).
Qed.

(** An [int] below [2^53] converts to a float without rounding. *)
Lemma Z2F_exact (z : Z) :
  Z.abs z < 2 ^ 53 → is_finite (Z2F z) = true ∧ float_value (Z2F z) = IZR z.
Proof.
  intros Hz.
  assert (Rabs (IZR z) < powerRZ 2 900)%R as Hb.
  { rewrite <- abs_IZR. apply below_overflow. apply (IZR_le _ (2 ^ 64)). lia. }
  split; [by apply Z2F_error|].
  pose proof (binary_normalize_exact z 0 false) as H.
  change (powerRZ 2 0) with 1%R in H. rewrite !Rmult_1_r in H.
  apply H; [exact Hb|].
  exists (Z.abs z), 0. change (powerRZ 2 0) with 1%R.
  rewrite Rmult_1_r, abs_IZR. split; [done|lia].
Qed.

(** The product of two finite floats is a binary64 number. *)
Lemma fmul_representable (x y : float) :
  is_finite x = true → is_finite y = true →
  (Rabs (float_value x * float_value y) < powerRZ 2 900)%R →
  representable (Rabs (float_value (fmul x y))).
Proof.
  intros Hx Hy Hb.
  destruct x as [sx|sx| |sx mx ex]; try discriminate;
    destruct y as [sy|sy| |sy my ey]; try discriminate.
  1-3: cbn [fmul SFmul float_value]; rewrite Rabs_R0; apply representable_0.
  unfold fmul. cbn [SFmul]. rewrite !float_value_finite in Hb.
  rewrite <- signed_xorb in Hb. rewrite Rabs_signed in Hb.
  set (p := (IZR (Z.pos mx) * powerRZ 2 ex * (IZR (Z.pos my) * powerRZ 2 ey))%R) in *.
  assert (Hp : p = (IZR (Z.pos (mx * my)) * powerRZ 2 (ex + ey))%R).
  { unfold p. rewrite Pos2Z.inj_mul, mult_IZR, bpow_add. ring. }
  assert (Hp0 : (0 <= p)%R).
  { rewrite Hp. pose proof (bpow_pos (ex + ey)).
    assert (0 < IZR (Z.pos (mx * my)))%R by (apply IZR_lt; lia). nra. }
  rewrite (Rabs_pos_eq p) in Hb by done. rewrite Hp in Hb.
  eapply binary_round_aux_representable; [apply located_exact; lia|by left|exact Hb].
Qed.

(** The quotient, when it is a binary64 number, is not rounded. *)
Lemma fdiv_exact (x : float) sy my ey :
  is_finite x = true →
  (Rabs (float_value x / float_value (S754_finite sy my ey)) < powerRZ 2 900)%R →
  representable (Rabs (float_value x / float_value (S754_finite sy my ey))) →
  float_value (fdiv x (S754_finite sy my ey))
  = (float_value x / float_value (S754_finite sy my ey))%R.
Proof.
  intros Hx Hb Hrep.
  assert (Hy : (0 < IZR (Zpos my) * powerRZ 2 ey)%R).
  { pose proof (bpow_pos ey). assert (0 < IZR (Zpos my))%R by (apply IZR_lt; lia). nra. }
  destruct x as [sx|sx| |sx mx ex]; try discriminate.
  - cbn [fdiv SFdiv]. rewrite float_value_finite.
    cbn [float_value]. unfold Rdiv. by rewrite Rmult_0_l.
  - unfold fdiv. cbn [SFdiv]. rewrite !float_value_finite in *.
    rewrite signed_div in * by lra. rewrite Rabs_signed in Hb, Hrep.
    destruct (SFdiv_core_binary_spec mx my ex ey) as (y & Hloc & Hv & Hn).
    destruct (SFdiv_core_binary 53 1024 (Z.pos mx) ex (Z.pos my) ey) as [[mz ez] lz].
    cbn [fst snd] in Hloc, Hv, Hn.
    assert (Hpos : (0 <= IZR (Z.pos mx) * powerRZ 2 ex / (IZR (Z.pos my) * powerRZ 2 ey))%R).
    { pose proof (bpow_pos ex). assert (0 < IZR (Zpos mx))%R by (apply IZR_lt; lia).
      apply Rlt_le, Rdiv_lt_0_compat; [nra|done]. }
    rewrite (Rabs_pos_eq _ Hpos) in Hb, Hrep. rewrite <- Hv in Hb, Hrep |- *.
    apply binary_round_aux_exact; [done|by right|done|done].
Qed.

(** Half of a binary64 number that is at least [2^-1000] is a binary64
    number. *)
Lemma representable_half (x : R) :
  representable x → (powerRZ 2 (-1000) <= x)%R → representable (x / 2).
Proof.
  intros (M & E & -> & HM & HE) Hx.
  assert (-1053 ≤ E).
  { assert (powerRZ 2 (-1000) < powerRZ 2 (53 + E))%R as Hlt.
    { eapply Rle_lt_trans; [exact Hx|].
      rewrite (bpow_add 53 E), (bpow_IZR 53) by lia.
      pose proof (bpow_pos E). apply Rmult_lt_compat_r; [done|].
      apply IZR_lt. lia. }
    apply bpow_lt_inv in Hlt. lia. }
  exists M, (E - 1). split; [|lia]. rewrite bpow_half. lra.
Qed.

(** The integer part of a positive float, as [int] and [np.floor] compute
    it. *)
Lemma truncation_spec (m : positive) (e : Z) :
  let t := if 0 <=? e then Zpos m * 2 ^ e else Z.shiftr (Zpos m) (- e) in
  0 ≤ t ∧ (IZR t <= IZR (Zpos m) * powerRZ 2 e < IZR t + 1)%R.
Proof.
  cbn zeta. destruct (Z.leb_spec 0 e) as [He|He].
  - pose proof (Z.pow_pos_nonneg 2 e ltac:(lia) He).
    split; [lia|]. rewrite mult_IZR, <- bpow_IZR by done. lra.
  - rewrite Z.shiftr_div_pow2 by lia.
    pose proof (Z.pow_pos_nonneg 2 (- e) ltac:(lia) ltac:(lia)) as Hp.
    pose proof (Z.div_mod (Zpos m) (2 ^ (- e)) ltac:(lia)) as Hdm.
    pose proof (Z.mod_pos_bound (Zpos m) (2 ^ (- e)) Hp) as Hmod.
    set (q := Zpos m / 2 ^ (- e)) in *. set (r := Zpos m mod 2 ^ (- e)) in *.
    clearbody q r. split; [nia|].
    replace (powerRZ 2 e) with (/ IZR (2 ^ (- e)))%R.
    2:{ rewrite <- bpow_IZR by lia. rewrite <- bpow_opp. f_equal. lia. }
    assert (0 < IZR (2 ^ (- e)))%R as Hp' by (apply IZR_lt; lia).
    rewrite Hdm, plus_IZR, mult_IZR.
    destruct Hmod as [Hr0 Hr1]. apply IZR_le in Hr0. apply IZR_lt in Hr1.
    set (P := IZR (2 ^ (- e))) in *. clearbody P.
    assert (0 <= IZR r * / P < 1)%R.
    { split.
      - apply Rmult_le_pos; [done|]. apply Rlt_le, Rinv_0_lt_compat. done.
      - apply Rmult_lt_reg_r with P; [done|].
        rewrite Rmult_assoc, Rinv_l by lra. lra. }
    replace ((P * IZR q + IZR r) * / P)%R with (IZR q + IZR r * / P)%R
      by (field; lra).
    lra.
Qed.

Lemma unit_interval_unique (a b : Z) (x : R) :
  (IZR a <= x < IZR a + 1)%R → (IZR b <= x < IZR b + 1)%R → a = b.
Proof.
  intros Ha Hb.
  assert (IZR a < IZR (b + 1))%R as H1 by (rewrite plus_IZR; lra).
  assert (IZR b < IZR (a + 1))%R as H2 by (rewrite plus_IZR; lra).
  apply lt_IZR in H1, H2. lia.
Qed.

(** [int(np.floor(x))] for a float [x] that is not negative and below
    [2^52]: the integer part of [x]. *)
Lemma py_int_np_floor (x : float) (k : Z) :
  is_finite x = true →
  0 ≤ k < 2 ^ 52 → (IZR k <= float_value x < IZR k + 1)%R →
  py_int (np_floor x) = Ok k.
Proof.
  intros Hx Hk Hv.
  assert (Hint : ∀ z, 0 ≤ z < 2 ^ 53 → py_int (Z2F z) = Ok z).
  { intros z Hz. destruct (Z2F_exact z ltac:(lia)) as [Hf He].
    destruct (Z2F z) as [s|s| |s m e] eqn:E; try discriminate.
    - cbn [float_value] in He. apply eq_IZR in He. cbn. by rewrite <- He.
    - assert (s = false) as ->.
      { destruct s; [|done]. exfalso. rewrite float_value_finite in He.
        cbn [signed] in He. pose proof (bpow_pos e).
        assert (0 < IZR (Zpos m))%R by (apply IZR_lt; lia).
        assert (0 <= IZR z)%R by (apply IZR_le; lia). nra. }
      cbn [py_int cond_Zopp]. f_equal.
      destruct (truncation_spec m e) as [Ht0 Ht]. cbn zeta in Ht0, Ht.
      cbn [float_value cond_Zopp] in He. rewrite He in Ht.
      eapply unit_interval_unique; [exact Ht|lra]. }
  destruct x as [s|s| |s m e]; try discriminate.
  - cbn [float_value] in Hv. assert (k = 0) as ->.
    { apply (unit_interval_unique k 0 0); lra. }
    by destruct s.
  - assert (s = false) as ->.
    { destruct s; [|done]. exfalso. rewrite float_value_finite in Hv.
      cbn [signed] in Hv. pose proof (bpow_pos e).
      assert (0 < IZR (Zpos m))%R by (apply IZR_lt; lia).
      assert (0 <= IZR k)%R by (apply IZR_le; lia). nra. }
    cbn [np_floor cond_Zopp].
    destruct (truncation_spec m e) as [Ht0 Ht]. cbn zeta in Ht0, Ht.
    cbn [float_value cond_Zopp] in Hv.
    pose proof (unit_interval_unique _ _ _ Ht Hv) as Heq.
    replace (if 0 <=? e then Z.pos m * 2 ^ e else Z.shiftr (Z.pos m) (- e)) with k.
    apply Hint. lia.
Qed.

(** [page_width / req_width - 1.0] of lines 72-74, as a float. *)
Lemma bleed_ratio :
  fsub (fdiv (float_lit 20 1) (float_lit 17 1)) (float_lit 1 1)
  = S754_finite false 6358023003346584 (-55).
Proof. reflexivity. Qed.

Lemma bleed_ratio_value :
  float_value (S754_finite false 6358023003346584 (-55))
  = (6358023003346584 / 36028797018963968)%R.
Proof.
  cbn [float_value cond_Zopp]. change (-55) with (- (55)).
  rewrite bpow_opp, bpow_IZR by lia. done.
Qed.

Lemma padding_unfold (w : Z) :
  is_finite (Z2F w) = true →
  padding w
  = py_int (np_floor (fdiv (fmul (Z2F w) (S754_finite false 6358023003346584 (-55)))
                           (float_lit 2 1))).
Proof. unfold padding, float_of_int. intros ->. reflexivity. Qed.

Lemma bpow_m1000 : (powerRZ 2 (-1000) <= / 1267650600228229401496703205376)%R.
Proof.
  eapply Rle_trans; [apply (bpow_le (-1000) (-100)); lia|].
  change (-100) with (- (100)). rewrite bpow_opp, bpow_IZR by lia.
  apply Req_le. done.
Qed.

(** Line 74 in binary64 gives [floor(3 * w / 34)] for every width up to
    [2^32]. *)
Lemma padding_value (w : Z) :
  0 ≤ w ≤ 2 ^ 32 → padding w = Ok (3 * w / 34).
Proof.
  intros Hw.
  destruct (decide (w = 0)) as [->|Hne]; [reflexivity|].
  destruct (Z2F_exact w ltac:(lia)) as [Hf Hv].
  rewrite padding_unfold by exact Hf.
  assert (1 <= IZR w <= 4294967296)%R as Hw'.
  { split; [apply (IZR_le 1 w); lia|apply (IZR_le w (2 ^ 32)); lia]. }
  set (c := S754_finite false 6358023003346584 (-55)).
  pose proof bleed_ratio_value as Hc. fold c in Hc.
  destruct (fmul_within (Z2F w) c (IZR w * (6358023003346584 / 36028797018963968))
              Hf eq_refl) as [Hfp Hp].
  { rewrite Hv, Hc. apply Rabs_le. lra. }
  { lra. }
  rewrite Hv, Hc in Hp. apply Rabs_le_between in Hp.
  assert (Hrep : representable (Rabs (float_value (fmul (Z2F w) c)))).
  { apply fmul_representable; [exact Hf|done|].
    rewrite Hv, Hc. apply below_overflow. apply Rabs_le. lra. }
  set (p := fmul (Z2F w) c) in *. clearbody p.
  assert (0 < float_value p)%R as Hp0 by lra.
  rewrite (Rabs_pos_eq (float_value p)) in Hrep by lra.
  destruct (halve_within p (2 * IZR w) Hfp) as [Hfq _].
  { apply Rabs_le. lra. }
  { lra. }
  assert (Hq : float_value (fdiv p (float_lit 2 1)) = (float_value p / 2)%R).
  { rewrite float_lit_2.
    transitivity (float_value p
                  / float_value (S754_finite false 4503599627370496 (-51)))%R;
      [|by rewrite float_lit_2_value].
    apply fdiv_exact; [exact Hfp| |]; rewrite float_lit_2_value.
    - apply below_overflow. apply Rabs_le. lra.
    - rewrite Rabs_pos_eq by lra. apply representable_half; [exact Hrep|].
      pose proof bpow_m1000. lra. }
  pose proof (Z.div_mod (3 * w) 34 ltac:(lia)) as Hdm.
  pose proof (Z.mod_pos_bound (3 * w) 34 ltac:(lia)) as Hmod.
  set (k := 3 * w / 34) in *. set (r := (3 * w) mod 34) in *. clearbody k r.
  assert (IZR (3 * w) = IZR (34 * k + r)) as HR by (by rewrite Hdm).
  rewrite plus_IZR, !mult_IZR in HR.
  assert (0 <= IZR r <= 33)%R as Hr.
  { split; [apply (IZR_le 0 r); lia|apply (IZR_le r 33); lia]. }
  apply py_int_np_floor; [exact Hfq|nia|].
  rewrite Hq. lra.
Qed.

(** floor(w * (20/17 - 1) / 2) over the real numbers. *)
Lemma floor_formula (w : Z) :
  Zfloor (IZR w * (20 / 17 - 1) / 2) = 3 * w / 34.
Proof.
  apply Zfloor_eq.
  pose proof (Z.div_mod (3 * w) 34 ltac:(lia)) as Hdm.
  pose proof (Z.mod_pos_bound (3 * w) 34 ltac:(lia)) as Hmod.
  set (q := 3 * w / 34) in *. set (m := (3 * w) mod 34) in *.
  assert (Hw : (IZR w * (20 / 17 - 1) / 2 = IZR q + IZR m / 34)%R).
  { assert (H3 : (3 * IZR w = 34 * IZR q + IZR m)%R).
    { rewrite <- mult_IZR, <- mult_IZR, <- plus_IZR. by f_equal. }
    lra. }
  rewrite Hw.
  assert (0 <= IZR m < 34)%R.
  { split; [apply IZR_le; lia | apply IZR_lt; lia]. }
  lra.
Qed.

Lemma tolerance_value : powerRZ 2 (-49) = (/ 562949953421312)%R.
Proof. change (-49) with (- (49)). rewrite bpow_opp, bpow_IZR by lia. done. Qed.

Lemma bpow_m50 : powerRZ 2 (-50) = (/ 1125899906842624)%R.
Proof. change (-50) with (- (50)). rewrite bpow_opp, bpow_IZR by lia. done. Qed.

Lemma ideal_vertex_mod r pw ph i :
  (i < 6)%nat → ideal_vertex r pw ph (S i mod 6) = ideal_vertex r pw ph (S i).
Proof.
  intros Hi. destruct (decide (i = 5%nat)) as [-> | Hne].
  - symmetry. apply ideal_vertex_wrap.
  - by rewrite Nat.mod_small by lia.
Qed.

(* ===================================================================== *)
(** * 20. [polycut]                                                         *)
(* ===================================================================== *)

Section PolycutProofs.

Context {platform : Platform}.

(** What a successful run of lines 60-65 did. *)
Lemma square_crop_inv im σ img im' dim σ' :
  images σ !! im = Some img →
  square_crop im σ = (Ok (im', dim), σ') →
  dim = Z.min (im_width img) (im_height img) ∧
  ((im_width img ≤ im_height img ∧ im' = im ∧ σ' = σ) ∨
   (im_width img > im_height img ∧
    ∃ min_x hf x0 x1,
      int_truediv (im_width img - im_height img) 2 = Ok min_x ∧
      float_of_int (im_height img) = Ok hf ∧
      round_float min_x = Ok x0 ∧
      round_float (fadd min_x hf) = Ok x1 ∧
      im' = length (images σ) ∧
      σ' = push σ [crop_core img x0 0 x1 (im_height img)])).
Proof.
  intros Himg. unfold square_crop.
  erewrite run_bind_ok by (by apply Image_size_run).
  cbn [size fst snd]. case_bool_decide as Hwide.
  - intros H.
    apply run_bind_inv in H as (min_x & σ1 & [Hmin ->]%lift_inv & H).
    apply run_bind_inv in H as (hf & σ1 & [Hhf ->]%lift_inv & H).
    apply run_bind_inv in H as (l & σ1 & Hcrop & H).
    rewrite mret_run in H. injection H as <- <- <-.
    apply Image_crop_inv in Hcrop
      as (src & x0 & y0 & x1 & y1 & Hsrc & Hx0 & Hy0 & Hx1 & Hy1 & -> & ->).
    rewrite Himg in Hsrc. injection Hsrc as <-.
    simpl in Hx0, Hy0, Hx1, Hy1. injection Hy0 as <-. injection Hy1 as <-.
    split; [done|]. right. split; [done|].
    by exists min_x, hf, x0, x1.
  - rewrite mret_run. intros [= <- <- <-].
    split; [done|]. left. split; [lia | done].
Qed.

Lemma lift_run {A} (a : A) σ : lift (Ok a) σ = (Ok a, σ).
Proof. done. Qed.

Lemma np_asarray_run_RGBA l σ P :
  images σ !! l = Some P → im_mode P = RGBA →
  np_asarray l σ = (Ok (Array3 (im_height P) (im_width P) 4 (im_data P)), σ).
Proof.
  intros Hl Hmode. unfold np_asarray.
  erewrite run_bind_ok by (by apply deref_ok). by rewrite Hmode.
Qed.

(** The run of lines 86-94 on the array of an RGBA image: two images are
    allocated, the mask and the output. *)
Lemma apply_mask_run xy σ P :
  0 ≤ im_width P → 0 ≤ im_height P →
  apply_mask (Array3 (im_height P) (im_width P) 4 (im_data P)) xy σ =
    (Ok (length (images σ),
         Array2 (im_height P) (im_width P) (mask_grid P xy),
         Array3 (im_height P) (im_width P) 4 (masked_grid P xy),
         S (length (images σ))),
     push σ [mask_image P xy; masked_image P xy]).
Proof.
  intros Hw Hh. unfold apply_mask.
  cbn [shape tuple_get lookup list_lookup].
  do 2 (erewrite run_bind_ok by apply lift_run).
  unfold Image_new. rewrite bool_decide_false by lia.
  cbn [getink].
  rewrite (run_bind_ok (_ ≫= _) _ σ (length (images σ))
             (push σ [{| im_mode := L; im_width := im_width P;
                         im_height := im_height P;
                         im_data := replicate (Z.to_nat (im_height P))
                                      (replicate (Z.to_nat (im_width P)) [0]) |}]))
    by done.
  rewrite (run_bind_ok (ImageDraw_polygon _ _ _) _ _ tt
             (push σ [mask_image P xy])).
  2:{ unfold ImageDraw_polygon.
      erewrite run_bind_ok by apply deref_ok, lookup_push_new.
      cbn [im_mode getink]. erewrite run_bind_ok by apply lift_run.
      unfold store, set_images, push. cbn.
      rewrite insert_app_r_alt by done. by rewrite Nat.sub_diag. }
  rewrite (run_bind_ok (np_asarray _) _ _
             (Array2 (im_height P) (im_width P) (mask_grid P xy))
             (push σ [mask_image P xy])).
  2:{ unfold np_asarray.
      erewrite run_bind_ok by apply deref_ok, lookup_push_new. done. }
  unfold np_empty. rewrite bool_decide_false by lia.
  erewrite run_bind_ok by apply lift_run.
  cbn [get_bands_to3]. erewrite run_bind_ok by apply lift_run.
  unfold set_bands_to3. rewrite bool_decide_true by done.
  erewrite run_bind_ok by apply lift_run.
  unfold set_band3, np_mul. rewrite bool_decide_false by lia.
  rewrite bool_decide_true by done.
  erewrite run_bind_ok by apply lift_run.
  unfold Image_fromarray. rewrite bool_decide_true by done.
  erewrite run_bind_ok by done.
  rewrite mret_run. cbn. unfold push. cbn.
  rewrite <- app_assoc, length_app, Nat.add_1_r. done.
Qed.

(** The pixels of the output: the RGB bands of the padded image and an
    alpha band of 255 where the rasteriser drew and 0 elsewhere; the mask
    holds 1 and 0 at the same places. *)
Lemma getpixel_masked P xy x y :
  wf_image P → wf_bands P → im_mode P = RGBA →
  0 ≤ x < im_width P → 0 ≤ y < im_height P →
  ∃ r g b a,
    getpixel P x y = Some [r; g; b; a] ∧
    getpixel (masked_image P xy) x y =
      Some [r; g; b; if polygon_pixels xy x y then 255 else 0] ∧
    at2 (mask_grid P xy) (Z.to_nat x) (Z.to_nat y) =
      Some (if polygon_pixels xy x y then 1 else 0).
Proof.
  intros Hwf Hbands Hmode Hx Hy.
  destruct (getpixel_wf P x y Hwf Hx Hy) as [p Hp].
  pose proof (wf_bands_getpixel _ _ _ _ Hbands Hp) as Hlen.
  rewrite Hmode in Hlen. simpl in Hlen.
  destruct p as [|r [|g [|b [|a [|? ?]]]]]; try discriminate.
  exists r, g, b, a. split; [done|].
  assert (Hmask : at2 (mask_grid P xy) (Z.to_nat x) (Z.to_nat y) =
                  Some (if polygon_pixels xy x y then 1 else 0)).
  { unfold mask_grid, mask_image. cbn [im_data].
    rewrite at2_fmap.
    rewrite (at2_imap (λ x y (p : Pixel),
               if polygon_pixels xy (Z.of_nat x) (Z.of_nat y) then [1] else p)).
    rewrite at2_replicate by lia. rewrite !Z2Nat.id by lia.
    by destruct (polygon_pixels xy x y). }
  split; [|done].
  unfold getpixel in *. cbn [masked_image im_width im_height im_data].
  rewrite bool_decide_true in * by done.
  unfold masked_grid. rewrite !at2_zip_with, !at2_fmap.
  rewrite (at2_tabulate (λ i j, (λ k, uninit i j k) <$> seq 0 (Z.to_nat 4))) by lia.
  rewrite Hp. fold (mask_grid P xy). rewrite Hmask. simpl.
  by destruct (polygon_pixels xy x y).
Qed.

Lemma Image_save_inv l path σ σ' :
  Image_save l path σ = (Ok tt, σ') →
  ∃ img, images σ !! l = Some img ∧
         im_width img ≠ 0 ∧ im_height img ≠ 0 ∧
         σ' = {| images := images σ;
                 files := <[path := File (ImageData img)]> (files σ);
                 logs := logs σ |}.
Proof.
  unfold Image_save. intros H.
  apply run_bind_inv in H as (img & σ1 & [Himg ->]%deref_inv & H).
  unfold mbind, M_bind, get_world in H. simpl in H.
  exists img. split; [done|].
  destruct (files σ !! path) as [[|c]|]; try discriminate;
    case_bool_decide as Hz; simpl in H; try discriminate;
    injection H as <-; (split_and!; [lia | lia | done]).
Qed.

(** What a successful run of lines 96-102 did. *)
Lemma persist_inv new_im name directory σ path σ' :
  persist new_im name directory σ = (Ok path, σ') →
  ∃ img, images σ !! new_im = Some img ∧
         im_width img ≠ 0 ∧ im_height img ≠ 0 ∧
         path = os_path_join directory (name +:+ "_hex.png") ∧
         files σ' !! path = Some (File (ImageData img)) ∧
         images σ' = images σ.
Proof.
  unfold persist. intros H.
  apply run_bind_inv in H as (e & σ1 & He & H).
  unfold os_path_exists, mbind, M_bind, get_world, mret, M_ret in He.
  injection He as <- <-.
  apply run_bind_inv in H as ([] & σ1 & Hdir & H).
  apply run_bind_inv in H as ([] & σ2 & Hsave & H).
  apply run_bind_inv in H as ([] & σ3 & Hlog & H).
  rewrite mret_run in H. injection H as <- <-.
  rewrite logging_info_run in Hlog. injection Hlog as <-.
  apply Image_save_inv in Hsave as (img & Himg & Hw & Hh & ->).
  assert (images σ1 = images σ) as Himages.
  { destruct (negb _).
    - apply run_bind_inv in Hdir as ([] & σ0 & Hmk & Hl).
      rewrite logging_info_run in Hl. injection Hl as <-.
      unfold os_makedirs in Hmk.
      apply run_bind_inv in Hmk as (σw & σ0' & Hget & Hmk).
      injection Hget as <- <-.
      case_bool_decide; [discriminate|].
      by injection Hmk as <-.
    - rewrite mret_run in Hdir. by injection Hdir as <-. }
  exists img. simpl. rewrite <- Himages. split_and!; try done.
  apply lookup_insert_eq.
Qed.

(** What a run of lines 59-102 that reached the end did: every local
    variable and the final world in terms of the image in the source file. *)
Lemma process_inv name directory f σ ls σ' :
  process name directory f σ = (Ok ls, σ') →
  ∃ file_img I,
    files σ !! f = Some (File (ImageData file_img)) ∧
    l_file_name ls = f ∧
    let I0 := converted file_img RGBA in
    let pf := l_padding_factor ls in
    let P := margin_image I pf pf pf pf [255; 255; 255; 255] in
    let out := masked_image P (l_polygon ls) in
    images σ' !! l_loaded ls = Some I0 ∧
    images σ' !! l_im ls = Some I ∧
    im_mode I = RGBA ∧
    l_dim ls = Z.min (im_width I0) (im_height I0) ∧
    ((im_width I0 ≤ im_height I0 ∧ l_im ls = l_loaded ls ∧ I = I0) ∨
     (im_width I0 > im_height I0 ∧
      ∃ min_x hf x0 x1,
        int_truediv (im_width I0 - im_height I0) 2 = Ok min_x ∧
        float_of_int (im_height I0) = Ok hf ∧
        round_float min_x = Ok x0 ∧
        round_float (fadd min_x hf) = Ok x1 ∧
        I = crop_core I0 x0 0 x1 (im_height I0))) ∧
    l_width ls = im_width I ∧
    l_height ls = im_height I ∧
    l_factor ls = factor_of (im_width I) (im_height I) ∧
    radius (l_dim ls) (l_factor ls) = Ok (l_r ls) ∧
    padding (im_width I) = Ok pf ∧
    0 ≤ im_width P ∧ 0 ≤ im_height P ∧
    images σ' !! l_im_padded ls = Some P ∧
    hexagon (l_r ls) (im_width P) (im_height P) = Ok (l_polygon ls) ∧
    l_im_array ls = Array3 (im_height P) (im_width P) 4 (im_data P) ∧
    l_mask ls = Array2 (im_height P) (im_width P) (mask_grid P (l_polygon ls)) ∧
    images σ' !! l_mask_im ls = Some (mask_image P (l_polygon ls)) ∧
    l_new_im_array ls =
      Array3 (im_height P) (im_width P) 4 (masked_grid P (l_polygon ls)) ∧
    images σ' !! l_new_im ls = Some out ∧
    l_output_path ls = os_path_join directory (name +:+ "_hex.png") ∧
    files σ' !! l_output_path ls = Some (File (ImageData out)) ∧
    im_width out ≠ 0 ∧ im_height out ≠ 0.
Proof.
  unfold process. intros H.
  apply run_bind_inv in H as (opened & σ1 & Hopen & H).
  apply Image_open_inv in Hopen as (file_img & Hfile & -> & ->).
  erewrite run_bind_ok in H by apply Image_convert_run, lookup_push_new.
  rewrite push_push in H. cbn [app] in H.
  set (I0 := converted file_img RGBA) in *.
  set (σ2 := push σ [file_img; I0]) in *.
  assert (HI0 : images σ2 !! S (length (images σ)) = Some I0).
  { unfold σ2. simpl. rewrite lookup_app_r by lia.
    by replace (S (length (images σ)) - length (images σ))%nat with 1%nat by lia. }
  replace (length (images (push σ [file_img]))) with (S (length (images σ))) in H
    by (simpl; rewrite length_app; simpl; lia).
  apply run_bind_inv in H as ([im dim] & σ3 & Hcrop & H).
  apply (square_crop_inv _ _ I0) in Hcrop as [Hdim Hcrop]; [|done].
  assert (∃ I, images σ3 !! im = Some I ∧ im_mode I = RGBA ∧
               images σ3 !! S (length (images σ)) = Some I0 ∧
               files σ3 = files σ ∧
               ((im_width I0 ≤ im_height I0 ∧ im = S (length (images σ)) ∧ I = I0) ∨
                (im_width I0 > im_height I0 ∧
                 ∃ min_x hf x0 x1,
                   int_truediv (im_width I0 - im_height I0) 2 = Ok min_x ∧
                   float_of_int (im_height I0) = Ok hf ∧
                   round_float min_x = Ok x0 ∧
                   round_float (fadd min_x hf) = Ok x1 ∧
                   I = crop_core I0 x0 0 x1 (im_height I0))))
    as (I & HI & HmodeI & HI0' & Hfiles3 & Hrel).
  { destruct Hcrop as [(Hle & -> & ->) | (Hgt & min_x & hf & x0 & x1 & ? & ? & ? & ? & -> & ->)].
    - exists I0. split_and!; try done. by left.
    - exists (crop_core I0 x0 0 x1 (im_height I0)). split_and!; try done.
      + apply lookup_push_new.
      + by apply lookup_push_old.
      + right. split; [done|]. by exists min_x, hf, x0, x1. }
  clear Hcrop.
  erewrite run_bind_ok in H by (by apply Image_size_run).
  cbn [size fst snd] in H.
  apply run_bind_inv in H as (r & σ4 & [Hr ->]%lift_inv & H).
  apply run_bind_inv in H as (pf & σ4 & [Hpf ->]%lift_inv & H).
  apply run_bind_inv in H as (im_padded & σ4 & Hmargin & H).
  set (P := margin_image I pf pf pf pf [255; 255; 255; 255]) in *.
  assert (0 ≤ im_width P ∧ 0 ≤ im_height P ∧
          im_padded = length (images σ3) ∧
          σ4 = logged (push σ3 [P])
                 [{| level := INFO;
                     msg := AddingMargin pf pf pf pf (ColorRGB 255 255 255) |}])
    as (HwP & HhP & -> & ->).
  { destruct (decide (im_width I + pf + pf < 0 ∨ im_height I + pf + pf < 0)) as [Hneg|Hpos].
    - rewrite (add_margin_raise _ _ I) in Hmargin by done. discriminate.
    - rewrite (add_margin_run _ _ I _ _ _ _ _ [255; 255; 255; 255]) in Hmargin;
        [| done | by rewrite HmodeI | lia | lia].
      injection Hmargin as <- <-. simpl. split_and!; try done; lia. }
  assert (HP : images (logged (push σ3 [P]) [{| level := INFO;
                 msg := AddingMargin pf pf pf pf (ColorRGB 255 255 255) |}])
               !! length (images σ3) = Some P) by apply lookup_push_new.
  erewrite run_bind_ok in H by (by apply np_asarray_run_RGBA).
  erewrite run_bind_ok in H by (by apply Image_size_run).
  cbn [size fst snd] in H.
  apply run_bind_inv in H as (polygon & σ5 & [Hpoly ->]%lift_inv & H).
  erewrite run_bind_ok in H by (by apply apply_mask_run).
  apply run_bind_inv in H as (path & σ6 & Hpersist & H).
  rewrite mret_run in H. injection H as <- <-.
  apply persist_inv in Hpersist as (img & Himg & Hnzw & Hnzh & -> & Hout & Himages).
  assert (img = masked_image P polygon) as ->.
  { simpl in Himg. rewrite lookup_app_r in Himg by (rewrite length_app; simpl; lia).
    rewrite length_app in Himg. simpl in Himg.
    replace (S (length (images σ3) + 1) - (length (images σ3) + 1))%nat
      with 1%nat in Himg by lia.
    by injection Himg as <-. }
  exists file_img, I. cbn [l_file_name l_loaded l_im l_dim l_width l_height l_factor
    l_r l_padding_factor l_im_padded l_im_array l_polygon l_mask_im l_mask
    l_new_im_array l_new_im l_output_path].
  rewrite Himages. simpl.
  assert (Hold : ∀ l im, images σ3 !! l = Some im →
            ((images σ3 ++ [P]) ++ [mask_image P polygon; masked_image P polygon]) !! l
            = Some im).
  { intros l im0 Hl. rewrite <- app_assoc.
    rewrite lookup_app_l; [done | by eapply lookup_lt_Some]. }
  split_and!; try done.
  - by apply Hold.
  - by apply Hold.
  - rewrite lookup_app_l by (rewrite length_app; simpl; lia).
    apply lookup_push_new.
  - rewrite lookup_app_r by done. by rewrite Nat.sub_diag.
Qed.

(** No candidate exists: the early return of line 57. *)
Lemma polycut_run_not_found σ name directory :
  first_file (files σ) (os_path_join directory name) extensions = None →
  polycut_run name directory σ =
    (Ok None,
     logged σ [{| level := INFO; msg := ProcessingImage name directory |};
               {| level := ERROR; msg := ImageNotFound name directory |}]).
Proof.
  intros Hnone. unfold polycut_run.
  erewrite run_bind_ok by apply logging_info_run.
  erewrite run_bind_ok by apply next_isfile_run.
  cbn [files logged]. rewrite Hnone. cbn [truthy negb].
  erewrite run_bind_ok by apply logging_error_run.
  by rewrite mret_run, logged_logged.
Qed.

(** A candidate exists: the run goes on with the first one. *)
Lemma polycut_run_found σ name directory p :
  first_file (files σ) (os_path_join directory name) extensions = Some p →
  polycut_run name directory σ =
    (ls ← process name directory p; mret (Some ls))
      (logged σ [{| level := INFO; msg := ProcessingImage name directory |}]).
Proof.
  intros Hsome. unfold polycut_run.
  erewrite run_bind_ok by apply logging_info_run.
  erewrite run_bind_ok by apply next_isfile_run.
  cbn [files logged]. rewrite Hsome.
  by rewrite (first_file_truthy _ _ _ Hsome).
Qed.

(** C7.  When no file <directory>/<name><ext> exists for any ext of
    [.png; .jpeg; .jpg], [polycut] logs the not-found error and returns
    normally: no exception, the file system is unchanged (so no
    <name>_hex.png is created) and no image is loaded or built. *)
Theorem polycut_missing_source σ name directory :
  (∀ ext, ext ∈ extensions →
     ∀ c, files σ !! (os_path_join directory name +:+ ext) ≠ Some (File c)) →
  polycut name directory σ =
    (Ok tt,
     {| images := images σ;
        files := files σ;
        logs := logs σ ++
                [{| level := INFO; msg := ProcessingImage name directory |};
                 {| level := ERROR; msg := ImageNotFound name directory |}] |}).
Proof.
  intros Hmissing. unfold polycut.
  erewrite run_bind_ok; [reflexivity|].
  apply polycut_run_not_found, first_file_None.
  intros ext Hin. unfold is_file.
  specialize (Hmissing ext Hin).
  destruct (files σ !! _) as [[|c]|]; [done | | done].
  by destruct (Hmissing c).
Qed.

(** A run of [polycut] that went past line 57 worked on the first existing
    candidate. *)
Lemma polycut_run_inv σ name directory ls σ' :
  polycut_run name directory σ = (Ok (Some ls), σ') →
  ∃ p, first_file (files σ) (os_path_join directory name) extensions = Some p ∧
       process name directory p
         (logged σ [{| level := INFO; msg := ProcessingImage name directory |}])
       = (Ok ls, σ').
Proof.
  intros Hrun.
  destruct (first_file (files σ) (os_path_join directory name) extensions)
    as [p|] eqn:Hfirst.
  - exists p. split; [done|].
    rewrite (polycut_run_found _ _ _ _ Hfirst) in Hrun.
    apply run_bind_inv in Hrun as (ls' & σ1 & Hproc & Hret).
    rewrite mret_run in Hret. by injection Hret as <- <-.
  - rewrite (polycut_run_not_found _ _ _ Hfirst) in Hrun. discriminate.
Qed.

(** C2.  When [polycut] succeeds, the image written to
    <directory>/<name>_hex.png is RGBA of size
    (w + 2·padding_factor, h + 2·padding_factor), where (w, h) is the size
    of the image after the square-crop step and padding_factor is what
    line 74 computes in binary64 from w; for every w from 0 to 2^32 that
    is floor(w * (20/17 - 1) / 2), the floor of the real number.  When the
    source image is not wider than high (a square N×N one in particular),
    (w, h) is its size. *)
Theorem polycut_output_size σ name directory ls σ' :
  polycut_run name directory σ = (Ok (Some ls), σ') →
  ∃ source I out,
    files σ !! l_file_name ls = Some (File (ImageData source)) ∧
    images σ' !! l_im ls = Some I ∧
    size I = (l_width ls, l_height ls) ∧
    (im_width source ≤ im_height source → size I = size source) ∧
    padding (l_width ls) = Ok (l_padding_factor ls) ∧
    (0 ≤ l_width ls ≤ 2 ^ 32 →
     l_padding_factor ls = Zfloor (IZR (l_width ls) * (20 / 17 - 1) / 2)) ∧
    files σ' !! os_path_join directory (name +:+ "_hex.png")
      = Some (File (ImageData out)) ∧
    im_mode out = RGBA ∧
    size out = (l_width ls + 2 * l_padding_factor ls,
                l_height ls + 2 * l_padding_factor ls) ∧
    (∀ N, size source = (N, N) →
          ∃ pf, padding N = Ok pf ∧ size out = (N + 2 * pf, N + 2 * pf) ∧
                (0 ≤ N ≤ 2 ^ 32 → pf = Zfloor (IZR N * (20 / 17 - 1) / 2))).
Proof.
  intros (p & _ & Hproc)%polycut_run_inv.
  apply process_inv in Hproc
    as (source & I & Hfile & Hname & _ & HI & _ & _ & Hrel & Hw & Hh & _ & _ & Hpf
        & _ & _ & _ & _ & _ & _ & _ & _ & _ & Hpath & Hout & _).
  cbn zeta in *. subst p.
  assert (Hfloor : ∀ w pf, padding w = Ok pf → 0 ≤ w ≤ 2 ^ 32 →
                     pf = Zfloor (IZR w * (20 / 17 - 1) / 2)).
  { intros w pf Hp Hsmall. rewrite floor_formula.
    rewrite (padding_value w Hsmall) in Hp. by injection Hp. }
  eexists source, I, _. rewrite <- Hpath.
  split_and!.
  - done.
  - done.
  - unfold size. by rewrite Hw, Hh.
  - intros Hle. destruct Hrel as [(_ & _ & ->) | (Hgt & _)]; [done|].
    simpl in Hgt. lia.
  - by rewrite Hw.
  - apply Hfloor. by rewrite Hw.
  - done.
  - done.
  - unfold size. simpl. rewrite Hw, Hh. f_equal; lia.
  - intros N [= HN1 HN2]. exists (l_padding_factor ls).
    destruct Hrel as [(_ & _ & ->) | (Hgt & _)]; [|simpl in Hgt; lia].
    simpl in *. rewrite HN1 in Hpf. split; [done|].
    split; [|by apply Hfloor].
    unfold size. simpl. rewrite HN1, HN2. f_equal; lia.
Qed.

(** C3.  When [polycut] succeeds on a well-formed source image, the image
    written has, at every pixel, the R, G and B values of the padded
    intermediate image, and its alpha is the mask value times 255, where the
    mask is 1 on the pixels that the rasteriser drew for the hexagon and 0 on
    the others: alpha is 255 inside and 0 outside. *)
Theorem polycut_alpha_only σ name directory ls σ' :
  polycut_run name directory σ = (Ok (Some ls), σ') →
  (∀ source, files σ !! l_file_name ls = Some (File (ImageData source)) →
             wf_image source ∧ wf_bands source) →
  ∃ P out M,
    images σ' !! l_im_padded ls = Some P ∧
    files σ' !! l_output_path ls = Some (File (ImageData out)) ∧
    size out = size P ∧
    l_mask ls = Array2 (im_height P) (im_width P) M ∧
    ∀ x y, 0 ≤ x < im_width P → 0 ≤ y < im_height P →
      ∃ r g b a m,
        getpixel P x y = Some [r; g; b; a] ∧
        at2 M (Z.to_nat x) (Z.to_nat y) = Some m ∧
        m = (if polygon_pixels (l_polygon ls) x y then 1 else 0) ∧
        getpixel out x y = Some [r; g; b; m * 255].
Proof.
  intros (p & _ & Hproc)%polycut_run_inv Hsource.
  apply process_inv in Hproc
    as (source & I & Hfile & Hname & _ & HI & HmodeI & _ & Hrel & _ & _ & _ & _ & _
        & HwP & HhP & HP & _ & _ & Hmask & _ & _ & _ & _ & Hout & _).
  cbn zeta in *. subst p.
  destruct (Hsource _ Hfile) as [Hwf Hbands].
  set (P := margin_image I _ _ _ _ _) in *.
  assert (wf_image I ∧ wf_bands I) as [HwfI HbandsI].
  { destruct Hrel as [(_ & _ & ->) | (_ & ? & ? & x0 & x1 & _ & _ & _ & _ & ->)].
    - split; [by apply wf_converted | by apply wf_bands_converted_RGBA].
    - split; [apply wf_crop_core |].
      by apply wf_bands_crop_core, wf_bands_converted_RGBA. }
  assert (wf_image P) as HwfP by (apply wf_margin_image; simpl in *; lia).
  assert (wf_bands P) as HbandsP
    by (apply wf_bands_margin_image; [by rewrite HmodeI | done]).
  exists P, (masked_image P (l_polygon ls)), (mask_grid P (l_polygon ls)).
  split_and!; try done.
  intros x y Hx Hy.
  destruct (getpixel_masked P (l_polygon ls) x y HwfP HbandsP HmodeI Hx Hy)
    as (r & g & b & a & Hp & Hq & Hm).
  exists r, g, b, a, (if polygon_pixels (l_polygon ls) x y then 1 else 0).
  split_and!; try done.
  rewrite Hq. by destruct (polygon_pixels _ _ _).
Qed.

Lemma factor_of_values width height :
  factor_of width height =
    if bool_decide (width > height) then one_over_sqrt3 else one_half.
Proof. unfold factor_of. by case_bool_decide. Qed.

Example one_half_value : one_half = S754_finite false 4503599627370496 (-53).
Proof. reflexivity. Qed.

Example one_over_sqrt3_value :
  one_over_sqrt3 = S754_finite false 5200308914369309 (-53).
Proof. reflexivity. Qed.


(** C8, amended.  The lookup tries [.png], [.jpeg], [.jpg] in this order
    and resolves to the first candidate that is an existing file, whether or
    not later candidates exist too; [polycut] then goes on with that file.
    The operation is aborted (the error is logged and nothing else is done)
    exactly when no candidate exists. *)
Theorem polycut_first_match σ name directory :
  ∃ found,
    next_isfile (os_path_join directory name) extensions σ = (Ok found, σ) ∧
    match found with
    | Some p =>
        (∃ i ext,
           extensions !! i = Some ext ∧
           p = os_path_join directory name +:+ ext ∧
           is_file (files σ) p = true ∧
           ∀ j ext', (j < i)%nat → extensions !! j = Some ext' →
             is_file (files σ) (os_path_join directory name +:+ ext') = false) ∧
        polycut_run name directory σ =
          (ls ← process name directory p; mret (Some ls))
            (logged σ [{| level := INFO; msg := ProcessingImage name directory |}])
    | None =>
        (∀ ext, ext ∈ extensions →
           is_file (files σ) (os_path_join directory name +:+ ext) = false) ∧
        polycut_run name directory σ =
          (Ok None,
           logged σ [{| level := INFO; msg := ProcessingImage name directory |};
                     {| level := ERROR; msg := ImageNotFound name directory |}])
    end.
Proof.
  exists (first_file (files σ) (os_path_join directory name) extensions).
  split; [apply next_isfile_run|].
  destruct (first_file _ _ _) as [p|] eqn:Hfirst.
  - split; [by apply first_file_Some | by apply polycut_run_found].
  - split; [by apply first_file_None | by apply polycut_run_not_found].
Qed.

Lemma vertex_binary64 r pw ph w h i :
  float_of_int pw = Ok w → float_of_int ph = Ok h → (i < 6)%nat →
  vertex r pw ph (Z.of_nat i) = Ok (float_vertex r w h i).
Proof.
  intros Hw Hh Hi. unfold vertex.
  cbn [ar_of_int Arith_binary64]. rewrite Hw, Hh.
  assert (float_of_int (Z.of_nat i) = Ok (Z2F (Z.of_nat i))) as ->.
  { do 6 (destruct i as [|i]; [reflexivity|]). lia. }
  reflexivity.
Qed.

(** In binary64 the loop yields six vertices, each by the formula of the
    loop body, when the padded width and height convert to floats, and
    raises otherwise. *)
Lemma hexagon_binary64 (r : float) pw ph vs :
  hexagon r pw ph = Ok vs →
  ∃ w h, float_of_int pw = Ok w ∧ float_of_int ph = Ok h ∧
         vs = float_vertex r w h <$> seq 0 6.
Proof.
  unfold hexagon.
  change (range 6) with (Z.of_nat <$> [0; 1; 2; 3; 4; 5]%nat).
  cbn [fmap list_fmap foldl].
  destruct (float_of_int pw) as [w|e] eqn:Hw.
  - destruct (float_of_int ph) as [h|e] eqn:Hh.
    + rewrite !(vertex_binary64 r pw ph w h) by (done || lia).
      intros [= <-]. by exists w, h.
    + unfold vertex. cbn [ar_of_int Arith_binary64]. rewrite Hw, Hh. discriminate.
  - unfold vertex. cbn [ar_of_int Arith_binary64]. rewrite Hw. discriminate.
Qed.

(** C4.  In every run of [polycut] the polygon has exactly six vertices,
    vertex [i] being [(r*cos(θ_i) + padded_width/2,
    r*sin(θ_i) + padded_height*0.89/2)] with [θ_i = i*2π/6], computed in
    binary64, where [padded_width = w + 2*padding_factor] and
    [padded_height = h + 2*padding_factor].  The vertices are not exactly
    on the circle of radius [r] about the centre
    [(padded_width/2, padded_height*0.89/2)], since every operation
    rounds.  When NumPy's [cos] and [sin] are accurate at the six angles
    and [dim] and the padded sides are at most [2^31] and [2^32], each
    coordinate of vertex [i] is within
    [tol = (r + padded_width + padded_height) * 2^-49] of the coordinate
    of the point at angle [θ_i] of that circle; so every vertex is at a
    distance from the centre within [2*tol] of [r], and consecutive
    vertices, the last and the first included, are separated by a rotation
    of 60 degrees about the centre up to [3*tol]. *)
Theorem polycut_hexagon σ name directory ls σ' :
  polycut_run name directory σ = (Ok (Some ls), σ') →
  let W := l_width ls + 2 * l_padding_factor ls in
  let H := l_height ls + 2 * l_padding_factor ls in
  (∃ P,
     images σ' !! l_im_padded ls = Some P ∧
     size P = (W, H) ∧
     length (l_polygon ls) = 6%nat ∧
     ∀ i, (i < 6)%nat →
       l_polygon ls !! i = Some (float_vertex (l_r ls) (Z2F W) (Z2F H) i)) ∧
  (accurate_trig → 0 ≤ l_dim ls ≤ 2 ^ 31 → W ≤ 2 ^ 32 → H ≤ 2 ^ 32 →
   let r := float_value (l_r ls) in
   let c := centre W H in
   let tol := ((r + IZR W + IZR H) * powerRZ 2 (-49))%R in
   is_finite (l_r ls) = true ∧ (0 <= r)%R ∧
   ∀ i, (i < 6)%nat →
     ∃ v v',
       l_polygon ls !! i = Some v ∧
       l_polygon ls !! (S i mod 6)%nat = Some v' ∧
       is_finite v.1 = true ∧ is_finite v.2 = true ∧
       (Rabs (float_value v.1 - (r * cos (angle i) + IZR W / 2)) <= tol)%R ∧
       (Rabs (float_value v.2 - (r * sin (angle i) + IZR H * (89 / 100) / 2)) <= tol)%R ∧
       (Rabs (sqrt ((float_value v.1 - c.1)² + (float_value v.2 - c.2)²) - r)
        <= 2 * tol)%R ∧
       (Rabs (float_value v'.1 - c.1
              - (cos (PI / 3) * (float_value v.1 - c.1)
                 - sin (PI / 3) * (float_value v.2 - c.2))) <= 3 * tol)%R ∧
       (Rabs (float_value v'.2 - c.2
              - (sin (PI / 3) * (float_value v.1 - c.1)
                 + cos (PI / 3) * (float_value v.2 - c.2))) <= 3 * tol)%R).
Proof.
  intros (p & _ & Hproc)%polycut_run_inv W H.
  apply process_inv in Hproc
    as (source & I & _ & _ & _ & _ & _ & _ & _ & Hw & Hh & Hfac & Hrad & _
        & HW0 & HH0 & HP & Hpoly & _ & _ & _ & _ & _ & _ & _ & HWne & HHne).
  cbn zeta in *.
  set (P := margin_image I (l_padding_factor ls) (l_padding_factor ls)
              (l_padding_factor ls) (l_padding_factor ls) [255; 255; 255; 255]) in *.
  assert (HPW : im_width P = W) by (unfold P, W; cbn; lia).
  assert (HPH : im_height P = H) by (unfold P, H; cbn; lia).
  change (im_width (masked_image P (l_polygon ls))) with (im_width P) in HWne.
  change (im_height (masked_image P (l_polygon ls))) with (im_height P) in HHne.
  clearbody P. rewrite HPW, HPH in *.
  apply hexagon_binary64 in Hpoly as (w & h & Hfw & Hfh & Hvs).
  assert (w = Z2F W) as ->.
  { unfold float_of_int in Hfw. destruct (is_finite (Z2F W)); by simplify_eq. }
  assert (h = Z2F H) as ->.
  { unfold float_of_int in Hfh. destruct (is_finite (Z2F H)); by simplify_eq. }
  assert (Hlook : ∀ i, (i < 6)%nat →
            l_polygon ls !! i = Some (float_vertex (l_r ls) (Z2F W) (Z2F H) i)).
  { intros i Hi. rewrite Hvs, list_lookup_fmap, lookup_seq_lt by done. done. }
  split.
  { exists P. split; [exact HP|]. split; [by unfold size; rewrite HPW, HPH|].
    split; [|exact Hlook]. by rewrite Hvs, length_fmap, length_seq. }
  intros Hacc Hdim HW HH.
  destruct (radius_bounds _ _ _ Hrad) as [Hfin [Hr0 Hr1]]; [|exact Hdim|].
  { rewrite Hfac, factor_of_values. case_bool_decide; [by right|by left]. }
  cbn zeta. split; [exact Hfin|]. split; [exact Hr0|].
  set (r := float_value (l_r ls)) in *.
  assert (Hclose : ∀ i, (i < 6)%nat →
            is_finite (float_vertex (l_r ls) (Z2F W) (Z2F H) i).1 = true ∧
            is_finite (float_vertex (l_r ls) (Z2F W) (Z2F H) i).2 = true ∧
            (Rabs (float_value (float_vertex (l_r ls) (Z2F W) (Z2F H) i).1
                   - (ideal_vertex r W H i).1)
             <= (r + IZR W + IZR H) * powerRZ 2 (-49))%R ∧
            (Rabs (float_value (float_vertex (l_r ls) (Z2F W) (Z2F H) i).2
                   - (ideal_vertex r W H i).2)
             <= (r + IZR W + IZR H) * powerRZ 2 (-49))%R).
  { intros i Hi.
    destruct (float_vertex_close (l_r ls) W H i Hacc Hi Hfin) as (F1 & F2 & E1 & E2);
      [rewrite Rabs_pos_eq by exact Hr0; exact Hr1|lia|lia|].
    fold r in E1, E2. rewrite (Rabs_pos_eq r) in E1, E2 by exact Hr0.
    assert (1 <= IZR W)%R by (apply (IZR_le 1 W); lia).
    assert (1 <= IZR H)%R by (apply (IZR_le 1 H); lia).
    rewrite tolerance_value.
    split; [exact F1|]. split; [exact F2|].
    split; (eapply Rle_trans; [eassumption|lra]). }
  intros i Hi.
  assert (Hi' : (S i mod 6 < 6)%nat) by (apply Nat.mod_upper_bound; lia).
  exists (float_vertex (l_r ls) (Z2F W) (Z2F H) i),
         (float_vertex (l_r ls) (Z2F W) (Z2F H) (S i mod 6)).
  destruct (Hclose i Hi) as (F1 & F2 & E1 & E2).
  destruct (Hclose _ Hi') as (_ & _ & E1' & E2').
  rewrite ideal_vertex_mod in E1', E2' by exact Hi.
  split; [by apply Hlook|]. split; [by apply Hlook|].
  split; [exact F1|]. split; [exact F2|].
  split; [exact E1|]. split; [exact E2|].
  split.
  - pose proof (distance_close _ _ _ _ (centre W H).1 (centre W H).2 _ E1 E2) as Hd.
    rewrite ideal_vertex_distance, (Rabs_pos_eq r) in Hd by exact Hr0. exact Hd.
  - destruct (ideal_vertex_rotation r W H i) as [Ex Ey].
    exact (rotation_close _ _ _ _ _ _ _ _ _ _ _ E1 E2 E1' E2' Ex Ey).
Qed.

End PolycutProofs.

(* ===================================================================== *)
(** * 21. Runs on the sample platform                                     *)
(* ===================================================================== *)

Lemma wf_gradient w h : wf_image (gradient w h) ∧ wf_bands (gradient w h).
Proof.
  split.
  - repeat split; simpl; try lia.
    + by rewrite length_fmap, length_seq, Nat2Z.id.
    + apply Forall_fmap, Forall_forall. intros y _. simpl.
      by rewrite length_fmap, length_seq, Nat2Z.id.
  - intros x y p. unfold gradient, at2. simpl.
    rewrite list_lookup_fmap.
    destruct (seq 0 h !! y) as [y'|]; [|done]. simpl.
    rewrite list_lookup_fmap.
    destruct (seq 0 w !! x) as [x'|]; [|done]. simpl.
    by intros [= <-].
Qed.

(** On widths below 2000 the binary64 computation of line 74 gives the
    exact value of floor(w * (20/17 - 1) / 2), that is floor(3w/34). *)
Example padding_exact_below_2000 :
  forallb (λ w, match padding w with Ok pf => pf =? 3 * w / 34 | Raise _ => false end)
          (range 2000) = true.
Proof. vm_compute. reflexivity. Qed.

(** Python's [round] on halves: 0.5, 1.5, 2.5 and 3.5. *)
Example round_ties_to_even :
  (x ← int_truediv 1 2; round_float x) = Ok 0 ∧
  (x ← int_truediv 3 2; round_float x) = Ok 2 ∧
  (x ← int_truediv 5 2; round_float x) = Ok 2 ∧
  (x ← int_truediv 7 2; round_float x) = Ok 4.
Proof. by vm_compute. Qed.

(** A 12x12 source: no crop, a padding of 1, a 14x14 result. *)
Lemma sample_run_12 :
  ∃ ls σ',
    polycut_run (platform := sample_platform) "test" "output" (disk (gradient 12 12))
      = (Ok (Some ls), σ') ∧
    l_file_name ls = "output/test.png" ∧
    l_width ls = 12 ∧ l_height ls = 12 ∧ l_padding_factor ls = 1 ∧
    l_dim ls = 12 ∧ l_output_path ls = "output/test_hex.png" ∧
    size <$> images σ' !! l_im ls = Some (12, 12) ∧
    size <$> images σ' !! l_im_padded ls = Some (14, 14).
Proof. eexists _, _. split; [vm_compute; reflexivity|]. by split_and!. Qed.

(** The image of the tests: no crop, a padding of 8. *)
Lemma sample_run_100 :
  ∃ ls σ',
    polycut_run (platform := sample_platform) "test" "output" (disk test_image)
      = (Ok (Some ls), σ') ∧
    l_file_name ls = "output/test.png" ∧
    l_width ls = 100 ∧ l_height ls = 100.
Proof. eexists _, _. split; [vm_compute; reflexivity|]. by split_and!. Qed.

Lemma polycut_output_size_witness :
  ∃ σ' out,
    polycut (platform := sample_platform) "test" "output" (disk test_image)
      = (Ok tt, σ') ∧
    files σ' !! "output/test_hex.png" = Some (File (ImageData out)) ∧
    size out = (116, 116).
Proof.
  destruct sample_run_100 as (ls & σ' & Hrun & _ & Hw & Hh).
  destruct (polycut_output_size (platform := sample_platform) _ _ _ _ _ Hrun)
    as (source & I & out & _ & _ & _ & _ & _ & Hfloor & Hout & _ & Hsize & _).
  exists σ', out. split_and!.
  - unfold polycut. erewrite run_bind_ok by exact Hrun. reflexivity.
  - exact Hout.
  - rewrite Hsize, Hfloor, Hw, Hh, floor_formula by (rewrite Hw; lia).
    reflexivity.
Defined.

Lemma polycut_alpha_only_witness :
  ∃ ls σ' P out,
    polycut_run (platform := sample_platform) "test" "output" (disk (gradient 12 12))
      = (Ok (Some ls), σ') ∧
    images σ' !! l_im_padded ls = Some P ∧
    files σ' !! l_output_path ls = Some (File (ImageData out)) ∧
    ∃ r g b a m,
      getpixel P 7 6 = Some [r; g; b; a] ∧
      m = (if sample_pixels (l_polygon ls) 7 6 then 1 else 0) ∧
      getpixel out 7 6 = Some [r; g; b; m * 255].
Proof.
  destruct sample_run_12 as (ls & σ' & Hrun & Hname & _ & _ & _ & _ & _ & _ & HsizeP).
  destruct (polycut_alpha_only (platform := sample_platform) _ _ _ _ _ Hrun)
    as (P & out & M & HP & Hout & Hsize & _ & Hpixels).
  { rewrite Hname. intros source [= <-]. apply wf_gradient. }
  rewrite HP in HsizeP. injection HsizeP as HwP HhP.
  destruct (Hpixels 7 6) as (r & g & b & a & m & Hp & _ & Hm & Hq); [lia | lia |].
  exists ls, σ', P, out.
  split; [exact Hrun|]. split; [exact HP|]. split; [exact Hout|].
  exists r, g, b, a, m. split; [exact Hp|]. split; [exact Hm | exact Hq].
Defined.

(** The run on the 12x12 sample: the radius is 6.0, the padded image is
    14x14, and the third vertex of the polygon. *)
Lemma sample_polygon_12 :
  ∃ ls σ',
    polycut_run (platform := sample_platform) "test" "output" (disk (gradient 12 12))
      = (Ok (Some ls), σ') ∧
    l_dim ls = 12 ∧ l_width ls = 12 ∧ l_height ls = 12 ∧ l_padding_factor ls = 1 ∧
    l_r ls = S754_finite false 6755399441055744 (-50) ∧
    l_polygon ls !! 2%nat
      = Some (S754_finite false 4503599627370498 (-50),
              S754_finite false 6432351974147510 (-49)).
Proof. eexists _, _. split; [vm_compute; reflexivity|]. by split_and!. Qed.

Lemma polycut_hexagon_witness :
  ∃ ls σ' v,
    polycut_run (platform := sample_platform) "test" "output" (disk (gradient 12 12))
      = (Ok (Some ls), σ') ∧
    float_value (l_r ls) = 6%R ∧
    l_polygon ls !! 2%nat = Some v ∧
    (Rabs (sqrt ((float_value v.1 - 7)² + (float_value v.2 - 14 * (89 / 100) / 2)²) - 6)
     <= 2 * ((6 + 14 + 14) * powerRZ 2 (-49)))%R.
Proof.
  destruct sample_polygon_12 as (ls & σ' & Hrun & Hdim & Hw & Hh & Hpf & Hr & Hv).
  destruct (polycut_hexagon (platform := sample_platform) _ _ _ _ _ Hrun) as [_ Hgeo].
  cbn zeta in Hgeo. rewrite Hdim, Hw, Hh, Hpf in Hgeo.
  destruct (Hgeo sample_accurate ltac:(lia) ltac:(lia) ltac:(lia)) as (_ & _ & Hall).
  destruct (Hall 2%nat ltac:(lia)) as (v & v' & Hv2 & _ & _ & _ & _ & _ & Hd & _).
  assert (Hr6 : float_value (l_r ls) = 6%R).
  { rewrite Hr. cbn [float_value cond_Zopp]. rewrite bpow_m50. lra. }
  exists ls, σ', v. split; [exact Hrun|]. split; [exact Hr6|]. split; [exact Hv2|].
  rewrite Hr6 in Hd. unfold centre in Hd. cbn [fst snd] in Hd.
  change (12 + 2 * 1) with 14 in Hd.
  replace (IZR 14 / 2)%R with 7%R in Hd by lra. exact Hd.
Defined.

(** The vertices are not on the circle: in the run on the 12x12 sample,
    with correctly rounded [cos] and [sin], the radius is 6, the centre is
    (7, 6.23), and the third vertex has neither the abscissa
    [r*cos(θ_2) + padded_width/2 = 4] nor the distance 6 from the centre. *)
Lemma polycut_hexagon_inexact :
  ∃ ls σ' v,
    polycut_run (platform := sample_platform) "test" "output" (disk (gradient 12 12))
      = (Ok (Some ls), σ') ∧
    accurate_trig (platform := sample_platform) ∧
    l_width ls + 2 * l_padding_factor ls = 14 ∧
    l_height ls + 2 * l_padding_factor ls = 14 ∧
    float_value (l_r ls) = 6%R ∧
    l_polygon ls !! 2%nat = Some v ∧
    float_value v.1 ≠ (6 * cos (angle 2) + 14 / 2)%R ∧
    sqrt ((float_value v.1 - 14 / 2)² + (float_value v.2 - 14 * (89 / 100) / 2)²) ≠ 6%R.
Proof.
  destruct sample_polygon_12 as (ls & σ' & Hrun & Hdim & Hw & Hh & Hpf & Hr & Hv).
  exists ls, σ', (S754_finite false 4503599627370498 (-50),
                  S754_finite false 6432351974147510 (-49)).
  split; [exact Hrun|]. split; [exact sample_accurate|].
  split; [lia|]. split; [lia|].
  split; [rewrite Hr; cbn [float_value cond_Zopp]; rewrite bpow_m50; lra|].
  split; [exact Hv|].
  destruct trig_values as (_ & _ & _ & _ & C2 & _).
  cbn [fst snd float_value cond_Zopp]. rewrite C2, bpow_m50, tolerance_value.
  split; [lra|].
  intros Hs.
  set (q := ((4503599627370498 * / 1125899906842624 - 14 / 2)²
             + (6432351974147510 * / 562949953421312 - 14 * (89 / 100) / 2)²)%R) in *.
  assert (0 <= q)%R as Hq by (unfold q, Rsqr; nra).
  pose proof (sqrt_sqrt q Hq) as Hsq. rewrite Hs in Hsq.
  unfold q, Rsqr in Hsq. lra.
Qed.


(** The crop of a 5x2 image: the box (1.5, 0, 3.5, 2) is rounded to
    (2, 0, 4, 2). *)
Example square_crop_5x2 :
  let '(r, σ) := square_crop 0%nat store_5x2 in
  r = Ok (1%nat, 2) ∧
  images σ !! 1%nat =
    Some {| im_mode := RGBA; im_width := 2; im_height := 2;
            im_data := [[[2; 0; 7; 9]; [3; 0; 7; 9]];
                        [[2; 1; 7; 9]; [3; 1; 7; 9]]] |}.
Proof. vm_compute. split; reflexivity. Qed.

Lemma polycut_missing_source_witness :
  polycut (platform := sample_platform) "test" "output" empty_disk =
    (Ok tt,
     {| images := [];
        files := files empty_disk;
        logs := [{| level := INFO; msg := ProcessingImage "test" "output" |};
                 {| level := ERROR; msg := ImageNotFound "test" "output" |}] |}).
Proof.
  apply (polycut_missing_source (platform := sample_platform) empty_disk "test" "output").
  intros ext Hin c.
  repeat (apply elem_of_cons in Hin as [-> | Hin]); [vm_compute; discriminate.. |].
  by apply elem_of_nil in Hin.
Defined.

(** Not what C8 says: with two candidates present the lookup resolves to
    the first, [test.png], and [polycut] runs to the end and writes
    [test_hex.png] from it. *)
Lemma polycut_two_candidates_proceeds :
  next_isfile "output/test" extensions two_candidates
    = (Ok (Some "output/test.png"), two_candidates) ∧
  is_file (files two_candidates) "output/test.jpg" = true ∧
  ∃ ls σ',
    polycut_run (platform := sample_platform) "test" "output" two_candidates
      = (Ok (Some ls), σ') ∧
    l_file_name ls = "output/test.png" ∧
    (l_width ls, l_height ls) = (2, 2) ∧
    is_file (files σ') "output/test_hex.png" = true.
Proof.
  split; [vm_compute; reflexivity|]. split; [reflexivity|].
  eexists _, _. split; [vm_compute; reflexivity|].
  split_and!; vm_compute; reflexivity.
Qed.

(** C10 fails on a 2x1 source.  [(width - height) / 2] is 0.5; Pillow rounds
    the box (0.5, 0, 1.5, 1) to (0, 0, 2, 1), since [round] takes ties to
    even, so the image after the crop is still 2x1: wider than high.  The
    factor is then 1/sqrt(3) and the radius is not dim/2. *)
Theorem polycut_crop_keeps_2x1 :
  (let '(r, σ) := square_crop 0%nat store_2x1 in
   r = Ok (1%nat, 1) ∧ size <$> images σ !! 1%nat = Some (2, 1)) ∧
  ∃ ls σ',
    polycut_run (platform := sample_platform) "test" "output" (disk (gradient 2 1))
      = (Ok (Some ls), σ') ∧
    l_dim ls = 1 ∧
    l_width ls = 2 ∧ l_height ls = 1 ∧
    l_factor ls = one_over_sqrt3 ∧
    l_r ls = one_over_sqrt3 ∧
    l_r ls ≠ one_half.
Proof.
  split; [vm_compute; split; reflexivity|].
  eexists _, _. split; [vm_compute; reflexivity|].
  cbn [l_dim l_width l_height l_factor l_r].
  split_and!; try reflexivity. discriminate.
Qed.

(** The test of the repository: a 100x100 image [test.png] in [output]
    yields [output/test_hex.png] (test_functions.py, [test_polycut]); it is
    116x116. *)
Example test_polycut :
  let σ := disk {| im_mode := RGBA; im_width := 100; im_height := 100;
                   im_data := replicate 100 (replicate 100 [255; 0; 0; 0]) |} in
  let '(r, σ') := polycut (platform := sample_platform) "test" "output" σ in
  r = Ok tt ∧
  match files σ' !! "output/test_hex.png" with
  | Some (File (ImageData out)) => size out = (116, 116)
  | _ => False
  end.
Proof. vm_compute. split; reflexivity. Qed.

(* ===================================================================== *)
(** * 22. [add_margin]: composition and failure                          *)
(* ===================================================================== *)

(** X1.  Two calls in a row, with non-negative margins and one colour, give
    the image that one call with the summed margins gives: the same mode,
    size and pixels. *)
Theorem add_margin_twice σ pil_img img t1 r1 b1 l1 t2 r2 b2 l2 color ink :
  images σ !! pil_img = Some img →
  getink (im_mode img) color = Ok ink →
  0 ≤ im_width img → 0 ≤ im_height img →
  0 ≤ t1 → 0 ≤ r1 → 0 ≤ b1 → 0 ≤ l1 →
  0 ≤ t2 → 0 ≤ r2 → 0 ≤ b2 → 0 ≤ l2 →
  ∃ mid σ1 result σ2 out once,
    add_margin pil_img t1 r1 b1 l1 color σ = (Ok mid, σ1) ∧
    add_margin mid t2 r2 b2 l2 color σ1 = (Ok result, σ2) ∧
    images σ2 !! result = Some out ∧
    once = margin_image img (t1 + t2) (r1 + r2) (b1 + b2) (l1 + l2) ink ∧
    im_mode out = im_mode once ∧
    size out = size once ∧
    ∀ x y, getpixel out x y = getpixel once x y.
Proof.
  intros Himg Hink Hw Hh Ht1 Hr1 Hb1 Hl1 Ht2 Hr2 Hb2 Hl2.
  set (mid := margin_image img t1 r1 b1 l1 ink).
  eexists _, _, _, _, _, _. split.
  { apply (add_margin_run _ _ img _ _ _ _ _ ink); [done | done | lia | lia]. }
  split.
  { apply (add_margin_run _ _ mid _ _ _ _ _ ink).
    - simpl. rewrite lookup_app_r by done. by rewrite Nat.sub_diag.
    - done.
    - simpl. lia.
    - simpl. lia. }
  split.
  { simpl. rewrite lookup_app_r by done. by rewrite Nat.sub_diag. }
  split; [reflexivity|]. split; [done|]. split.
  { unfold size. simpl. f_equal; lia. }
  intros x y.
  destruct (decide (0 ≤ x < im_width img + (r1 + r2) + (l1 + l2) ∧
                    0 ≤ y < im_height img + (t1 + t2) + (b1 + b2))) as [[Hx Hy]|Hout].
  - rewrite (getpixel_margin_image mid) by (simpl; lia).
    rewrite (getpixel_margin_image img) by lia.
    destruct (decide (0 ≤ x - l2 < im_width img + r1 + l1 ∧
                      0 ≤ y - t2 < im_height img + t1 + b1)) as [[Hx' Hy']|Hout'].
    + unfold mid. rewrite getpixel_margin_image by lia.
      by replace (x - l2 - l1) with (x - (l1 + l2)) by lia;
         replace (y - t2 - t1) with (y - (t1 + t2)) by lia.
    + destruct (getpixel mid (x - l2) (y - t2)) as [q|] eqn:E.
      { apply getpixel_inside in E. simpl in E. lia. }
      destruct (getpixel img (x - (l1 + l2)) (y - (t1 + t2))) as [q|] eqn:E'; [|done].
      apply getpixel_inside in E'. lia.
  - destruct (getpixel (margin_image mid _ _ _ _ _) x y) as [q|] eqn:E.
    { apply getpixel_inside in E. simpl in E. lia. }
    destruct (getpixel (margin_image img _ _ _ _ _) x y) as [q|] eqn:E'; [|done].
    apply getpixel_inside in E'. simpl in E'. lia.
Qed.

(** X2.  A call of [add_margin] that raises has changed nothing but the
    log: no image object is allocated or written to and no file is touched,
    whatever raised.  A tuple colour on an ["L"] image is such a call: the
    [TypeError] of [Image.new], when the new sides are not negative. *)
Theorem add_margin_failure σ pil_img img top right bottom left color :
  images σ !! pil_img = Some img →
  (∀ e σ',
     add_margin pil_img top right bottom left color σ = (Raise e, σ') →
     σ' = logged σ [{| level := INFO;
                       msg := AddingMargin top right bottom left color |}]) ∧
  (im_mode img = L → (∃ r g b, color = ColorRGB r g b) →
   0 ≤ im_width img + right + left → 0 ≤ im_height img + top + bottom →
   add_margin pil_img top right bottom left color σ =
     (Raise TypeError,
      logged σ [{| level := INFO;
                   msg := AddingMargin top right bottom left color |}])).
Proof.
  intros Himg.
  assert (Hink : ∀ e, getink (im_mode img) color = Raise e →
            0 ≤ im_width img + right + left → 0 ≤ im_height img + top + bottom →
            add_margin pil_img top right bottom left color σ =
              (Raise e,
               logged σ [{| level := INFO;
                            msg := AddingMargin top right bottom left color |}])).
  { intros e He Hw Hh. unfold add_margin.
    erewrite run_bind_ok by apply logging_info_run.
    erewrite run_bind_ok by (by apply Image_size_run).
    cbn [size].
    erewrite run_bind_ok
      by (unfold Image_mode; erewrite run_bind_ok by (by apply deref_ok); done).
    unfold Image_new. rewrite bool_decide_false by lia.
    rewrite He.
    erewrite run_bind_raise by (erewrite run_bind_raise by done; done).
    done. }
  split.
  - intros e σ' Hrun.
    destruct (decide (im_width img + right + left < 0 ∨
                      im_height img + top + bottom < 0)) as [Hneg|Hpos].
    + rewrite (add_margin_raise _ _ img) in Hrun by done. by injection Hrun as <- <-.
    + destruct (getink (im_mode img) color) as [ink|e'] eqn:He.
      * rewrite (add_margin_run _ _ img _ _ _ _ _ ink) in Hrun by (done || lia).
        discriminate.
      * rewrite (Hink e') in Hrun by (done || lia). by injection Hrun as <- <-.
  - intros Hmode (r & g & b & ->) Hw Hh. apply Hink; [|done|done].
    by rewrite Hmode.
Qed.

(* ===================================================================== *)
(** * 23. Runs of [polycut], forwards                                    *)
(* ===================================================================== *)

Lemma extends_refl σ : extends σ σ.
Proof. exists []. by rewrite app_nil_r. Qed.

Lemma extends_trans σ1 σ2 σ3 : extends σ1 σ2 → extends σ2 σ3 → extends σ1 σ3.
Proof. intros [a Ha] [b Hb]. exists (a ++ b). by rewrite Hb, Ha, app_assoc. Qed.

Lemma extends_push σ ims : extends σ (push σ ims).
Proof. by exists ims. Qed.

Lemma extends_lookup σ σ' l im :
  extends σ σ' → images σ !! l = Some im → images σ' !! l = Some im.
Proof. intros [extra ->] H. rewrite lookup_app_l; [done | by eapply lookup_lt_Some]. Qed.

Lemma log_grows_refl σ : log_grows σ σ.
Proof. exists []. by rewrite app_nil_r. Qed.

Lemma log_grows_trans σ1 σ2 σ3 : log_grows σ1 σ2 → log_grows σ2 σ3 → log_grows σ1 σ3.
Proof. intros [a Ha] [b Hb]. exists (a ++ b). by rewrite Hb, Ha, app_assoc. Qed.

Lemma Image_open_run path σ im :
  files σ !! path = Some (File (ImageData im)) →
  Image_open path σ = (Ok (length (images σ)), push σ [im]).
Proof.
  intros H. unfold Image_open. unfold mbind, M_bind, get_world. simpl. by rewrite H.
Qed.

Lemma Image_open_raise path σ :
  (∀ im, files σ !! path ≠ Some (File (ImageData im))) →
  Image_open path σ = (Raise OSError, σ).
Proof.
  intros H. unfold Image_open. unfold mbind, M_bind, get_world. simpl.
  destruct (files σ !! path) as [[|[im|]]|] eqn:E; try done.
  by destruct (H im).
Qed.

Lemma Image_crop_run im box σ src :
  images σ !! im = Some src →
  Image_crop im box σ =
    match crop_image src box with
    | Ok c => (Ok (length (images σ)), push σ [c])
    | Raise e => (Raise e, σ)
    end.
Proof.
  intros Him. destruct box as [[[b0 b1] b2] b3]. unfold Image_crop, crop_image.
  destruct (pynum_ltb b2 b0); [done|].
  destruct (pynum_ltb b3 b1); [done|].
  erewrite run_bind_ok by (by apply deref_ok).
  destruct (py_round b0) as [x0|e]; [|done].
  erewrite run_bind_ok by apply lift_run.
  destruct (py_round b1) as [y0|e]; [|done].
  erewrite run_bind_ok by apply lift_run.
  destruct (py_round b2) as [x1|e]; [|done].
  erewrite run_bind_ok by apply lift_run.
  destruct (py_round b3) as [y1|e]; [|done].
  erewrite run_bind_ok by apply lift_run.
  done.
Qed.

Lemma square_crop_run im σ loaded :
  images σ !! im = Some loaded →
  square_crop im σ =
    match cropped loaded with
    | Raise e => (Raise e, σ)
    | Ok c =>
        if bool_decide (im_width loaded > im_height loaded)
        then (Ok (length (images σ), Z.min (im_width loaded) (im_height loaded)),
              push σ [c])
        else (Ok (im, Z.min (im_width loaded) (im_height loaded)), σ)
    end.
Proof.
  intros Him. unfold square_crop, cropped.
  erewrite run_bind_ok by (by apply Image_size_run).
  cbn [size fst snd]. case_bool_decide as Hwide; [|done].
  destruct (int_truediv _ 2) as [min_x|e]; [|done].
  erewrite run_bind_ok by apply lift_run.
  destruct (float_of_int _) as [h|e]; [|done].
  erewrite run_bind_ok by apply lift_run.
  cbn [mbind Res_bind].
  set (box := (PFloat min_x, PInt 0, PFloat (fadd min_x h), PInt (im_height loaded))).
  pose proof (Image_crop_run im box σ loaded Him) as Hc.
  destruct (crop_image loaded box) as [c|e].
  - erewrite run_bind_ok by exact Hc. done.
  - erewrite run_bind_raise by exact Hc. done.
Qed.

Lemma cropped_inv loaded c :
  cropped loaded = Ok c →
  (im_width loaded ≤ im_height loaded ∧ c = loaded) ∨
  (im_width loaded > im_height loaded ∧
   ∃ x0 x1, c = crop_core loaded x0 0 x1 (im_height loaded)).
Proof.
  unfold cropped. case_bool_decide as Hwide.
  - destruct (int_truediv _ 2) as [min_x|e]; [|done].
    destruct (float_of_int _) as [h|e]; [|done].
    cbn [mbind Res_bind crop_image].
    destruct (pynum_ltb _ _); [done|].
    destruct (pynum_ltb _ _); [done|].
    cbn [py_round].
    destruct (round_float min_x) as [x0|e]; [|done].
    destruct (round_float (fadd min_x h)) as [x1|e]; [|done].
    intros [= <-]. right. split; [done|]. by exists x0, x1.
  - intros [= <-]. left. split; [lia|done].
Qed.

Lemma cropped_mode loaded c : cropped loaded = Ok c → im_mode c = im_mode loaded.
Proof.
  intros [[_ ->]|[_ (x0 & x1 & ->)]]%cropped_inv; done.
Qed.

(** ** Paths *)

Lemma append_cons x (a b : string) : String x a +:+ b = String x (a +:+ b).
Proof. reflexivity. Qed.

Lemma append_assoc (a b c : string) : (a +:+ b) +:+ c = a +:+ (b +:+ c).
Proof. induction a as [|x a IH]; [done|]. rewrite !append_cons. by f_equal. Qed.

Lemma append_empty_r (a : string) : a +:+ "" = a.
Proof. induction a as [|x a IH]; [done|]. rewrite append_cons. by f_equal. Qed.

Lemma startswith_sep_append (b s : string) :
  startswith_sep s = false → startswith_sep (b +:+ s) = startswith_sep b.
Proof. by destruct b. Qed.

(** A suffix that does not start with the separator can be added before or
    after the join. *)
Lemma os_path_join_suffix (a b s : string) :
  startswith_sep s = false →
  os_path_join a (b +:+ s) = os_path_join a b +:+ s.
Proof.
  intros Hs. unfold os_path_join.
  rewrite startswith_sep_append by done.
  destruct (startswith_sep b); [done|].
  destruct (bool_decide (a = "") || endswith_sep a); by rewrite !append_assoc.
Qed.

Lemma output_path_stem name directory :
  output_path name directory = os_path_join directory name +:+ "_hex.png".
Proof. by apply os_path_join_suffix. Qed.

Lemma output_path_not_candidate name directory ext :
  ext ∈ extensions → output_path name directory ≠ os_path_join directory name +:+ ext.
Proof.
  rewrite output_path_stem. intros Hext Heq.
  apply String.app_inj in Heq. subst ext.
  unfold extensions in Hext.
  repeat (apply elem_of_cons in Hext as [Hext|Hext]; [discriminate|]).
  by apply elem_of_nil in Hext.
Qed.

(** ** The file system *)

Lemma with_directory_lookup_ne fs directory p :
  p ≠ directory → with_directory fs directory !! p = fs !! p.
Proof.
  intros Hne. unfold with_directory. case_bool_decide; [done|].
  by rewrite lookup_insert_ne.
Qed.

Lemma with_directory_lookup_Some fs directory p :
  is_Some (fs !! p) → with_directory fs directory !! p = fs !! p.
Proof.
  intros Hp. unfold with_directory. case_bool_decide as Hd; [done|].
  rewrite lookup_insert_ne; [done|]. by intros ->.
Qed.

Lemma with_directory_is_Some fs directory p :
  is_Some (fs !! p) → is_Some (with_directory fs directory !! p).
Proof. intros Hp. by rewrite with_directory_lookup_Some. Qed.

Lemma with_directory_exists fs directory :
  is_Some (with_directory fs directory !! directory).
Proof.
  unfold with_directory. case_bool_decide; [done|].
  rewrite lookup_insert_eq. by eexists.
Qed.

Lemma with_directory_id fs directory :
  is_Some (fs !! directory) → with_directory fs directory = fs.
Proof. intros H. unfold with_directory. by rewrite bool_decide_true. Qed.

Lemma is_file_with_directory fs directory p :
  is_file (with_directory fs directory) p = is_file fs p.
Proof.
  unfold is_file, with_directory. case_bool_decide as Hd; [done|].
  destruct (decide (p = directory)) as [->|Hne].
  - rewrite lookup_insert_eq.
    destruct (fs !! directory) eqn:E; [|done]. destruct Hd. by eexists.
  - by rewrite lookup_insert_ne.
Qed.

Lemma is_file_Some fs p :
  is_file fs p = true ↔ ∃ c, fs !! p = Some (File c).
Proof.
  unfold is_file. destruct (fs !! p) as [[|c]|]; split; try done.
  - intros [c ?]. done.
  - by exists c.
  - intros [c ?]. done.
Qed.

Lemma first_file_ext fs fs' file_path exts :
  (∀ ext, ext ∈ exts → is_file fs' (file_path +:+ ext) = is_file fs (file_path +:+ ext)) →
  first_file fs' file_path exts = first_file fs file_path exts.
Proof.
  induction exts as [|ext exts IH]; intros H; [done|].
  simpl. rewrite H by (apply elem_of_cons; by left). rewrite IH; [done|].
  intros e He. apply H, elem_of_cons. by right.
Qed.

Lemma first_file_candidate fs file_path exts p :
  first_file fs file_path exts = Some p →
  ∃ ext c, ext ∈ exts ∧ p = file_path +:+ ext ∧ fs !! p = Some (File c).
Proof.
  intros (i & ext & Hi & -> & Hfile & _)%first_file_Some.
  apply is_file_Some in Hfile as [c Hc].
  exists ext, c. split; [by eapply list_elem_of_lookup_2 | done].
Qed.

Section ForwardRuns.

Context {platform : Platform}.

Lemma os_path_exists_run path σ :
  os_path_exists path σ = (Ok (bool_decide (is_Some (files σ !! path))), σ).
Proof. done. Qed.

Lemma Image_save_run l path σ img :
  images σ !! l = Some img →
  Image_save l path σ =
    match files σ !! path with
    | Some Dir => (Raise OSError, σ)
    | old =>
        if bool_decide (im_width img = 0 ∨ im_height img = 0) then
          (Raise SystemError,
           {| images := images σ;
              files := match old with
                       | Some _ => <[path := File OtherData]> (files σ)
                       | None => files σ
                       end;
              logs := logs σ |})
        else
          (Ok tt, {| images := images σ;
                     files := <[path := File (ImageData img)]> (files σ);
                     logs := logs σ |})
    end.
Proof.
  intros Himg. unfold Image_save.
  erewrite run_bind_ok by (by apply deref_ok).
  unfold mbind, M_bind, get_world. simpl.
  destruct (files σ !! path) as [[|c]|]; [done| |];
    case_bool_decide; simpl; try done.
  by destruct σ.
Qed.

(** Lines 96-102 on every world: the three ways to fail and the result. *)
Lemma persist_run new_im name directory σ img :
  images σ !! new_im = Some img →
  persist new_im name directory σ =
    if bool_decide (files σ !! directory = None ∧ directory = "")
    then (Raise OSError, σ)
    else
      let fs := with_directory (files σ) directory in
      let lg := logs σ ++
                (if bool_decide (is_Some (files σ !! directory)) then []
                 else [{| level := INFO; msg := CreatedDirectory directory |}]) in
      match fs !! output_path name directory with
      | Some Dir => (Raise OSError, {| images := images σ; files := fs; logs := lg |})
      | old =>
          if bool_decide (im_width img = 0 ∨ im_height img = 0) then
            (Raise SystemError,
             {| images := images σ;
                files := match old with
                         | Some _ => <[output_path name directory := File OtherData]> fs
                         | None => fs
                         end;
                logs := lg |})
          else
            (Ok (output_path name directory),
             {| images := images σ;
                files := <[output_path name directory := File (ImageData img)]> fs;
                logs := lg ++ [{| level := INFO;
                                  msg := SavedHexagonalImage (output_path name directory) |}] |})
      end.
Proof.
  intros Himg. unfold persist, with_directory. fold (output_path name directory).
  erewrite run_bind_ok by apply os_path_exists_run.
  case_bool_decide as Hex; cbn [negb].
  - rewrite bool_decide_false by (intros [Hn _]; rewrite Hn in Hex; by destruct Hex).
    erewrite run_bind_ok by apply mret_run.
    cbn zeta. rewrite app_nil_r.
    pose proof (Image_save_run _ (output_path name directory) _ img Himg) as Hs.
    destruct (files σ !! output_path name directory) as [[|c]|].
    + erewrite run_bind_raise by exact Hs. by destruct σ.
    + case_bool_decide.
      * erewrite run_bind_raise by exact Hs. done.
      * erewrite run_bind_ok by exact Hs. done.
    + case_bool_decide.
      * erewrite run_bind_raise by exact Hs. by destruct σ.
      * erewrite run_bind_ok by exact Hs. done.
  - assert (files σ !! directory = None) as Hnone.
    { destruct (files σ !! directory) eqn:E; [|done]. destruct Hex. by eexists. }
    unfold os_makedirs.
    case_bool_decide as Hempty.
    + destruct Hempty as [_ ->].
      unfold mbind, M_bind, get_world. simpl.
      done.
    + assert (directory ≠ "") by (intros ->; by destruct Hempty).
      erewrite run_bind_ok.
      2:{ unfold mbind, M_bind, get_world. simpl.
          rewrite bool_decide_false by (intros [?|?]; done).
          unfold set_files. simpl. reflexivity. }
      cbn zeta.
      set (σ1 := {| images := images σ; files := <[directory:=Dir]> (files σ);
                    logs := logs σ ++ [{| level := INFO;
                                          msg := CreatedDirectory directory |}] |}).
      pose proof (Image_save_run _ (output_path name directory) σ1 img Himg) as Hs.
      simpl files in Hs.
      destruct (<[directory:=Dir]> (files σ) !! output_path name directory) as [[|c]|].
      * erewrite run_bind_raise by exact Hs. done.
      * case_bool_decide.
        -- erewrite run_bind_raise by exact Hs. done.
        -- erewrite run_bind_ok by exact Hs. done.
      * case_bool_decide.
        -- erewrite run_bind_raise by exact Hs. done.
        -- erewrite run_bind_ok by exact Hs. done.
Qed.

(** Lines 59-94 on every world that holds an image at [f]: the run fails
    as [hexagon_image] does, or reaches line 96 with the image it gives
    in a new object.  Up to there no file is touched and no existing
    image object is changed. *)
Lemma process_run name directory f σ source :
  files σ !! f = Some (File (ImageData source)) →
  ∃ σ1, extends σ σ1 ∧ files σ1 = files σ ∧ log_grows σ σ1 ∧
    match hexagon_image source with
    | Raise e => process name directory f σ = (Raise e, σ1)
    | Ok out =>
        ∃ new_im (mk : string → Locals) pf,
          images σ1 !! new_im = Some out ∧
          (∀ path, l_output_path (mk path) = path ∧ l_file_name (mk path) = f ∧
                   l_padding_factor (mk path) = pf) ∧
          logs σ1 = logs σ ++
                    [{| level := INFO;
                        msg := AddingMargin pf pf pf pf (ColorRGB 255 255 255) |}] ∧
          process name directory f σ =
            (path ← persist new_im name directory; mret (mk path)) σ1
    end.
Proof.
  intros Hf. unfold process, hexagon_image.
  erewrite run_bind_ok by (by apply Image_open_run).
  erewrite run_bind_ok by apply Image_convert_run, lookup_push_new.
  rewrite push_push. cbn [app].
  set (I0 := converted source RGBA).
  set (σ2 := push σ [source; I0]).
  replace (length (images (push σ [source]))) with (S (length (images σ)))
    by (simpl; rewrite length_app; simpl; lia).
  assert (HI0 : images σ2 !! S (length (images σ)) = Some I0).
  { unfold σ2. simpl. rewrite lookup_app_r by lia.
    by replace (S (length (images σ)) - length (images σ))%nat with 1%nat by lia. }
  assert (Hext2 : extends σ σ2) by apply extends_push.
  pose proof (square_crop_run _ σ2 I0 HI0) as Hsq.
  destruct (cropped I0) as [I|e] eqn:HI; cbn [mbind Res_bind].
  2:{ exists σ2. split_and!; [done | done | by exists []; rewrite app_nil_r |].
      erewrite run_bind_raise by exact Hsq. done. }
  assert (HmodeI : im_mode I = RGBA) by (by rewrite (cropped_mode _ _ HI)).
  assert (∃ im σ3,
            square_crop (S (length (images σ))) σ2 =
              (Ok (im, Z.min (im_width I0) (im_height I0)), σ3) ∧
            images σ3 !! im = Some I ∧ extends σ σ3 ∧
            files σ3 = files σ ∧ logs σ3 = logs σ)
    as (im & σ3 & Hsq' & Him & Hext3 & Hfiles3 & Hlogs3).
  { case_bool_decide as Hwide.
    - eexists _, _. split; [exact Hsq|]. split_and!; try done.
      + apply lookup_push_new.
      + eapply extends_trans; [exact Hext2 | apply extends_push].
    - apply cropped_inv in HI as [[_ ->]|[Hgt _]]; [|lia].
      eexists _, _. split; [exact Hsq|]. done. }
  clear Hsq.
  erewrite run_bind_ok by exact Hsq'. cbn beta iota.
  erewrite run_bind_ok by (by apply Image_size_run).
  cbn [size fst snd].
  destruct (radius _ _) as [r|e].
  2:{ exists σ3. split_and!; [done | done | exists []; by rewrite app_nil_r, Hlogs3 |].
      done. }
  erewrite run_bind_ok by apply lift_run.
  destruct (padding _) as [pf|e].
  2:{ exists σ3. split_and!; [done | done | exists []; by rewrite app_nil_r, Hlogs3 |].
      done. }
  erewrite run_bind_ok by apply lift_run. cbn [mbind Res_bind].
  set (record := {| level := INFO;
                    msg := AddingMargin pf pf pf pf (ColorRGB 255 255 255) |}).
  case_bool_decide as Hneg.
  { eexists. split_and!; [| | |erewrite run_bind_raise;
      [reflexivity | by apply (add_margin_raise _ _ I)]]; simpl; try done.
    by exists [record]; rewrite Hlogs3. }
  set (P := margin_image I pf pf pf pf [255; 255; 255; 255]).
  set (σ4 := {| images := images σ3 ++ [P]; files := files σ3;
                logs := logs σ3 ++ [record] |}).
  assert (Hmargin : add_margin im pf pf pf pf (ColorRGB 255 255 255) σ3 =
                    (Ok (length (images σ3)), σ4)).
  { apply (add_margin_run _ _ I); [done | by rewrite HmodeI | lia | lia]. }
  assert (HP : images σ4 !! length (images σ3) = Some P).
  { unfold σ4. simpl. rewrite lookup_app_r by done. by rewrite Nat.sub_diag. }
  assert (Hext4 : extends σ σ4).
  { eapply extends_trans; [exact Hext3|]. by exists [P]. }
  assert (Hlog4 : log_grows σ σ4) by (exists [record]; simpl; by rewrite Hlogs3).
  erewrite run_bind_ok by exact Hmargin.
  erewrite run_bind_ok by (by apply np_asarray_run_RGBA).
  erewrite run_bind_ok by (by apply Image_size_run).
  cbn [size fst snd].
  assert (0 ≤ im_width P ∧ 0 ≤ im_height P) as [HwP HhP] by (simpl; lia).
  destruct (hexagon r (im_width P) (im_height P)) as [polygon|e].
  2:{ exists σ4. split_and!; done. }
  erewrite run_bind_ok by apply lift_run.
  erewrite run_bind_ok by (by apply apply_mask_run).
  cbn beta iota.
  exists (push σ4 [mask_image P polygon; masked_image P polygon]).
  split_and!.
  - eapply extends_trans; [exact Hext4 | apply extends_push].
  - simpl. done.
  - exact Hlog4.
  - eexists (S (length (images σ4))), _, pf. split; [|split; [|split]].
    4: reflexivity.
    + simpl. rewrite lookup_app_r by lia.
      by replace (S (length (images σ3 ++ [P])) - length (images σ3 ++ [P]))%nat
        with 1%nat by lia.
    + intros path. split_and!; reflexivity.
    + simpl. by rewrite Hlogs3.
Qed.

Lemma log_grows_more σ σ1 ims fs rs :
  log_grows σ σ1 →
  log_grows σ {| images := ims; files := fs; logs := logs σ1 ++ rs |}.
Proof. intros [a Ha]. exists (a ++ rs). simpl. by rewrite Ha, app_assoc. Qed.

Lemma polycut_run_outcome name directory σ :
  ∃ r σ', polycut_run name directory σ = (r, σ') ∧
          polycut_outcome name directory (files σ) r (files σ') ∧
          extends σ σ' ∧
          log_grows (logged σ [{| level := INFO;
                                  msg := ProcessingImage name directory |}]) σ'.
Proof.
  set (rec0 := {| level := INFO; msg := ProcessingImage name directory |}).
  destruct (first_file (files σ) (os_path_join directory name) extensions)
    as [p|] eqn:Hfirst.
  2:{ eexists _, _. split; [by apply polycut_run_not_found|].
      simpl. split_and!; [by apply NotFound | by exists []; rewrite app_nil_r |].
      eexists [_]. simpl. by rewrite <- app_assoc. }
  rewrite (polycut_run_found _ _ _ p Hfirst). fold rec0.
  set (σ0 := logged σ [rec0]).
  destruct (first_file_candidate _ _ _ _ Hfirst) as (ext & c & Hext & Hp & Hc).
  destruct c as [source|].
  2:{ eexists _, _. split.
      - apply run_bind_raise. unfold process. apply run_bind_raise.
        apply Image_open_raise. intros im. simpl. by rewrite Hc.
      - simpl. split_and!; [by eapply Undecodable | by exists []; rewrite app_nil_r |].
        apply log_grows_refl. }
  destruct (process_run name directory p σ0 source Hc)
    as (σ1 & Hext1 & Hfiles1 & Hlog1 & Hrun).
  pose proof Hlog1 as Hl1.
  simpl in Hfiles1.
  destruct (hexagon_image source) as [out|e] eqn:Hout.
  2:{ eexists _, _. split; [by apply run_bind_raise|].
      rewrite Hfiles1. split_and!; [by eapply Unprocessable | done | done]. }
  destruct Hrun as (new_im & mk & pf & Hnew & Hmk & _ & Hrun).
  unfold mbind at 1, M_bind at 1. rewrite Hrun.
  unfold mbind at 1, M_bind at 1.
  rewrite (persist_run _ _ _ _ out Hnew). rewrite Hfiles1.
  case_bool_decide as Hnodir.
  { eexists _, _. split; [reflexivity|]. rewrite Hfiles1.
    split_and!; [by eapply NoDirectory | done | done]. }
  cbn zeta.
  destruct (with_directory (files σ) directory !! output_path name directory)
    as [[|c]|] eqn:Hold.
  - eexists _, _. split; [reflexivity|]. simpl.
    split_and!; [by eapply OutputIsDirectory | done |].
    by apply log_grows_more.
  - case_bool_decide as Hzero.
    + eexists _, _. split; [reflexivity|]. simpl.
      split_and!; [| done |].
      * pose proof (EmptyImage name directory (files σ) p source out) as H.
        rewrite Hold in H. apply H; try done.
      * by apply log_grows_more.
    + eexists _, _. split; [rewrite mret_run; reflexivity|]. simpl.
      split_and!; [| done |].
      * eapply Saved; try done; try apply Hmk; try lia. by rewrite Hold.
      * rewrite <- app_assoc. by apply log_grows_more.
  - case_bool_decide as Hzero.
    + eexists _, _. split; [reflexivity|]. simpl.
      split_and!; [| done |].
      * pose proof (EmptyImage name directory (files σ) p source out) as H.
        rewrite Hold in H. apply H; try done.
      * by apply log_grows_more.
    + eexists _, _. split; [rewrite mret_run; reflexivity|]. simpl.
      split_and!; [| done |].
      * eapply Saved; try done; try apply Hmk; try lia. by rewrite Hold.
      * rewrite <- app_assoc. by apply log_grows_more.
Qed.

(** What a run that reached the last line found and left. *)
Lemma polycut_run_saved name directory σ ls σ' :
  polycut_run name directory σ = (Ok (Some ls), σ') →
  ∃ p source out,
    first_file (files σ) (os_path_join directory name) extensions = Some p ∧
    files σ !! p = Some (File (ImageData source)) ∧
    hexagon_image source = Ok out ∧
    ¬ (files σ !! directory = None ∧ directory = "") ∧
    with_directory (files σ) directory !! output_path name directory ≠ Some Dir ∧
    im_width out ≠ 0 ∧ im_height out ≠ 0 ∧
    l_file_name ls = p ∧ l_output_path ls = output_path name directory ∧
    files σ' = written_files (files σ) name directory out.
Proof.
  intros Hrun.
  destruct (polycut_run_outcome name directory σ) as (r & σ0 & Hr & Hout & _).
  rewrite Hrun in Hr. injection Hr as <- <-.
  inversion Hout; subst. by exists (l_file_name ls), source, out.
Qed.

(** The conditions under which the run reaches the last line. *)
Lemma polycut_run_saves name directory σ p source out :
  first_file (files σ) (os_path_join directory name) extensions = Some p →
  files σ !! p = Some (File (ImageData source)) →
  hexagon_image source = Ok out →
  im_width out ≠ 0 → im_height out ≠ 0 →
  ¬ (files σ !! directory = None ∧ directory = "") →
  with_directory (files σ) directory !! output_path name directory ≠ Some Dir →
  ∃ ls σ',
    polycut_run name directory σ = (Ok (Some ls), σ') ∧
    l_file_name ls = p ∧
    l_output_path ls = output_path name directory ∧
    files σ' = written_files (files σ) name directory out ∧
    extends σ σ'.
Proof.
  intros Hfirst Hp Hout Hw Hh Hdir Hnodir.
  destruct (polycut_run_outcome name directory σ) as (r & σ' & Hr & Hcase & Hext & _).
  inversion Hcase as
    [ Hf | p' Hf Hp' | p' s' e Hf Hp' He | p' s' o' Hf Hp' Ho' Hd
    | p' s' o' Hf Hp' Ho' Hd Hod | p' s' o' Hf Hp' Ho' Hd Hod Hz
    | p' s' o' ls Hf Hp' Ho' Hd Hod Hw' Hh' Hn Ho ];
    rewrite Hfirst in Hf; try discriminate; injection Hf as <-;
    rewrite Hp in Hp'; try discriminate; injection Hp' as <-.
  - congruence.
  - done.
  - done.
  - rewrite Hout in Ho'. injection Ho' as <-. lia.
  - rewrite Hout in Ho'. injection Ho' as <-.
    exists ls, σ'. subst r. split_and!; try done.
Qed.

(** The file system that any run leaves, case by case. *)
Lemma polycut_outcome_frame name directory fs r fs' :
  polycut_outcome name directory fs r fs' →
  (∀ p, p ≠ output_path name directory →
        p ≠ directory ∨ is_Some (fs !! p) → fs' !! p = fs !! p) ∧
  (∀ p, is_Some (fs !! p) → is_Some (fs' !! p)).
Proof.
  assert (Hwd : ∀ p, p ≠ directory ∨ is_Some (fs !! p) →
                     with_directory fs directory !! p = fs !! p).
  { intros p [?|?]; [by apply with_directory_lookup_ne
                    | by apply with_directory_lookup_Some]. }
  assert (Hins : ∀ c p, is_Some (fs !! p) →
            is_Some (<[output_path name directory := c]>
                       (with_directory fs directory) !! p)).
  { intros c p Hp. destruct (decide (p = output_path name directory)) as [->|Hne].
    - rewrite lookup_insert_eq. by eexists.
    - rewrite lookup_insert_ne by done. by apply with_directory_is_Some. }
  destruct 1; try (split; [done | done]).
  - split; [intros; by apply Hwd | apply with_directory_is_Some].
  - destruct (with_directory fs directory !! output_path name directory) eqn:E.
    + split; [|apply Hins]. intros q Hq Hq'. rewrite lookup_insert_ne by done.
      by apply Hwd.
    + split; [intros; by apply Hwd | apply with_directory_is_Some].
  - unfold written_files. split; [|apply Hins].
    intros q Hq Hq'. rewrite lookup_insert_ne by done. by apply Hwd.
Qed.

End ForwardRuns.

(* ===================================================================== *)
(** * 24. The exceptions of the arithmetic                               *)
(* ===================================================================== *)

Lemma float_of_int_exn i e : float_of_int i = Raise e → e = OverflowError.
Proof. unfold float_of_int. destruct (is_finite _); congruence. Qed.

Lemma int_truediv_exn a b e :
  b ≠ 0 → int_truediv a b = Raise e → e = OverflowError.
Proof.
  intros Hb. unfold int_truediv.
  destruct (b =? 0) eqn:E; [lia|].
  destruct (a =? 0); [done|].
  destruct (SFdiv_core_binary _ _ _ _ _ _) as [[q e'] l].
  destruct (is_finite _); congruence.
Qed.

Lemma round_float_exn x e : round_float x = Raise e → arithmetic_error e.
Proof.
  unfold arithmetic_error.
  destruct x as [s|s| |s m ex]; simpl; try congruence.
  - intros [= <-]. by left.
  - intros [= <-]. by right.
  - destruct (0 <=? ex); congruence.
Qed.

Lemma py_int_exn x e : py_int x = Raise e → arithmetic_error e.
Proof.
  unfold arithmetic_error.
  destruct x as [s|s| |s m ex]; simpl; try congruence.
  - intros [= <-]. by left.
  - intros [= <-]. by right.
Qed.

Lemma py_round_exn n e : py_round n = Raise e → arithmetic_error e.
Proof. destruct n; simpl; [done | apply round_float_exn]. Qed.

Lemma crop_image_exn src box e : crop_image src box = Raise e → arithmetic_error e.
Proof.
  destruct box as [[[b0 b1] b2] b3]. unfold crop_image.
  destruct (pynum_ltb b2 b0); [intros [= <-]; by right|].
  destruct (pynum_ltb b3 b1); [intros [= <-]; by right|].
  destruct (py_round b0) eqn:E0; [|intros [= <-]; by eapply py_round_exn].
  destruct (py_round b1) eqn:E1; [|intros [= <-]; by eapply py_round_exn].
  destruct (py_round b2) eqn:E2; [|intros [= <-]; by eapply py_round_exn].
  destruct (py_round b3) eqn:E3; [|intros [= <-]; by eapply py_round_exn].
  done.
Qed.

Lemma cropped_exn loaded e : cropped loaded = Raise e → arithmetic_error e.
Proof.
  unfold cropped. case_bool_decide; [|done].
  destruct (int_truediv _ 2) eqn:E0;
    [|intros [= <-]; left; by eapply int_truediv_exn; [|exact E0]].
  destruct (float_of_int _) eqn:E1;
    [|intros [= <-]; left; by eapply float_of_int_exn].
  apply crop_image_exn.
Qed.

Lemma radius_exn dim factor e : radius dim factor = Raise e → arithmetic_error e.
Proof.
  unfold radius. destruct (float_of_int dim) eqn:E; [done|].
  intros [= <-]. left. by eapply float_of_int_exn.
Qed.

Lemma padding_exn width e : padding width = Raise e → arithmetic_error e.
Proof.
  unfold padding. destruct (float_of_int width) eqn:E.
  - apply py_int_exn.
  - intros [= <-]. left. by eapply float_of_int_exn.
Qed.

Section Exceptions.

Context {platform : Platform}.

Lemma vertex_exn (r : float) pw ph i e :
  vertex r pw ph i = Raise e → arithmetic_error e.
Proof.
  unfold vertex. cbn [ar_of_int Arith_binary64].
  destruct (float_of_int i) eqn:E0; [|intros [= <-]; left; by eapply float_of_int_exn].
  destruct (float_of_int pw) eqn:E1; [|intros [= <-]; left; by eapply float_of_int_exn].
  destruct (float_of_int ph) eqn:E2; [|intros [= <-]; left; by eapply float_of_int_exn].
  done.
Qed.

Lemma hexagon_exn (r : float) pw ph e :
  hexagon r pw ph = Raise e → arithmetic_error e.
Proof.
  unfold hexagon.
  assert (∀ (l : list Z) (acc : Res (list (float * float))),
            (∀ e, acc = Raise e → arithmetic_error e) →
            foldl (λ acc i, polygon ← acc; v ← vertex r pw ph i; mret (polygon ++ [v]))
                  acc l = Raise e → arithmetic_error e) as H.
  { induction l as [|i l IH]; intros acc Hacc; simpl; [apply Hacc|].
    apply IH. intros e'. destruct acc as [polygon|e0]; simpl.
    - destruct (vertex r pw ph i) eqn:Ev; [done|].
      intros [= <-]. by eapply vertex_exn.
    - intros [= <-]. by apply Hacc. }
  apply H. done.
Qed.

Lemma hexagon_image_exn source e :
  hexagon_image source = Raise e → arithmetic_error e.
Proof.
  unfold hexagon_image.
  destruct (cropped _) as [im|e0] eqn:E0; [|intros [= <-]; by eapply cropped_exn].
  cbn [mbind Res_bind].
  destruct (radius _ _) as [r|e0] eqn:E1; [|intros [= <-]; by eapply radius_exn].
  cbn [mbind Res_bind].
  destruct (padding _) as [pf|e0] eqn:E2; [|intros [= <-]; by eapply padding_exn].
  cbn [mbind Res_bind].
  case_bool_decide; [intros [= <-]; by right|].
  destruct (hexagon _ _ _) as [polygon|e0] eqn:E3; [done|].
  intros [= <-]. by eapply hexagon_exn.
Qed.

Lemma polycut_world name directory σ :
  polycut name directory σ =
    (match (polycut_run name directory σ).1 with
     | Ok _ => Ok tt
     | Raise e => Raise e
     end, (polycut_run name directory σ).2).
Proof.
  unfold polycut, mbind, M_bind.
  destruct (polycut_run name directory σ) as [[o|e] σ']; done.
Qed.

End Exceptions.

(* ===================================================================== *)
(** * 25. The sign of the padding                                        *)
(* ===================================================================== *)

Lemma binary_round_aux_not_negative m e l :
  not_negative (binary_round_aux 53 1024 false m e l).
Proof.
  unfold binary_round_aux.
  destruct (shr_fexp 53 1024 m e l) as [mrs' e'].
  destruct (shr_fexp 53 1024 _ e' loc_Exact) as [mrs'' e''].
  destruct (shr_m mrs''); simpl; [done | | done].
  by destruct (e'' <=? 1024 - 53).
Qed.

Lemma Z2F_not_negative z : 0 ≤ z → not_negative (Z2F z).
Proof.
  intros Hz. unfold Z2F, binary_normalize.
  destruct z as [|p|p]; [done | | lia].
  unfold binary_round. destruct (shl_align _ _ _) as [mz ez].
  apply binary_round_aux_not_negative.
Qed.

Lemma fmul_not_negative x my ey :
  not_negative x → not_negative (fmul x (S754_finite false my ey)).
Proof.
  destruct x as [s|s| |s m e]; simpl; try done.
  - by destruct s.
  - destruct s; [done|]. intros _. apply binary_round_aux_not_negative.
Qed.

Lemma fdiv_not_negative x my ey :
  not_negative x → not_negative (fdiv x (S754_finite false my ey)).
Proof.
  destruct x as [s|s| |s m e]; simpl; try done.
  - by destruct s.
  - destruct s; [done|]. intros _.
    destruct (SFdiv_core_binary _ _ _ _ _ _) as [[mz ez] lz].
    apply binary_round_aux_not_negative.
Qed.

Lemma np_floor_not_negative x : not_negative x → not_negative (np_floor x).
Proof.
  destruct x as [s|s| |s m e]; simpl; try done.
  destruct s; [done|]. intros _. apply Z2F_not_negative. simpl.
  destruct (0 <=? e).
  - apply Z.mul_nonneg_nonneg; [lia|]. apply Z.pow_nonneg. lia.
  - apply Z.shiftr_nonneg. lia.
Qed.

Lemma py_int_not_negative x i : not_negative x → py_int x = Ok i → 0 ≤ i.
Proof.
  destruct x as [s|s| |s m e]; simpl; try done.
  - intros _ [= <-]. done.
  - destruct s; [done|]. intros _ [= <-]. simpl.
    destruct (0 <=? e).
    + apply Z.mul_nonneg_nonneg; [lia|]. apply Z.pow_nonneg. lia.
    + apply Z.shiftr_nonneg. lia.
Qed.

(** The sign of the value of line 74. *)
Lemma padding_sign width padding_factor :
  0 ≤ width → padding width = Ok padding_factor → 0 ≤ padding_factor.
Proof.
  intros Hw. unfold padding.
  destruct (float_of_int width) as [w|e] eqn:Hf; [|done].
  cbn [mbind Res_bind].
  assert (Hwn : not_negative w).
  { unfold float_of_int in Hf. destruct (is_finite _); [|done].
    injection Hf as <-. by apply Z2F_not_negative. }
  assert (Hc : ∃ m e, fsub (fdiv (float_lit 20 1) (float_lit 17 1)) (float_lit 1 1)
                      = S754_finite false m e)
    by (eexists _, _; vm_compute; reflexivity).
  destruct Hc as (mc & ec & ->).
  assert (H2 : ∃ m e, float_lit 2 1 = S754_finite false m e)
    by (eexists _, _; vm_compute; reflexivity).
  destruct H2 as (m2 & e2 & ->).
  apply py_int_not_negative, np_floor_not_negative, fdiv_not_negative,
    fmul_not_negative, Hwn.
Qed.

(** X13.  The padding of lines 72-74 is never negative on a width that is
    not, so the sides that [add_margin] hands to [Image.new] in line 76 are
    not negative either: the guard of [Image.new] cannot fire there. *)
Theorem padding_not_negative width height padding_factor :
  0 ≤ width → 0 ≤ height →
  padding width = Ok padding_factor →
  0 ≤ padding_factor ∧
  ¬ (width + padding_factor + padding_factor < 0 ∨
     height + padding_factor + padding_factor < 0).
Proof.
  intros Hw Hh Hpad.
  pose proof (padding_sign width padding_factor Hw Hpad) as Hpf.
  split; [exact Hpf | lia].
Qed.

(* ===================================================================== *)
(** * 26. [polycut]: outcomes, frames and composition                    *)
(* ===================================================================== *)

Lemma save_images_path_stem name output_dir :
  save_images_path name output_dir = os_path_join output_dir name +:+ ".png".
Proof. by apply os_path_join_suffix. Qed.

Lemma output_path_hex name directory :
  output_path name directory = save_images_path (name +:+ "_hex") directory.
Proof.
  unfold output_path, save_images_path. by rewrite append_assoc.
Qed.

Section PolycutRuns.

Context {platform : Platform}.

(** X6.  When the path [directory] exists, [polycut] changes at most one
    path, whatever the outcome: every path other than the output path holds
    what it held, and the output path is not removed. *)
Theorem polycut_file_frame name directory σ :
  is_Some (files σ !! directory) →
  (∀ p, p ≠ output_path name directory →
        files (polycut name directory σ).2 !! p = files σ !! p) ∧
  (∀ p, is_Some (files σ !! p) →
        is_Some (files (polycut name directory σ).2 !! p)).
Proof.
  intros Hdir. rewrite polycut_world. cbn [snd].
  destruct (polycut_run_outcome name directory σ) as (r & σ' & Hr & Hcase & _).
  rewrite Hr. cbn [snd].
  destruct (polycut_outcome_frame _ _ _ _ _ Hcase) as [Hframe Hkept].
  split; [|done]. intros p Hp. apply Hframe; [done|].
  destruct (decide (p = directory)) as [->|Hne]; [by right | by left].
Qed.

(** X7.  Whatever the outcome, the image objects that existed before the
    call are unchanged (the call only allocates), and the log is continued,
    first by the record of line 50. *)
Theorem polycut_store_frame name directory σ :
  ∃ extra rs,
    images (polycut name directory σ).2 = images σ ++ extra ∧
    logs (polycut name directory σ).2 =
      logs σ ++ {| level := INFO; msg := ProcessingImage name directory |} :: rs.
Proof.
  rewrite polycut_world. cbn [snd].
  destruct (polycut_run_outcome name directory σ)
    as (r & σ' & Hr & _ & [extra Hext] & [rs Hrs]).
  rewrite Hr. cbn [snd]. exists extra, rs. split; [done|].
  rewrite Hrs. simpl. by rewrite <- app_assoc.
Qed.

(** X9.  The candidates are tried for existence only: when the first one
    that exists is not an image, the call raises [OSError] and changes no
    file; later candidates are not considered. *)
Theorem polycut_undecodable_candidate name directory σ p :
  first_file (files σ) (os_path_join directory name) extensions = Some p →
  files σ !! p = Some (File OtherData) →
  polycut name directory σ =
    (Raise OSError,
     logged σ [{| level := INFO; msg := ProcessingImage name directory |}]).
Proof.
  intros Hfirst Hp. unfold polycut. apply run_bind_raise.
  rewrite (polycut_run_found _ _ _ p Hfirst).
  apply run_bind_raise. unfold process. apply run_bind_raise.
  apply Image_open_raise. intros im. simpl. by rewrite Hp.
Qed.

(** X3.  Total correctness of a run into an existing directory: when the
    first candidate holds an image from which lines 59-94 build a non-empty
    image [out], the path [directory] exists and the output path is no
    directory, [polycut] returns and the file system is the old one with
    the output file holding [out] added or replaced; the source file is as
    it was. *)
Theorem polycut_saves_hexagon_image name directory σ p source out :
  first_file (files σ) (os_path_join directory name) extensions = Some p →
  files σ !! p = Some (File (ImageData source)) →
  hexagon_image source = Ok out →
  im_width out ≠ 0 → im_height out ≠ 0 →
  is_Some (files σ !! directory) →
  files σ !! output_path name directory ≠ Some Dir →
  ∃ σ',
    polycut name directory σ = (Ok tt, σ') ∧
    files σ' = <[output_path name directory := File (ImageData out)]> (files σ) ∧
    files σ' !! output_path name directory = Some (File (ImageData out)) ∧
    files σ' !! p = Some (File (ImageData source)).
Proof.
  intros Hfirst Hp Hout Hw Hh Hdir Hnodir.
  destruct (polycut_run_saves name directory σ p source out)
    as (ls & σ' & Hrun & _ & _ & Hfiles & _); try done.
  { intros [Hnone _]. rewrite Hnone in Hdir. by destruct Hdir. }
  { by rewrite with_directory_id. }
  unfold written_files in Hfiles. rewrite with_directory_id in Hfiles by done.
  exists σ'. split_and!.
  - unfold polycut. erewrite run_bind_ok by exact Hrun. done.
  - done.
  - rewrite Hfiles. apply lookup_insert_eq.
  - rewrite Hfiles.
    destruct (first_file_candidate _ _ _ _ Hfirst) as (ext & c & Hext & -> & _).
    rewrite lookup_insert_ne by (by apply output_path_not_candidate). done.
Qed.

(** X4.  The output image depends on the source image alone: two runs that
    reach the end from files with the same content write the same content,
    whatever the names, the directories and the rest of the two worlds. *)
Theorem polycut_output_from_source n1 d1 σ1 ls1 σ1' n2 d2 σ2 ls2 σ2' :
  polycut_run n1 d1 σ1 = (Ok (Some ls1), σ1') →
  polycut_run n2 d2 σ2 = (Ok (Some ls2), σ2') →
  files σ1 !! l_file_name ls1 = files σ2 !! l_file_name ls2 →
  files σ1' !! l_output_path ls1 = files σ2' !! l_output_path ls2.
Proof.
  intros (p1 & s1 & o1 & _ & Hs1 & Ho1 & _ & _ & _ & _ & <- & -> & ->)%polycut_run_saved.
  intros (p2 & s2 & o2 & _ & Hs2 & Ho2 & _ & _ & _ & _ & <- & -> & ->)%polycut_run_saved.
  rewrite Hs1, Hs2. intros [= ->].
  unfold written_files. rewrite !lookup_insert_eq. congruence.
Qed.

(** X5.  Running [polycut] again after a run that reached the end reaches the
    end again, from the same source, and leaves the file system as the first
    run left it: the output is not taken for a source. *)
Theorem polycut_idempotent name directory σ ls σ' :
  polycut_run name directory σ = (Ok (Some ls), σ') →
  ∃ ls' σ'',
    polycut_run name directory σ' = (Ok (Some ls'), σ'') ∧
    l_file_name ls' = l_file_name ls ∧
    l_output_path ls' = l_output_path ls ∧
    files σ'' = files σ'.
Proof.
  intros (p & source & out & Hfirst & Hp & Hout & Hdir & Hnodir & Hw & Hh
          & Hname & Hpath & Hfiles)%polycut_run_saved.
  destruct (first_file_candidate _ _ _ _ Hfirst) as (ext & c & Hext & Hpe & _).
  assert (Hne : p ≠ output_path name directory).
  { rewrite Hpe. intros Heq. by eapply output_path_not_candidate. }
  assert (Hp' : files σ' !! p = Some (File (ImageData source))).
  { rewrite Hfiles. unfold written_files. rewrite lookup_insert_ne by done.
    rewrite with_directory_lookup_Some; [done | by eexists]. }
  assert (Hfirst' : first_file (files σ') (os_path_join directory name) extensions
                    = Some p).
  { rewrite <- Hfirst. apply first_file_ext. intros ext' Hext'.
    rewrite Hfiles. unfold written_files, is_file at 1.
    rewrite lookup_insert_ne
      by (intros Heq; by eapply output_path_not_candidate).
    apply is_file_with_directory. }
  assert (Hd' : is_Some (files σ' !! directory)).
  { rewrite Hfiles. unfold written_files.
    destruct (decide (directory = output_path name directory)) as [Heq|Hneq].
    - rewrite <- Heq, lookup_insert_eq. by eexists.
    - rewrite lookup_insert_ne by done. apply with_directory_exists. }
  assert (Ho' : files σ' !! output_path name directory = Some (File (ImageData out))).
  { rewrite Hfiles. apply lookup_insert_eq. }
  destruct (polycut_run_saves name directory σ' p source out)
    as (ls' & σ'' & Hrun' & Hname' & Hpath' & Hfiles' & _); try done.
  - intros [Hn _]. rewrite Hn in Hd'. by destruct Hd'.
  - rewrite with_directory_id by done. by rewrite Ho'.
  - exists ls', σ''. split_and!; try congruence.
    rewrite Hfiles'. unfold written_files.
    rewrite with_directory_id by done. by apply insert_id.
Qed.

(** X10.  With an empty [directory] that names nothing, as on a real file
    system, [polycut] never writes: [os.makedirs] of the empty path fails
    after the image has been built.  A call that finds its source raises. *)
Theorem polycut_empty_directory name σ :
  files σ !! "" = None →
  files (polycut name "" σ).2 = files σ ∧
  (is_Some (first_file (files σ) (os_path_join "" name) extensions) →
   ∃ e, (polycut name "" σ).1 = Raise e).
Proof.
  intros Hnone. rewrite polycut_world. cbn [fst snd].
  destruct (polycut_run_outcome name "" σ) as (r & σ' & Hr & Hcase & _).
  rewrite Hr. cbn [fst snd].
  destruct Hcase as [Hf| | | |? ? ? ? ? ? Hd|? ? ? ? ? ? Hd|? ? ? ? ? ? ? Hd];
    try (by destruct Hd).
  - split; [done|]. rewrite Hf. by intros [? ?].
  - split; [done|]. by eexists.
  - split; [done|]. by eexists.
  - split; [done|]. by eexists.
Qed.

(** X11.  Source and output are neighbours: the source is [stem + ext] for one
    of the three extensions and the output is [stem + "_hex.png"], with
    [stem = os.path.join(directory, name)]; they differ, and the source
    file is left as it was. *)
Theorem polycut_output_beside_source name directory σ ls σ' :
  polycut_run name directory σ = (Ok (Some ls), σ') →
  ∃ ext,
    ext ∈ extensions ∧
    l_file_name ls = os_path_join directory name +:+ ext ∧
    l_output_path ls = os_path_join directory name +:+ "_hex.png" ∧
    l_output_path ls ≠ l_file_name ls ∧
    files σ' !! l_file_name ls = files σ !! l_file_name ls.
Proof.
  intros (p & source & out & Hfirst & Hp & _ & _ & _ & _ & _
          & Hname & Hpath & Hfiles)%polycut_run_saved.
  destruct (first_file_candidate _ _ _ _ Hfirst) as (ext & c & Hext & Hpe & _).
  exists ext. rewrite Hname, Hpath, Hpe.
  assert (Hne : output_path name directory ≠ os_path_join directory name +:+ ext)
    by (by apply output_path_not_candidate).
  split_and!; try done.
  - apply output_path_stem.
  - rewrite Hfiles. unfold written_files. rewrite lookup_insert_ne by done.
    rewrite with_directory_lookup_Some; [done|]. rewrite <- Hpe. by eexists.
Qed.

(** X14.  End to end, for a source that is not wider than high: the output
    shows the source, converted to RGBA, moved by the padding in both
    directions, on a white ground; the alpha band of the source is replaced
    by the mask. *)
Theorem polycut_keeps_colours σ name directory ls σ' source :
  polycut_run name directory σ = (Ok (Some ls), σ') →
  files σ !! l_file_name ls = Some (File (ImageData source)) →
  wf_image source → wf_bands source →
  im_width source ≤ im_height source →
  let pf := l_padding_factor ls in
  ∃ out,
    files σ' !! l_output_path ls = Some (File (ImageData out)) ∧
    0 ≤ pf ∧
    size out = (im_width source + 2 * pf, im_height source + 2 * pf) ∧
    (∀ x y, 0 ≤ x < im_width source → 0 ≤ y < im_height source →
       ∃ r g b a,
         getpixel (converted source RGBA) x y = Some [r; g; b; a] ∧
         getpixel out (x + pf) (y + pf) =
           Some [r; g; b;
                 if polygon_pixels (l_polygon ls) (x + pf) (y + pf)
                 then 255 else 0]) ∧
    (∀ x y, 0 ≤ x < im_width source + 2 * pf →
            0 ≤ y < im_height source + 2 * pf →
       ¬ (pf ≤ x < pf + im_width source ∧ pf ≤ y < pf + im_height source) →
       getpixel out x y =
         Some [255; 255; 255;
               if polygon_pixels (l_polygon ls) x y then 255 else 0]).
Proof.
  intros Hrun Hsrc Hwf Hbands Htall pf.
  apply polycut_run_inv in Hrun as (p & _ & Hproc).
  apply process_inv in Hproc
    as (file_img & I & Hfile & Hname & _ & _ & _ & _ & Hcrop & _ & _ & _ & _
        & Hpad & HwP & HhP & _ & _ & _ & _ & _ & _ & _ & _ & Hout & _).
  rewrite Hname in Hsrc. simpl in Hfile. rewrite Hfile in Hsrc.
  injection Hsrc as ->.
  fold pf in Hpad, HwP, HhP, Hout.
  set (I0 := converted source RGBA) in *.
  assert (I = I0) as ->.
  { destruct Hcrop as [(_ & _ & ->)|[Hgt _]]; [done|]. simpl in Hgt. lia. }
  assert (HwI : im_width I0 = im_width source) by done.
  assert (HhI : im_height I0 = im_height source) by done.
  pose proof Hwf as (Hw0 & Hh0 & _).
  assert (HwfI : wf_image I0) by (by apply wf_converted).
  assert (HbI : wf_bands I0) by (by apply wf_bands_converted_RGBA).
  assert (Hpf : 0 ≤ pf) by (by eapply (padding_sign (im_width I0))).
  assert (HmI : im_mode I0 = RGBA) by done.
  clearbody pf I0.
  set (P := margin_image I0 pf pf pf pf [255; 255; 255; 255]) in *.
  assert (HwfP : wf_image P) by (apply wf_margin_image; simpl; lia).
  assert (HbP : wf_bands P)
    by (apply wf_bands_margin_image; [by rewrite HmI | done]).
  assert (HmP : im_mode P = RGBA) by exact HmI.
  eexists. split; [exact Hout|]. split; [done|].
  split; [unfold size; simpl; f_equal; lia|].
  split.
  - intros x y Hx Hy.
    destruct (getpixel_masked P (l_polygon ls) (x + pf) (y + pf))
      as (r & g & b & a & HPxy & Hoxy & _);
      [done | done | done | simpl; lia | simpl; lia |].
    unfold P in HPxy.
    rewrite getpixel_margin_image in HPxy by (simpl; lia).
    replace (x + pf - pf) with x in HPxy by lia.
    replace (y + pf - pf) with y in HPxy by lia.
    destruct (getpixel_wf I0 x y HwfI) as [q Hq]; [simpl; lia | simpl; lia |].
    rewrite Hq in HPxy. injection HPxy as ->.
    exists r, g, b, a. split; [done | exact Hoxy].
  - intros x y Hx Hy Hout'.
    destruct (getpixel_masked P (l_polygon ls) x y)
      as (r & g & b & a & HPxy & Hoxy & _);
      [done | done | done | simpl; lia | simpl; lia |].
    unfold P in HPxy.
    rewrite getpixel_margin_image in HPxy by (simpl; lia).
    destruct (getpixel I0 (x - pf) (y - pf)) as [q|] eqn:Hq.
    + apply getpixel_inside in Hq. simpl in Hq. lia.
    + injection HPxy as <- <- <- <-. exact Hoxy.
Qed.

(** X17.  [polycut] reads what [save_images] wrote: the file that line 160
    saves for [name] is the first candidate that [polycut] tries for the
    same [name] and directory, so the not-found branch is not taken and
    [.jpeg] and [.jpg] files of that name are ignored. *)
Theorem polycut_finds_saved_image name output_dir σ c :
  files σ !! save_images_path name output_dir = Some (File c) →
  next_isfile (os_path_join output_dir name) extensions σ
    = (Ok (Some (save_images_path name output_dir)), σ) ∧
  polycut_run name output_dir σ =
    (ls ← process name output_dir (save_images_path name output_dir);
     mret (Some ls))
      (logged σ [{| level := INFO; msg := ProcessingImage name output_dir |}]).
Proof.
  intros Hfile.
  assert (Hfirst : first_file (files σ) (os_path_join output_dir name) extensions
                   = Some (save_images_path name output_dir)).
  { rewrite save_images_path_stem in *. simpl. unfold is_file at 1.
    by rewrite Hfile. }
  split.
  - by rewrite next_isfile_run, Hfirst.
  - by apply polycut_run_found.
Qed.

(** X18.  The output of [polycut] for [name] is the file that [save_images]
    writes for the name [name + "_hex"], and the first candidate of a later
    [polycut] for that name: two locations called [x] and [x_hex] share the
    file [x_hex.png]. *)
Theorem polycut_output_is_hex_candidate name directory σ ls σ' :
  polycut_run name directory σ = (Ok (Some ls), σ') →
  l_output_path ls = save_images_path (name +:+ "_hex") directory ∧
  first_file (files σ') (os_path_join directory (name +:+ "_hex")) extensions
    = Some (l_output_path ls).
Proof.
  intros (p & source & out & _ & _ & _ & _ & _ & _ & _ & _ & Hpath & Hfiles)
         %polycut_run_saved.
  rewrite Hpath, output_path_hex. split; [done|].
  rewrite save_images_path_stem. simpl. unfold is_file at 1.
  rewrite <- save_images_path_stem, <- output_path_hex, Hfiles.
  unfold written_files. by rewrite lookup_insert_eq.
Qed.

(** X12.  What a run that reaches the end logs, in order: the record of line
    50, the record of [add_margin] with the padding on all four sides and
    white, the record of line 99 exactly when [directory] named nothing,
    and the record of line 102 with the output path. *)
Theorem polycut_log_trace name directory σ ls σ' :
  polycut_run name directory σ = (Ok (Some ls), σ') →
  logs σ' =
    logs σ ++
    [{| level := INFO; msg := ProcessingImage name directory |};
     {| level := INFO;
        msg := AddingMargin (l_padding_factor ls) (l_padding_factor ls)
                 (l_padding_factor ls) (l_padding_factor ls)
                 (ColorRGB 255 255 255) |}] ++
    (if bool_decide (is_Some (files σ !! directory)) then []
     else [{| level := INFO; msg := CreatedDirectory directory |}]) ++
    [{| level := INFO; msg := SavedHexagonalImage (l_output_path ls) |}].
Proof.
  intros Hrun.
  apply polycut_run_inv in Hrun as (p & _ & Hproc).
  pose proof Hproc as (source & _ & Hsrc & _)%process_inv.
  destruct (process_run name directory p _ source Hsrc)
    as (σ1 & _ & Hfiles1 & _ & Hcase).
  destruct (hexagon_image source) as [out|e]; [|congruence].
  destruct Hcase as (new_im & mk & pf & Hnew & Hmk & Hlogs1 & Hrun).
  rewrite Hrun in Hproc.
  apply run_bind_inv in Hproc as (path & σ2 & Hpersist & Hret).
  rewrite mret_run in Hret. injection Hret as <- <-.
  destruct (Hmk path) as (-> & _ & ->).
  rewrite (persist_run _ _ _ _ out Hnew) in Hpersist.
  simpl in Hfiles1, Hlogs1. rewrite Hfiles1, Hlogs1 in Hpersist.
  case_bool_decide; [discriminate|]. cbn zeta in Hpersist.
  destruct (with_directory (files σ) directory !! output_path name directory)
    as [[|c]|]; [discriminate| |];
    (case_bool_decide; [discriminate|]);
    injection Hpersist as <- <-; simpl; by rewrite <- !app_assoc.
Qed.

End PolycutRuns.

(* ===================================================================== *)
(** * 27. The crop by sizes                                              *)
(* ===================================================================== *)

Lemma elem_of_range (n : nat) (z : Z) : z ∈ range n ↔ 0 ≤ z < Z.of_nat n.
Proof.
  unfold range. rewrite list_elem_of_fmap. split.
  - intros (i & -> & Hi). apply elem_of_seq in Hi. lia.
  - intros Hz. exists (Z.to_nat z). split; [lia|]. apply elem_of_seq. lia.
Qed.

Lemma elem_of_wide_sizes n w h :
  0 < h < w ∧ w ≤ Z.of_nat n → (w, h) ∈ wide_sizes n.
Proof.
  intros Hwh. unfold wide_sizes.
  apply list_elem_of_bind. exists w. split; [|apply elem_of_range; lia].
  apply list_elem_of_bind. exists h. split; [|apply elem_of_range; lia].
  rewrite bool_decide_true by lia. by apply list_elem_of_singleton.
Qed.

(** The size after the crop depends on the size of the image only. *)
Lemma cropped_size img :
  match cropped img, cropped (blank_image (im_width img) (im_height img)) with
  | Ok c, Ok c' => size c = size c'
  | Raise e, Raise e' => e = e'
  | _, _ => False
  end.
Proof.
  unfold cropped. cbn [blank_image im_width im_height].
  case_bool_decide; [|done].
  destruct (int_truediv _ 2) as [min_x|e]; [|done].
  destruct (float_of_int _) as [h|e]; [|done].
  cbn [mbind Res_bind crop_image].
  destruct (pynum_ltb _ _); [done|].
  destruct (pynum_ltb _ _); [done|].
  destruct (py_round (PFloat min_x)) as [x0|e]; [|done].
  cbn [mbind Res_bind py_round].
  destruct (round_float (fadd min_x h)) as [x1|e]; done.
Qed.

Lemma crop_sizes_up_to_64 : forallb crop_size_ok (wide_sizes 64) = true.
Proof. lazy. reflexivity. Qed.

(** X16.  The crop of lines 63-65 on every image up to 64 pixels wide: the
    height is kept and the new width is [height], except that it is
    [height + 1] or [height - 1] when [height] and [width - height] are
    both odd.  The crop yields a square exactly in the other cases. *)
Theorem square_crop_width_up_to_64 σ im img :
  images σ !! im = Some img →
  0 < im_height img < im_width img → im_width img ≤ 64 →
  ∃ c,
    square_crop im σ =
      (Ok (length (images σ), im_height img), push σ [c]) ∧
    im_height c = im_height img ∧
    im_width c = crop_width (im_width img) (im_height img) ∧
    (im_width c = im_height c ↔
     ¬ (Z.odd (im_width img - im_height img) ∧ Z.odd (im_height img))).
Proof.
  intros Him Hwide Hmax.
  pose proof crop_sizes_up_to_64 as Hall.
  rewrite forallb_forall in Hall.
  specialize (Hall (im_width img, im_height img)).
  rewrite <- list_elem_of_In in Hall.
  assert (Hin : (im_width img, im_height img) ∈ wide_sizes 64).
  { apply elem_of_wide_sizes. change (Z.of_nat 64) with 64. lia. }
  specialize (Hall Hin).
  unfold crop_size_ok in Hall. cbn [fst snd] in Hall.
  pose proof (cropped_size img) as Hsize.
  rewrite (square_crop_run _ _ img Him).
  destruct (cropped (blank_image _ _)) as [c'|]; [|done].
  destruct (cropped img) as [c|]; [|done].
  apply andb_prop in Hall as [Hw Hh]. injection Hsize as Hw' Hh'.
  exists c. rewrite bool_decide_true by lia.
  replace (im_width img `min` im_height img) with (im_height img) by lia.
  assert (Hcw : im_width c = crop_width (im_width img) (im_height img)) by lia.
  split_and!; [done | lia | done |].
  rewrite Hcw. replace (im_height c) with (im_height img) by lia.
  unfold crop_width.
  destruct (Z.odd (im_width img - im_height img)), (Z.odd (im_height img));
    simpl; try (split; [intros _ [? ?]; done | done]).
  destruct (Z.even _); split; try lia; intros H; destruct H; done.
Qed.

(** X15.  The crop never touches the vertical extent: whatever the size, the
    image after lines 60-65 has the height and the mode of the loaded image
    and rows that fit its size, and the loaded object itself is
    unchanged. *)
Theorem square_crop_keeps_height σ im img im' dim σ' :
  images σ !! im = Some img →
  wf_image img →
  square_crop im σ = (Ok (im', dim), σ') →
  ∃ c,
    images σ' !! im' = Some c ∧
    im_height c = im_height img ∧
    im_mode c = im_mode img ∧
    wf_image c ∧
    images σ' !! im = Some img.
Proof.
  intros Him Hwf Hrun.
  apply (square_crop_inv _ _ img) in Hrun as [_ Hcase]; [|done].
  destruct Hcase as [(_ & -> & ->)|(_ & min_x & hf & x0 & x1 & _ & _ & _ & _ & -> & ->)].
  - by exists img.
  - eexists. split; [apply lookup_push_new|].
    destruct Hwf as (_ & Hh & _).
    split_and!; [simpl; lia | done | apply wf_crop_core | by apply lookup_push_old].
Qed.

Lemma square_crop_width_up_to_64_witness :
  ∃ c, square_crop 0%nat store_5x2 = (Ok (1%nat, 2), push store_5x2 [c]) ∧
       im_width c = 2.
Proof.
  destruct (square_crop_width_up_to_64 store_5x2 0%nat (gradient 5 2))
    as (c & Hrun & _ & Hw & _); [reflexivity | simpl; lia | simpl; lia |].
  exists c. split; [exact Hrun | exact Hw].
Defined.

Lemma square_crop_keeps_height_witness :
  ∃ c, images (square_crop 0%nat store_5x2).2 !! 1%nat = Some c ∧ im_height c = 2.
Proof.
  destruct (square_crop 0%nat store_5x2) as [r σ'] eqn:Hrun.
  assert (r = Ok (1%nat, 2)) as -> by (vm_compute in Hrun; congruence).
  destruct (square_crop_keeps_height store_5x2 0%nat (gradient 5 2) _ _ _
              eq_refl (proj1 (wf_gradient 5 2)) Hrun) as (c & Hc & Hh & _).
  exists c. split; [exact Hc | exact Hh].
Defined.

(* ===================================================================== *)
(** * 28. [load_locations]                                               *)
(* ===================================================================== *)

Lemma dict_set_insert (data : list (string * pyvalue)) i key v value :
  NoDup data.*1 → data !! i = Some (key, v) →
  dict_set data key value = <[i := (key, value)]> data.
Proof.
  revert i. induction data as [|[k x] data IH]; intros i Hnd Hi; [done|].
  apply NoDup_cons in Hnd as [Hk Hnd]. simpl.
  destruct i as [|i]; simpl in Hi.
  - injection Hi as -> ->. by rewrite decide_True.
  - rewrite decide_False.
    + simpl. f_equal. by apply IH.
    + intros ->. apply Hk. apply list_elem_of_fmap. exists (key, v).
      split; [done|]. by eapply list_elem_of_lookup_2.
Qed.

Lemma items_loop_spec n i (data : list (string * pyvalue)) :
  NoDup data.*1 → (i + n = length data)%nat →
  items_loop n i data =
    take i data ++ (converted_entry <$> drop i data).
Proof.
  revert i data. induction n as [|n IH]; intros i data Hnd Hlen.
  - simpl. rewrite drop_ge by lia. rewrite take_ge by lia. by rewrite app_nil_r.
  - simpl. destruct (lookup_lt_is_Some_2 data i) as [[k v] Hi]; [lia|].
    rewrite Hi.
    assert (Hd : drop i data = (k, v) :: drop (S i) data)
      by (by apply drop_S).
    assert (∀ data', data' = data →
              items_loop n (S i) data' =
              take i data ++ (k, v) :: (converted_entry <$> drop (S i) data))
      as Hsame.
    { intros data' ->. rewrite IH by (done || lia).
      rewrite (take_S_r _ _ (k, v)) by done. by rewrite <- app_assoc. }
    destruct v as [| | | | |items| |]; rewrite Hd; simpl;
      try (by apply Hsame).
    rewrite (dict_set_insert data i k (VList items)) by done.
    rewrite IH.
    + rewrite take_S_r with (x := (k, VTuple items))
        by (apply list_lookup_insert_eq; by eapply lookup_lt_Some).
      rewrite take_insert_ge by lia. rewrite drop_insert_lt by lia.
      by rewrite <- app_assoc.
    + rewrite <- (list_insert_id data i (k, VList items)) in Hnd by done.
      rewrite list_fmap_insert in *. simpl.
      rewrite list_insert_id; [|by rewrite list_lookup_fmap, Hi].
      rewrite list_insert_id in Hnd; [done|by rewrite list_lookup_fmap, Hi].
    + rewrite length_insert. lia.
Qed.

Lemma dict_get_fmap (data : list (string * pyvalue)) key :
  dict_get (converted_entry <$> data) key = list_to_tuple <$> dict_get data key.
Proof.
  induction data as [|[k v] data IH]; [done|]. simpl.
  destruct (decide (k = key)); [done | exact IH].
Qed.

(** X19.  On a JSON object, [load_locations] returns a dict with the same
    keys in the same order; a value that is a list has become the tuple of
    the same items, and every other value is the one that was loaded. *)
Theorem load_locations_converts fs file_path (data : list (string * pyvalue)) :
  fs !! file_path = Some (TextFile (Some (VDict data))) →
  NoDup data.*1 →
  ∃ result,
    load_locations fs file_path = Returned (VDict result) ∧
    result = converted_entry <$> data ∧
    result.*1 = data.*1 ∧
    ∀ key, dict_get result key = list_to_tuple <$> dict_get data key.
Proof.
  intros Hfile Hnd. exists (converted_entry <$> data).
  unfold load_locations. rewrite Hfile.
  rewrite items_loop_spec by (done || lia).
  rewrite take_0, drop_0. split_and!; try done.
  - rewrite <- list_fmap_compose. done.
  - apply dict_get_fmap.
Qed.

(** X20.  In what [load_locations] returns, no value of the dict is a list;
    the conversion is not deep: the items of a converted list are kept as
    they are, lists included.  Running the loop again changes nothing. *)
Theorem load_locations_no_list_value fs file_path (data : list (string * pyvalue)) :
  fs !! file_path = Some (TextFile (Some (VDict data))) →
  NoDup data.*1 →
  ∃ result,
    load_locations fs file_path = Returned (VDict result) ∧
    (∀ key value, (key, value) ∈ result → ∀ items, value ≠ VList items) ∧
    (∀ key items, (key, VList items) ∈ data → (key, VTuple items) ∈ result) ∧
    items_loop (length result) 0 result = result.
Proof.
  intros Hfile Hnd. exists (converted_entry <$> data).
  unfold load_locations. rewrite Hfile.
  rewrite items_loop_spec by (done || lia).
  rewrite take_0, drop_0. split_and!; try done.
  - intros key value ([k v] & [= -> ->] & _)%list_elem_of_fmap items.
    by destruct v.
  - intros key items Hin. apply list_elem_of_fmap.
    by exists (key, VList items).
  - rewrite items_loop_spec; [| |lia].
    + rewrite take_0, drop_0. rewrite <- list_fmap_compose.
      apply list_fmap_ext. intros i [k v] _. by destruct v.
    + rewrite <- list_fmap_compose. done.
Qed.

Lemma test_locations_keys :
  NoDup [("TestLocation", VStr "123 Test St, Test City");
         ("TestCoordinates", VList [VFloat (Z2F 10); VFloat (Z2F 20)])].*1.
Proof.
  simpl. apply NoDup_cons. split.
  - intros [=]%list_elem_of_singleton.
  - apply NoDup_singleton.
Qed.

Lemma load_locations_converts_witness :
  ∃ result,
    load_locations test_locations "test_locations.json" = Returned (VDict result) ∧
    dict_get result "TestCoordinates" = Some (VTuple [VFloat (Z2F 10); VFloat (Z2F 20)]).
Proof.
  destruct (load_locations_converts test_locations "test_locations.json" _
              eq_refl test_locations_keys) as (result & Hrun & _ & _ & Hget).
  exists result. split; [exact Hrun|]. rewrite Hget. reflexivity.
Defined.

Lemma load_locations_no_list_value_witness :
  ∃ result,
    load_locations test_locations "test_locations.json" = Returned (VDict result) ∧
    ("TestCoordinates", VTuple [VFloat (Z2F 10); VFloat (Z2F 20)]) ∈ result.
Proof.
  destruct (load_locations_no_list_value test_locations "test_locations.json" _
              eq_refl test_locations_keys) as (result & Hrun & _ & Hin & _).
  exists result. split; [exact Hrun|]. apply Hin.
  apply elem_of_cons. right. apply elem_of_cons. by left.
Defined.

(** The test of the repository (test_functions.py, [test_load_locations]). *)
Example test_load_locations :
  load_locations test_locations "test_locations.json" =
    Returned (VDict [("TestLocation", VStr "123 Test St, Test City");
                     ("TestCoordinates", VTuple [VFloat (Z2F 10); VFloat (Z2F 20)])]).
Proof. reflexivity. Qed.

(* ===================================================================== *)
(** * 29. More runs on the sample platform                               *)
(* ===================================================================== *)

(** The same source as [sample_run_12] under another name, in another
    directory, beside other objects. *)
Lemma sample_run_shelf :
  ∃ ls σ',
    polycut_run (platform := sample_platform) "a" "maps" (shelf (gradient 12 12))
      = (Ok (Some ls), σ') ∧
    l_file_name ls = "maps/a.jpg" ∧
    l_output_path ls = "maps/a_hex.png".
Proof. eexists _, _. split; [vm_compute; reflexivity|]. by split. Qed.

Lemma add_margin_twice_witness :
  ∃ mid σ1 result σ2 out,
    add_margin 0%nat 1 0 0 2 (ColorRGB 255 255 255) world0 = (Ok mid, σ1) ∧
    add_margin mid 0 3 1 0 (ColorRGB 255 255 255) σ1 = (Ok result, σ2) ∧
    images σ2 !! result = Some out ∧
    size out = (7, 4) ∧
    getpixel out 2 1 = Some [255; 0; 0; 0].
Proof.
  destruct (add_margin_twice world0 0%nat red_2x2 1 0 0 2 0 3 1 0
              (ColorRGB 255 255 255) [255; 255; 255; 255])
    as (mid & σ1 & result & σ2 & out & once & H1 & H2 & Hout & -> & _ & Hsize & Hpix);
    [reflexivity | reflexivity | simpl; lia.. |].
  exists mid, σ1, result, σ2, out.
  split; [exact H1|]. split; [exact H2|]. split; [exact Hout|].
  split; [rewrite Hsize; reflexivity|].
  rewrite Hpix. reflexivity.
Defined.

Lemma add_margin_failure_witness :
  add_margin 0%nat 1 1 1 1 (ColorRGB 255 255 255) grey_world =
    (Raise TypeError,
     logged grey_world
       [{| level := INFO; msg := AddingMargin 1 1 1 1 (ColorRGB 255 255 255) |}]).
Proof.
  destruct (add_margin_failure grey_world 0%nat
              {| im_mode := L; im_width := 1; im_height := 1; im_data := [[[7]]] |}
              1 1 1 1 (ColorRGB 255 255 255) eq_refl) as [_ Htype].
  apply Htype; [reflexivity | by exists 255, 255, 255 | simpl; lia | simpl; lia].
Defined.

Lemma polycut_undecodable_candidate_witness :
  is_file (files broken_png) "output/test.jpg" = true ∧
  polycut (platform := sample_platform) "test" "output" broken_png
    = (Raise OSError,
       logged broken_png [{| level := INFO; msg := ProcessingImage "test" "output" |}]).
Proof.
  split; [reflexivity|].
  apply (polycut_undecodable_candidate (platform := sample_platform)
           "test" "output" broken_png "output/test.png");
    vm_compute; reflexivity.
Defined.

Lemma polycut_saves_hexagon_image_witness :
  ∃ σ' out,
    polycut (platform := sample_platform) "test" "output" (disk (gradient 2 2))
      = (Ok tt, σ') ∧
    files σ' !! "output/test_hex.png" = Some (File (ImageData out)) ∧
    files σ' !! "output/test.png" = Some (File (ImageData (gradient 2 2))).
Proof.
  assert (∃ out, hexagon_image (platform := sample_platform) (gradient 2 2) = Ok out ∧
                 im_width out ≠ 0 ∧ im_height out ≠ 0) as (out & Hout & Hw & Hh).
  { eexists. split; [vm_compute; reflexivity|]. split; vm_compute; discriminate. }
  destruct (polycut_saves_hexagon_image (platform := sample_platform)
              "test" "output" (disk (gradient 2 2)) "output/test.png"
              (gradient 2 2) out)
    as (σ' & Hrun & _ & Ho & Hs);
    [ vm_compute; reflexivity | vm_compute; reflexivity | exact Hout | exact Hw
    | exact Hh | vm_compute; by eexists
    | vm_compute; discriminate | ].
  exists σ', out. split; [exact Hrun|]. split; [exact Ho | exact Hs].
Defined.

Lemma polycut_file_frame_witness :
  files (polycut (platform := sample_platform) "test" "output"
           (disk (gradient 2 2))).2 !! "output/test.png"
  = Some (File (ImageData (gradient 2 2))).
Proof.
  destruct (polycut_file_frame (platform := sample_platform) "test" "output"
              (disk (gradient 2 2))) as [Hframe _].
  - vm_compute. by eexists.
  - rewrite Hframe by (vm_compute; discriminate). reflexivity.
Defined.

Lemma polycut_output_from_source_witness :
  ∃ ls1 σ1 ls2 σ2,
    polycut_run (platform := sample_platform) "test" "output" (disk (gradient 12 12))
      = (Ok (Some ls1), σ1) ∧
    polycut_run (platform := sample_platform) "a" "maps" (shelf (gradient 12 12))
      = (Ok (Some ls2), σ2) ∧
    files σ1 !! "output/test_hex.png" = files σ2 !! "maps/a_hex.png".
Proof.
  destruct sample_run_12 as (ls1 & σ1 & Hrun1 & Hname1 & _ & _ & _ & _ & Hpath1 & _).
  destruct sample_run_shelf as (ls2 & σ2 & Hrun2 & Hname2 & Hpath2).
  exists ls1, σ1, ls2, σ2. split; [exact Hrun1|]. split; [exact Hrun2|].
  rewrite <- Hpath1, <- Hpath2.
  apply (polycut_output_from_source (platform := sample_platform)
           _ _ _ _ _ _ _ _ _ _ Hrun1 Hrun2).
  rewrite Hname1, Hname2. reflexivity.
Defined.

Lemma polycut_idempotent_witness :
  ∃ ls σ' ls' σ'',
    polycut_run (platform := sample_platform) "test" "output" (disk (gradient 12 12))
      = (Ok (Some ls), σ') ∧
    polycut_run (platform := sample_platform) "test" "output" σ'
      = (Ok (Some ls'), σ'') ∧
    l_file_name ls' = "output/test.png" ∧
    files σ'' = files σ'.
Proof.
  destruct sample_run_12 as (ls & σ' & Hrun & Hname & _).
  destruct (polycut_idempotent (platform := sample_platform) _ _ _ _ _ Hrun)
    as (ls' & σ'' & Hrun' & Hname' & _ & Hfiles).
  exists ls, σ', ls', σ''. split; [exact Hrun|]. split; [exact Hrun'|].
  split; [by rewrite Hname', Hname | exact Hfiles].
Defined.

Lemma polycut_empty_directory_witness :
  files (polycut (platform := sample_platform) "test" "" flat_disk).2
    = files flat_disk ∧
  ∃ e, (polycut (platform := sample_platform) "test" "" flat_disk).1 = Raise e.
Proof.
  destruct (polycut_empty_directory (platform := sample_platform) "test" flat_disk)
    as [Hfiles Hraise]; [reflexivity|].
  split; [exact Hfiles|]. apply Hraise. vm_compute. by eexists.
Defined.

Lemma polycut_output_beside_source_witness :
  ∃ ls σ',
    polycut_run (platform := sample_platform) "test" "output" (disk (gradient 12 12))
      = (Ok (Some ls), σ') ∧
    l_output_path ls ≠ l_file_name ls ∧
    files σ' !! l_file_name ls = files (disk (gradient 12 12)) !! l_file_name ls.
Proof.
  destruct sample_run_12 as (ls & σ' & Hrun & _).
  destruct (polycut_output_beside_source (platform := sample_platform)
              _ _ _ _ _ Hrun) as (ext & _ & _ & _ & Hne & Hkept).
  exists ls, σ'. split; [exact Hrun|]. split; [exact Hne | exact Hkept].
Defined.

Lemma padding_not_negative_witness :
  padding 100 = Ok 8 ∧
  ¬ (100 + 8 + 8 < 0 ∨ 60 + 8 + 8 < 0).
Proof.
  assert (H : padding 100 = Ok 8) by (vm_compute; reflexivity).
  split; [exact H|].
  apply (padding_not_negative 100 60 8); [lia | lia | exact H].
Defined.

Lemma polycut_keeps_colours_witness :
  ∃ ls σ' out,
    polycut_run (platform := sample_platform) "test" "output" (disk (gradient 12 12))
      = (Ok (Some ls), σ') ∧
    files σ' !! l_output_path ls = Some (File (ImageData out)) ∧
    size out = (14, 14) ∧
    ∃ a, getpixel out 4 6 = Some [3; 5; 7; a].
Proof.
  destruct sample_run_12 as (ls & σ' & Hrun & Hname & _ & _ & Hpf & _).
  destruct (polycut_keeps_colours (platform := sample_platform)
              _ _ _ _ _ (gradient 12 12) Hrun)
    as (out & Hout & _ & Hsize & Hin & _).
  - rewrite Hname. reflexivity.
  - apply wf_gradient.
  - apply wf_gradient.
  - simpl. lia.
  - exists ls, σ', out. split; [exact Hrun|]. split; [exact Hout|].
    rewrite Hpf in Hsize, Hin. split; [exact Hsize|].
    destruct (Hin 3 5) as (r & g & b & a & Hsrc & Hpix); [simpl; lia | simpl; lia |].
    vm_compute in Hsrc. injection Hsrc as <- <- <- <-.
    eexists. exact Hpix.
Defined.

Lemma polycut_finds_saved_image_witness :
  next_isfile "output/test" extensions two_candidates
    = (Ok (Some "output/test.png"), two_candidates).
Proof.
  apply (polycut_finds_saved_image (platform := sample_platform)
           "test" "output" two_candidates (ImageData (gradient 2 2))).
  reflexivity.
Defined.

Lemma polycut_output_is_hex_candidate_witness :
  ∃ ls σ',
    polycut_run (platform := sample_platform) "test" "output" (disk (gradient 12 12))
      = (Ok (Some ls), σ') ∧
    first_file (files σ') "output/test_hex" extensions = Some "output/test_hex.png".
Proof.
  destruct sample_run_12 as (ls & σ' & Hrun & _ & _ & _ & _ & _ & Hpath & _).
  destruct (polycut_output_is_hex_candidate (platform := sample_platform)
              _ _ _ _ _ Hrun) as [_ Hfirst].
  exists ls, σ'. split; [exact Hrun|]. rewrite Hpath in Hfirst. exact Hfirst.
Defined.

Lemma polycut_log_trace_witness :
  ∃ ls σ',
    polycut_run (platform := sample_platform) "test" "output" (disk (gradient 12 12))
      = (Ok (Some ls), σ') ∧
    logs σ' =
      [{| level := INFO; msg := ProcessingImage "test" "output" |};
       {| level := INFO; msg := AddingMargin 1 1 1 1 (ColorRGB 255 255 255) |};
       {| level := INFO; msg := SavedHexagonalImage "output/test_hex.png" |}].
Proof.
  destruct sample_run_12 as (ls & σ' & Hrun & _ & _ & _ & Hpf & _ & Hpath & _).
  pose proof (polycut_log_trace (platform := sample_platform) _ _ _ _ _ Hrun) as Hlogs.
  exists ls, σ'. split; [exact Hrun|].
  rewrite Hlogs, Hpf, Hpath. reflexivity.
Defined.

(* ===================================================================== *)
(** * 30. The crop against the centred band                              *)
(* ===================================================================== *)

Lemma crop_image_box src box :
  crop_image src box =
    b ← rounded_box box;
    mret (crop_core src b.1.1.1 b.1.1.2 b.1.2 b.2).
Proof.
  destruct box as [[[b0 b1] b2] b3]. unfold crop_image, rounded_box.
  destruct (pynum_ltb b2 b0); [done|].
  destruct (pynum_ltb b3 b1); [done|].
  destruct (py_round b0); [|done].
  destruct (py_round b1); [|done].
  destruct (py_round b2); [|done].
  destruct (py_round b3); done.
Qed.

Lemma cropped_box img :
  im_width img > im_height img →
  cropped img =
    b ← crop_box (im_width img) (im_height img);
    mret (crop_core img b.1.1.1 b.1.1.2 b.1.2 b.2).
Proof.
  intros Hwide. unfold cropped, crop_box. rewrite bool_decide_true by done.
  destruct (int_truediv _ 2) as [min_x|]; [|done].
  destruct (float_of_int _) as [h|]; [|done].
  cbn [mbind Res_bind]. apply crop_image_box.
Qed.

(** The pixels of a crop: those of the source, moved by the corner of the
    box; zero where the box leaves the source. *)
Lemma getpixel_crop_core src x0 y0 x1 y1 x y :
  0 ≤ x < x1 - x0 → 0 ≤ y < y1 - y0 →
  getpixel (crop_core src x0 y0 x1 y1) x y =
    Some (match getpixel src (x + x0) (y + y0) with
          | Some q => q
          | None => replicate (bands (im_mode src)) 0
          end).
Proof.
  intros Hx Hy. unfold crop_core. rewrite getpixel_paste.
  rewrite getpixel_blank by lia. simpl.
  by replace (x - - x0) with (x + x0) by lia;
     replace (y - - y0) with (y + y0) by lia.
Qed.

Lemma bands_up_to_64 : forallb band_ok (wide_sizes 64) = true.
Proof. vm_cast_no_check (eq_refl true). Qed.

(** C5.  Lines 60-65 against the centred band of width
    [dim = min(width, height)].  An image that is not wider than high is
    left alone.  For a wider image (up to 64 pixels) whose box
    [((width - dim) / 2, 0, (width - dim) / 2 + dim, height)] has whole
    coordinates, the result is that band: [dim] wide, as high as the image,
    with the pixels of the columns from [(width - dim) / 2] on.  On a 4x3
    image the box is (0.5, 0, 3.5, 3); it is rounded to (0, 0, 4, 3) and
    the result is the whole image, 4 wide: not the band of width 3. *)
Theorem square_crop_band :
  (∀ σ im img,
     images σ !! im = Some img → im_width img ≤ im_height img →
     square_crop im σ = (Ok (im, Z.min (im_width img) (im_height img)), σ)) ∧
  (∀ σ im img,
     images σ !! im = Some img → wf_image img →
     0 < im_height img < im_width img → im_width img ≤ 64 →
     Z.even (im_width img - im_height img) = true →
     ∃ c,
       square_crop im σ =
         (Ok (length (images σ), Z.min (im_width img) (im_height img)),
          push σ [c]) ∧
       size c = (Z.min (im_width img) (im_height img), im_height img) ∧
       ∀ x y, 0 ≤ x < Z.min (im_width img) (im_height img) →
              0 ≤ y < im_height img →
         getpixel c x y =
           getpixel img
             (x + (im_width img - Z.min (im_width img) (im_height img)) / 2) y) ∧
  square_crop 0%nat store_4x3 =
    (Ok (1%nat, 3), push store_4x3 [gradient 4 3]).
Proof.
  split_and!.
  - intros σ im img Him Htall. rewrite (square_crop_run _ _ img Him).
    unfold cropped. rewrite !bool_decide_false by lia. done.
  - intros σ im img Him Hwf Hwide Hmax Heven.
    replace (Z.min (im_width img) (im_height img)) with (im_height img) by lia.
    pose proof bands_up_to_64 as Hall.
    rewrite forallb_forall in Hall.
    specialize (Hall (im_width img, im_height img)).
    rewrite <- list_elem_of_In in Hall.
    assert (Hin : (im_width img, im_height img) ∈ wide_sizes 64).
    { apply elem_of_wide_sizes. change (Z.of_nat 64) with 64. lia. }
    specialize (Hall Hin). unfold band_ok in Hall. cbn [fst snd] in Hall.
    rewrite (square_crop_run _ _ img Him), cropped_box by lia.
    destruct (crop_box _ _) as [[[[x0 y0] x1] y1]|]; [|done].
    rewrite <- Z.negb_even, Heven in Hall. simpl in Hall.
    apply andb_prop in Hall as [Hall Hy1]. apply andb_prop in Hall as [Hall Hx1].
    apply andb_prop in Hall as [Hx0 Hy0].
    apply Z.eqb_eq in Hx0, Hy0, Hx1, Hy1. subst x0 y0 x1 y1.
    cbn [mbind Res_bind mret Res_ret fst snd].
    rewrite bool_decide_true by lia.
    replace (Z.min (im_width img) (im_height img)) with (im_height img) by lia.
    eexists. split; [reflexivity|]. split.
    + unfold size. simpl. f_equal; lia.
    + intros x y Hx Hy. rewrite getpixel_crop_core by lia.
      rewrite Z.add_0_r.
      destruct (getpixel_wf img (x + (im_width img - im_height img) / 2) y Hwf)
        as [q Hq]; [|lia|by rewrite Hq].
      assert (0 ≤ (im_width img - im_height img) / 2) by (apply Z.div_pos; lia).
      assert (2 * ((im_width img - im_height img) / 2) ≤ im_width img - im_height img)
        by (apply Z.mul_div_le; lia).
      lia.
  - vm_compute. reflexivity.
Qed.
